(** * The guard-paged page-cache allocator of WCDB

    A shallow embedding of the C translation unit [pcache-malloc.c], kept
    in the sources as the second part of
    [objc/source/core/handle/AbstractHandle.cpp] (the guarded arena
    [mmap_impl] / [munmap_impl] and the four public entry points
    [pcache_malloc], [pcache_malloc_zero], [pcache_free], [pcache_memsize]),
    and the verification of its specification.

    The code runs on a machine made of
    - an address space: which bytes are mapped, and with which protection;
    - the contents of memory;
    - the static variable [pcache_msp];
    - a log of every system call, allocator call and memory access, in
      program order.

    Target: LP64, little endian ([size_t] and pointers are 64 bits wide,
    [int] is 32 bits wide). *)

From Stdlib Require Import ZArith List Bool Lia String DecimalString DecimalZ.
Import ListNotations.
Open Scope Z_scope.

(** ** Machine integers *)

Module C.

Definition SIZE_BITS : Z := 64.
Definition SIZE_MOD : Z := 2 ^ SIZE_BITS.
Definition SIZE_MAX : Z := SIZE_MOD - 1.
Definition INT_BITS : Z := 32.
Definition INT_MAX : Z := 2 ^ (INT_BITS - 1) - 1.
Definition INT_MIN : Z := - 2 ^ (INT_BITS - 1).

(** Unsigned arithmetic on [size_t] and pointer arithmetic on [uint8_t *]
    are done modulo [2^64]. *)
Definition to_size_t (z : Z) : Z := z mod SIZE_MOD.

(** The conversion [(int) x]: the low 32 bits, read as two's complement. *)
Definition to_int (z : Z) : Z :=
  let r := z mod 2 ^ INT_BITS in
  if r <=? INT_MAX then r else r - 2 ^ INT_BITS.

Definition sizeof_size_t : Z := 8.

Definition NULL : Z := 0.

(** [#define ROUND8(x) (((x)+7)&~7)], at type [size_t]. *)
Definition ROUND8 (x : Z) : Z :=
  Z.land (to_size_t (x + 7)) (to_size_t (Z.lnot 7)).

(** <sys/mman.h> *)
Definition PROT_NONE : Z := 0.
Definition PROT_READ : Z := 1.
Definition PROT_WRITE : Z := 2.
Definition MAP_PRIVATE : Z := 2.
Definition MAP_ANONYMOUS : Z := 32.
Definition MAP_FAILED : Z := to_size_t (-1).

End C.
Import C.

(** ** The machine *)

(** Address space and memory contents.  [vm a] is [None] when byte [a] is
    not mapped and [Some p] when it is mapped with protection bits [p]. *)
Record world : Type := mkWorld {
  vm : Z -> option Z;
  ram : Z -> Z
}.

Inductive event : Type :=
| EvMmap (addr len prot flags fd off ret : Z)
| EvMprotect (addr len prot ret : Z)
| EvMunmap (addr len ret : Z)
| EvPrctl (option arg2 addr len : Z) (name : string)
| EvCreate (capacity locked ret : Z)
| EvDestroy (msp : Z)
| EvMalloc (msp bytes ret : Z)
| EvCalloc (msp n_elements elem_size ret : Z)
| EvFree (msp mem : Z)
| EvLoad (addr value : Z)
| EvStore (addr value : Z).

Record machine : Type := mkMachine {
  mem : world;
  pcache_msp : Z;
  trace : list event
}.

Definition emit (e : event) (m : machine) : machine :=
  mkMachine (mem m) (pcache_msp m) (trace m ++ [e]).

Definition set_mem (w : world) (m : machine) : machine :=
  mkMachine w (pcache_msp m) (trace m).

Definition set_msp (p : Z) (m : machine) : machine :=
  mkMachine (mem m) p (trace m).

(** A run either returns a value or is killed by SIGSEGV at an access to a
    byte that is not mapped with the needed protection. *)
Inductive outcome (A : Type) : Type :=
| Done (a : A) (m : machine)
| Segv (m : machine).
Arguments Done {A} a m.
Arguments Segv {A} m.

Definition M (A : Type) : Type := machine -> outcome A.

Definition ret {A} (a : A) : M A := fun m => Done a m.

Definition bind {A B} (c : M A) (k : A -> M B) : M B :=
  fun m => match c m with
           | Done a m' => k a m'
           | Segv m' => Segv m'
           end.

Notation "x <- c ;; k" := (bind c (fun x => k))
  (at level 61, c at next level, right associativity).
Notation "c ;;; k" := (bind c (fun _ => k))
  (at level 61, right associativity).

(** ** Ranges of addresses *)

Definition in_range (a len x : Z) : bool := (a <=? x) && (x <? a + len).

(** [all_from f a n]: [f] holds of [a], [a+1], ..., [a+n-1]. *)
Fixpoint all_from (f : Z -> bool) (a : Z) (n : nat) : bool :=
  match n with
  | O => true
  | S k => f a && all_from f (a + 1) k
  end.

Definition all_range (f : Z -> bool) (a len : Z) : bool :=
  all_from f a (Z.to_nat len).

Definition is_mapped (w : world) (x : Z) : bool :=
  match vm w x with Some _ => true | None => false end.

Definition is_free (w : world) (x : Z) : bool := negb (is_mapped w x).

(** Byte [x] may be accessed in the way [bit] says ([0]: read, [1]: write). *)
Definition may_access (bit : Z) (w : world) (x : Z) : bool :=
  (0 <=? x) && (x <? SIZE_MOD) &&
  match vm w x with Some p => Z.testbit p bit | None => false end.

Definition readable (w : world) (a len : Z) : bool :=
  all_range (may_access 0 w) a len.

Definition writable (w : world) (a len : Z) : bool :=
  all_range (may_access 1 w) a len.

(** ** Loads and stores of a [size_t] (little endian) *)

Fixpoint encode (n : nat) (v : Z) : list Z :=
  match n with
  | O => []
  | S k => v mod 256 :: encode k (v / 256)
  end.

Fixpoint decode (l : list Z) : Z :=
  match l with
  | [] => 0
  | b :: t => b mod 256 + 256 * decode t
  end.

Fixpoint read_bytes (f : Z -> Z) (a : Z) (n : nat) : list Z :=
  match n with
  | O => []
  | S k => f a :: read_bytes f (a + 1) k
  end.

Fixpoint write_bytes (f : Z -> Z) (a : Z) (l : list Z) : Z -> Z :=
  match l with
  | [] => f
  | b :: t => write_bytes (fun x => if x =? a then b else f x) (a + 1) t
  end.

Definition peek (w : world) (a : Z) : Z :=
  decode (read_bytes (ram w) a (Z.to_nat sizeof_size_t)).

Definition poke (w : world) (a v : Z) : world :=
  mkWorld (vm w) (write_bytes (ram w) a (encode (Z.to_nat sizeof_size_t) v)).

(** [*(size_t * ) a] as an rvalue. *)
Definition load_size_t (a : Z) : M Z :=
  fun m =>
    if readable (mem m) a sizeof_size_t
    then let v := peek (mem m) a in Done v (emit (EvLoad a v) m)
    else Segv m.

(** [*(size_t * ) a = v]. *)
Definition store_size_t (a v : Z) : M unit :=
  fun m =>
    if writable (mem m) a sizeof_size_t
    then Done tt (emit (EvStore a v) (set_mem (poke (mem m) a v) m))
    else Segv m.

(** ** The platform *)

(** What the translation unit takes from its platform: the page size, the
    [__ANDROID__] macro, and the two decisions the kernel is free to make
    (where to place a new mapping, and whether to refuse a protection
    change for a reason of its own). *)
Class Platform : Type := {
  getpagesize : Z;
  getpagesize_range : 0 < getpagesize < 2 ^ 31;
  ANDROID : bool;
  mmap_place : world -> Z -> Z;
  mprotect_refused : world -> Z -> Z -> Z -> bool
}.

(** ** The kernel

    The kernel behind [mmap], [mprotect], [munmap] and [prctl] is not part
    of the sources.  Its model keeps, for every byte of the address space,
    whether the byte is mapped and with which protection.  Like the kernel
    it works on whole pages: a range must start at a page boundary, and a
    request applies to every page that holds a byte of the range, that is
    to the length rounded up to the next multiple of the page size.  User
    addresses lie below [TASK_SIZE]. *)
Module Kernel.
Section Kernel.
Context {P : Platform}.

Definition TASK_SIZE : Z := 2 ^ 47.

(** Modelled from the spec: [PAGE_ALIGN], the length of the whole pages
    that hold [len] bytes counted from a page boundary. *)
Definition page_up (len : Z) : Z :=
  (len + getpagesize - 1) / getpagesize * getpagesize.

Definition page_aligned (a : Z) : bool := a mod getpagesize =? 0.

(** The three changes of the address space, each on the pages that hold
    the [len] bytes from the page boundary [a]. *)
Definition map_range (w : world) (a len prot : Z) : world :=
  mkWorld (fun x => if in_range a (page_up len) x then Some prot else vm w x)
          (fun x => if in_range a (page_up len) x then 0 else ram w x).

Definition protect_range (w : world) (a len prot : Z) : world :=
  mkWorld (fun x => if in_range a (page_up len) x then Some prot else vm w x)
          (ram w).

Definition unmap_range (w : world) (a len : Z) : world :=
  mkWorld (fun x => if in_range a (page_up len) x then None else vm w x) (ram w).

(** Modelled from the spec: what the kernel checks before it reserves the
    pages for [len] bytes at [base]: the length is not zero, the place is a
    page boundary, and the pages lie in user space and are not mapped
    yet. *)
Definition mmap_grants (w : world) (base len : Z) : bool :=
  if (0 <? len) && (0 <? base) && page_aligned base
     && (base + page_up len <=? TASK_SIZE)
  then all_range (is_free w) base (page_up len)
  else false.

(** Modelled from the spec: [mmap(NULL, len, prot, flags, fd, off)]
    reserves fresh pages of anonymous (zero-filled) address space for [len]
    bytes and returns their base, or returns [MAP_FAILED] and reserves
    nothing. *)
Definition mmap (addr len prot flags fd off : Z) : M Z :=
  fun m =>
    let w := mem m in
    let base := mmap_place w len in
    if mmap_grants w base len
    then Done base (emit (EvMmap addr len prot flags fd off base)
                         (set_mem (map_range w base len prot) m))
    else Done MAP_FAILED (emit (EvMmap addr len prot flags fd off MAP_FAILED) m).

(** Modelled from the spec: what the kernel checks before it changes the
    protection of a range: the address is a page boundary, and the range
    is empty, or its pages lie in user space, are mapped throughout and
    the kernel has no reason of its own to refuse. *)
Definition mprotect_grants (w : world) (addr len prot : Z) : bool :=
  if page_aligned addr
  then if len =? 0 then true
       else if addr + page_up len <=? TASK_SIZE
            then if all_range (is_mapped w) addr (page_up len)
                 then negb (mprotect_refused w addr len prot)
                 else false
            else false
  else false.

(** Modelled from the spec: [mprotect(addr, len, prot)] changes the
    protection of the pages of the range and returns [0], or changes
    nothing and returns [-1].  (A kernel that meets an unmapped page in the
    middle of a range may have changed the pages in front of it; the arena
    only names ranges inside a mapping it has just made.) *)
Definition mprotect (addr len prot : Z) : M Z :=
  fun m =>
    let w := mem m in
    if mprotect_grants w addr len prot
    then Done 0 (emit (EvMprotect addr len prot 0)
                      (set_mem (protect_range w addr len prot) m))
    else Done (-1) (emit (EvMprotect addr len prot (-1)) m).

(** Modelled from the spec: [munmap(addr, len)] unmaps the pages of the
    range and returns [0], or returns [-1] for an address that is not a
    page boundary, an empty range or one outside user space. *)
Definition munmap (addr len : Z) : M Z :=
  fun m =>
    let w := mem m in
    if page_aligned addr && (0 <? len) && (addr + len <=? TASK_SIZE)
    then Done 0 (emit (EvMunmap addr len 0) (set_mem (unmap_range w addr len) m))
    else Done (-1) (emit (EvMunmap addr len (-1)) m).

(** Modelled from the spec: [prctl(PR_SET_VMA, 0, addr, len, name)] names a
    range for memory-inspection tools and has no other effect. *)
Definition prctl (option arg2 addr len : Z) (name : string) : M Z :=
  fun m => Done 0 (emit (EvPrctl option arg2 addr len name) m).

End Kernel.
End Kernel.

(** ** The guarded arena *)

Section Arena.
Context {P : Platform}.

Definition PR_SET_VMA : Z := 0x53564d41.

(** The [failure:] label of [mmap_impl]. *)
Definition mmap_impl_failure (base sz pageSize : Z) : M Z :=
  (if negb (base =? MAP_FAILED)
   then Kernel.munmap base (to_size_t (sz + to_size_t (pageSize * 2))) ;;; ret tt
   else ret tt) ;;;
  ret MAP_FAILED.

Definition mmap_impl (sz : Z) : M Z :=
  let pageSize := to_size_t getpagesize in
  base <- Kernel.mmap NULL (to_size_t (sz + to_size_t (pageSize * 2))) PROT_NONE
            (Z.lor MAP_PRIVATE MAP_ANONYMOUS) (-1) 0 ;;
  if base =? MAP_FAILED then mmap_impl_failure base sz pageSize else
  r <- Kernel.mprotect (to_size_t (base + pageSize)) sz (Z.lor PROT_READ PROT_WRITE) ;;
  if negb (r =? 0) then mmap_impl_failure base sz pageSize else
  (if ANDROID
   then Kernel.prctl PR_SET_VMA 0 base (to_size_t (sz + to_size_t (pageSize * 2)))
          "SQLite Safe PCache Guard" ;;;
        Kernel.prctl PR_SET_VMA 0 (to_size_t (base + pageSize)) sz
          "SQLite Safe PCache" ;;;
        ret tt
   else ret tt) ;;;
  ret (to_size_t (base + pageSize)).

Definition munmap_impl (addr sz : Z) : M Z :=
  let pageSize := to_size_t getpagesize in
  Kernel.munmap (to_size_t (addr - pageSize)) (to_size_t (sz + to_size_t (pageSize * 2))).

(** The diagnostic names given to a reservation when [__ANDROID__] is set. *)
Definition labels (base sz : Z) : list event :=
  if ANDROID
  then [EvPrctl PR_SET_VMA 0 base (sz + 2 * getpagesize) "SQLite Safe PCache Guard";
        EvPrctl PR_SET_VMA 0 (base + getpagesize) sz "SQLite Safe PCache"]
  else [].

Definition reserve_call (len ret : Z) : event :=
  EvMmap NULL len PROT_NONE (Z.lor MAP_PRIVATE MAP_ANONYMOUS) (-1) 0 ret.

Definition open_call (base sz ret : Z) : event :=
  EvMprotect (base + getpagesize) sz (Z.lor PROT_READ PROT_WRITE) ret.

(** The three ways a run of [mmap_impl] can go: the kernel refuses the
    reservation; it grants the reservation at [base] (machine [m1]) and
    refuses to open the inner range; it grants both. *)
Inductive reserve_run (sz : Z) (m : machine) (a : Z) (m' : machine) : Prop :=
| RunNoRoom :
    a = MAP_FAILED ->
    Kernel.mmap NULL (to_size_t (sz + 2 * getpagesize)) PROT_NONE
                (Z.lor MAP_PRIVATE MAP_ANONYMOUS) (-1) 0 m = Done MAP_FAILED m' ->
    trace m' = trace m ++ [reserve_call (to_size_t (sz + 2 * getpagesize)) MAP_FAILED] ->
    mem m' = mem m ->
    reserve_run sz m a m'
| RunNoAccess (base : Z) (m1 m2 : machine) :
    a = MAP_FAILED ->
    base <> MAP_FAILED ->
    Kernel.mmap NULL (to_size_t (sz + 2 * getpagesize)) PROT_NONE
                (Z.lor MAP_PRIVATE MAP_ANONYMOUS) (-1) 0 m = Done base m1 ->
    Kernel.mprotect (base + getpagesize) sz (Z.lor PROT_READ PROT_WRITE) m1 = Done (-1) m2 ->
    trace m' = trace m ++ [reserve_call (to_size_t (sz + 2 * getpagesize)) base;
                           open_call base sz (-1);
                           EvMunmap base (to_size_t (sz + 2 * getpagesize)) 0] ->
    (forall x, base <= x < base + Kernel.page_up (to_size_t (sz + 2 * getpagesize)) ->
               vm (mem m) x = None /\ vm (mem m1) x = Some PROT_NONE
               /\ vm (mem m') x = None) ->
    (forall x, vm (mem m') x = vm (mem m) x) ->
    reserve_run sz m a m'
| RunReserved (base : Z) (m1 m2 : machine) :
    a = base + getpagesize ->
    0 < base -> base mod getpagesize = 0 ->
    base + (Kernel.page_up sz + 2 * getpagesize) <= Kernel.TASK_SIZE ->
    Kernel.mmap NULL (to_size_t (sz + 2 * getpagesize)) PROT_NONE
                (Z.lor MAP_PRIVATE MAP_ANONYMOUS) (-1) 0 m = Done base m1 ->
    Kernel.mprotect (base + getpagesize) sz (Z.lor PROT_READ PROT_WRITE) m1 = Done 0 m2 ->
    (forall x, base <= x < base + (Kernel.page_up sz + 2 * getpagesize) ->
               vm (mem m) x = None) ->
    trace m' = trace m ++ reserve_call (sz + 2 * getpagesize) base
                          :: open_call base sz 0 :: labels base sz ->
    (forall x, vm (mem m') x =
               if in_range (base + getpagesize) (Kernel.page_up sz) x
               then Some (Z.lor PROT_READ PROT_WRITE)
               else if in_range base (Kernel.page_up sz + 2 * getpagesize) x
                    then Some PROT_NONE
                    else vm (mem m) x) ->
    reserve_run sz m a m'.

End Arena.


(** ** The allocator space *)

(** The interface of <malloc.h> (dlmalloc's mspaces) that the translation
    unit calls.  An mspace keeps its bookkeeping in memory and may map more
    of it, so each operation is a function of the address space and memory
    contents. *)
Class Mspace : Type := {
  create_mspace : Z -> Z -> world -> Z * world;
  destroy_mspace : Z -> world -> Z * world;
  mspace_malloc : Z -> Z -> world -> Z * world;
  mspace_calloc : Z -> Z -> Z -> world -> Z * world;
  mspace_free : Z -> Z -> world -> world
}.

(** [is_block w ptr n]: [ptr] is the non-null address of [n] bytes of user
    memory that can be read and written: what a successful allocation of
    [n] bytes hands out. *)
Definition is_block (w : world) (ptr n : Z) : bool :=
  if negb (ptr =? NULL) && (0 <? ptr) && (ptr + n <=? Kernel.TASK_SIZE)
  then readable w ptr n && writable w ptr n
  else false.

Section PCache.
Context {A : Mspace}.

Definition call_create_mspace (capacity locked : Z) : M Z :=
  fun m =>
    let (msp, w) := create_mspace capacity locked (mem m) in
    Done msp (emit (EvCreate capacity locked msp) (set_mem w m)).

Definition call_destroy_mspace (msp : Z) : M Z :=
  fun m =>
    let (freed, w) := destroy_mspace msp (mem m) in
    Done freed (emit (EvDestroy msp) (set_mem w m)).

Definition call_mspace_malloc (msp bytes : Z) : M Z :=
  fun m =>
    let (p, w) := mspace_malloc msp bytes (mem m) in
    Done p (emit (EvMalloc msp bytes p) (set_mem w m)).

Definition call_mspace_calloc (msp n_elements elem_size : Z) : M Z :=
  fun m =>
    let (p, w) := mspace_calloc msp n_elements elem_size (mem m) in
    Done p (emit (EvCalloc msp n_elements elem_size p) (set_mem w m)).

Definition call_mspace_free (msp p : Z) : M unit :=
  fun m =>
    Done tt (emit (EvFree msp p) (set_mem (mspace_free msp p (mem m)) m)).

(** Reading and writing [static mspace pcache_msp]. *)
Definition get_pcache_msp : M Z := fun m => Done (pcache_msp m) m.
Definition put_pcache_msp (p : Z) : M unit := fun m => Done tt (set_msp p m).

Definition pcache_meminit : M unit :=
  msp <- call_create_mspace 0 0 ;;
  put_pcache_msp msp.

Definition pcache_memdeinit : M unit :=
  msp <- get_pcache_msp ;;
  call_destroy_mspace msp ;;;
  ret tt.

Definition pcache_malloc (sz : Z) : M Z :=
  let padding := ROUND8 sizeof_size_t in
  msp <- get_pcache_msp ;;
  ptr <- call_mspace_malloc msp (to_size_t (sz + padding)) ;;
  store_size_t ptr (to_size_t (sz + padding)) ;;;
  ret (to_size_t (ptr + padding)).

Definition pcache_malloc_zero (sz : Z) : M Z :=
  let padding := ROUND8 sizeof_size_t in
  msp <- get_pcache_msp ;;
  ptr <- call_mspace_calloc msp (to_size_t (sz + padding)) 1 ;;
  store_size_t ptr (to_size_t (sz + padding)) ;;;
  ret (to_size_t (ptr + padding)).

Definition pcache_free (p : Z) : M unit :=
  if p =? NULL then ret tt else
  let padding := ROUND8 sizeof_size_t in
  msp <- get_pcache_msp ;;
  call_mspace_free msp (to_size_t (p - padding)).

Definition pcache_memsize (p : Z) : M Z :=
  if p =? NULL then ret 0 else
  let padding := ROUND8 sizeof_size_t in
  v <- load_size_t (to_size_t (p - padding)) ;;
  ret (to_int v).

End PCache.

(** The size of the allocation record in front of every block. *)
Definition header_size : Z := ROUND8 sizeof_size_t.

(** The specification's words for it: the size of the size field rounded up
    to a multiple of the word size. *)
Definition WORD_SIZE : Z := sizeof_size_t.

Definition round_up (x k : Z) : Z := (x + k - 1) / k * k.

(** The machine right after the underlying allocation answered [ptr] and
    left the memory [w]. *)
Definition allocated (e : event) (w : world) (m : machine) : machine :=
  emit e (set_mem w m).

(** The machine once the allocation record has been written as well. *)
Definition recorded (e : event) (w : world) (ptr n : Z) (m : machine) : machine :=
  emit (EvStore ptr n) (set_mem (poke w ptr n) (allocated e w m)).

(** Every byte of the range reads [0]. *)
Definition zeroed (w : world) (a len : Z) : bool :=
  all_range (fun x => ram w x =? 0) a len.

(** ** Reading an outcome *)

Definition value {T} (d : T) (o : outcome T) : T :=
  match o with Done a _ => a | Segv _ => d end.

Definition final {T} (o : outcome T) : machine :=
  match o with Done _ m => m | Segv m => m end.

Definition crashed {T} (o : outcome T) : bool :=
  match o with Done _ _ => false | Segv _ => true end.

Definition is_load (e : event) : bool :=
  match e with EvLoad _ _ => true | _ => false end.

Definition is_store_at (a : Z) (e : event) : bool :=
  match e with EvStore b _ => b =? a | _ => false end.

(** ** Concrete platforms, a concrete space and concrete machines *)

Module Sample.

(** A Linux/Android platform with 4 KiB pages, whose kernel puts a new
    mapping at 4 GiB when that range is free. *)
Definition linux : Platform :=
  {| getpagesize := 4096;
     getpagesize_range := conj eq_refl eq_refl;
     ANDROID := true;
     mmap_place := fun _ _ => 2 ^ 32;
     mprotect_refused := fun _ _ _ _ => false |}.

(** The same platform out of address space. *)
Definition no_room : Platform :=
  {| getpagesize := 4096;
     getpagesize_range := conj eq_refl eq_refl;
     ANDROID := true;
     mmap_place := fun _ _ => MAP_FAILED;
     mprotect_refused := fun _ _ _ _ => false |}.

(** The same platform refusing every protection change. *)
Definition no_access : Platform :=
  {| getpagesize := 4096;
     getpagesize_range := conj eq_refl eq_refl;
     ANDROID := true;
     mmap_place := fun _ _ => 2 ^ 32;
     mprotect_refused := fun _ _ _ _ => true |}.

(** dlmalloc's malloc.c, which implements the mspace interface, is not
    among the sources.  To run the entry points on concrete inputs they are
    given a space of fixed capacity that hands out consecutive blocks and
    answers [NULL] once the capacity is used up.  It keeps its two words of
    bookkeeping (the next free address, the end of the arena) in memory at
    the handle. *)
Definition ARENA : Z := 2 ^ 33.

(** Modelled from the spec: [create_mspace(capacity, locked)] constructs one
    allocator instance over its own backing memory; a capacity of [0]
    stands for the default granularity (64 KiB). *)
Definition bump_create (capacity locked : Z) (w : world) : Z * world :=
  let cap := if capacity =? 0 then 65536 else capacity in
  let w1 := mkWorld (fun x => if in_range ARENA (16 + cap) x
                              then Some (Z.lor PROT_READ PROT_WRITE)
                              else vm w x)
                    (ram w) in
  (ARENA, poke (poke w1 ARENA (ARENA + 16)) (ARENA + 8) (ARENA + 16 + cap)).

(** Modelled from the spec: [destroy_mspace] releases all memory the
    instance reserved. *)
Definition bump_destroy (msp : Z) (w : world) : Z * world :=
  let len := peek w (msp + 8) - msp in
  (len, mkWorld (fun x => if in_range msp len x then None else vm w x) (ram w)).

(** Modelled from the spec: [mspace_malloc] returns a block of the
    requested size, or the failure sentinel when the arena is exhausted. *)
Definition bump_malloc (msp bytes : Z) (w : world) : Z * world :=
  if msp =? NULL then (NULL, w) else
  let top := peek w msp in
  let lim := peek w (msp + 8) in
  if top + bytes <=? lim then (top, poke w msp (top + bytes)) else (NULL, w).

(** Modelled from the spec: [mspace_calloc] does the same and zero-fills
    the full block. *)
Definition bump_calloc (msp n_elements elem_size : Z) (w : world) : Z * world :=
  let req := n_elements * elem_size in
  if SIZE_MOD <=? req then (NULL, w) else
  let (p, w1) := bump_malloc msp req w in
  if p =? NULL then (NULL, w1)
  else (p, mkWorld (vm w1) (fun x => if in_range p req x then 0 else ram w1 x)).

(** Modelled from the spec: [mspace_free] gives a block back; this space
    does not reuse it. *)
Definition bump_free (msp p : Z) (w : world) : world := w.

Definition bump : Mspace :=
  {| create_mspace := bump_create;
     destroy_mspace := bump_destroy;
     mspace_malloc := bump_malloc;
     mspace_calloc := bump_calloc;
     mspace_free := bump_free |}.

(** A process before any mapping; its memory would read [0xAA]. *)
Definition boot : machine :=
  mkMachine (mkWorld (fun _ => None) (fun _ => 170)) NULL [].

(** The process once [pcache_msp] holds a space of the given capacity. *)
Definition started (capacity : Z) : machine :=
  let (msp, w) := bump_create capacity 0 (mem boot) in
  mkMachine w msp [].

(** The same with the page at address [0] mapped for reading and writing. *)
Definition started_low (capacity : Z) : machine :=
  let m := started capacity in
  set_mem (mkWorld (fun x => if in_range 0 4096 x
                             then Some (Z.lor PROT_READ PROT_WRITE)
                             else vm (mem m) x)
                   (ram (mem m))) m.

(** [n] allocations of [sz] bytes in a row, then one more. *)
Fixpoint after_allocs (n : nat) (sz : Z) (m : machine) : machine :=
  match n with
  | O => m
  | S k => after_allocs k sz (final (pcache_malloc (A := bump) sz m))
  end.

End Sample.

(** ** The allocator's configuration header

    The third part of the source file is the configuration that dlmalloc's
    malloc.c includes ([WCDB_SAFE_PCACHE_MALLOC_CFG_H]).  Its own
    [mmap_impl] and [munmap_impl] are [static inline] and go straight to the
    system calls: no guard pages. *)
Module Cfg.
Section Cfg.
Context {P : Platform}.

Definition mmap_impl (sz : Z) : M Z :=
  ret_ <- Kernel.mmap NULL sz (Z.lor PROT_READ PROT_WRITE)
            (Z.lor MAP_PRIVATE MAP_ANONYMOUS) (-1) 0 ;;
  (if ANDROID
   then if negb (ret_ =? MAP_FAILED)
        then Kernel.prctl PR_SET_VMA 0 ret_ sz "NativeCrash_malloc" ;;; ret tt
        else ret tt
   else ret tt) ;;;
  ret ret_.

Definition munmap_impl (addr sz : Z) : M Z :=
  Kernel.munmap addr sz.

(** The diagnostic name given to a mapping when [__ANDROID__] is set. *)
Definition label (addr sz : Z) : list event :=
  if ANDROID then [EvPrctl PR_SET_VMA 0 addr sz "NativeCrash_malloc"] else [].

End Cfg.
End Cfg.

(** ** The database handle

    The first part of the source file is [AbstractHandle], the C++ wrapper
    of one SQLite connection.  Embedded here: its classification and
    reporting of result codes, the list of ignorable codes, the list of
    statements it lends out, the (nested) transactions, and the two
    existence queries.  The build modelled is the release build: the file
    itself shows that [WCTInnerAssert] does not evaluate its argument there
    (the [rc] it names is declared under [#ifdef DEBUG] only).

    Not in the sources, and taken as parameters: the SQLite engine, the
    class [HandleStatement] and the statement builders.  What
    [HandleStatement] can change of a handle is the connection, the last
    error and the notifications ([reach]); the members that are private to
    [AbstractHandle] are out of its reach. *)
Module Handle.

(** <sqlite3.h> *)
Definition SQLITE_OK : Z := 0.
Definition SQLITE_ERROR : Z := 1.
Definition SQLITE_MISUSE : Z := 21.
Definition SQLITE_ROW : Z := 100.
Definition SQLITE_DONE : Z := 101.

(** [Error::Code] holds SQLite's primary result codes (the file casts
    [sqlite3_errcode] to it); [Error::Code::Error] is [SQLITE_ERROR]. *)
Definition Code_Error : Z := SQLITE_ERROR.

Inductive Level : Type := LevelIgnore | LevelError.

(** [Error]: the code and extended code given to [setSQLiteCode], the
    message ([None] for [nullptr]), the level, and the settings made in
    [infos], latest first. *)
Record error : Type := mkError {
  code : Z;
  extendedCode : Z;
  message : option string;
  level : Level;
  infos : list (string * option string)
}.

(** The statements this file builds, by the builder calls that make them. *)
Inductive statement : Type :=
| BeginImmediate
| Commit
| Rollback
| RollbackToSavepoint (name : string)
| Savepoint (name : string)
| Release (name : string)
| SelectFts3Tokenizer (tokenizer : string)
| SelectOneFromLimit0 (schema table : string)
| PragmaTableInfo (schema table : string).

(** What was asked of the engine, in order. *)
Inductive call : Type :=
| Executed (sql : string) (succeed : bool)
| Prepared (st : statement) (succeed : bool)
| Finalized (address : Z).

Record handle (connection stmt : Type) : Type := mkHandle {
  m_path : string;
  m_nestedLevel : Z;
  m_lazyNestedTransaction : bool;
  m_handleStatements : list (Z * stmt);
  m_ignorableCodes : list Z;
  m_error : error;
  db : connection;
  notified : list error;
  journal : list call
}.
Arguments mkHandle {connection stmt}.
Arguments m_path {connection stmt}.
Arguments m_nestedLevel {connection stmt}.
Arguments m_lazyNestedTransaction {connection stmt}.
Arguments m_handleStatements {connection stmt}.
Arguments m_ignorableCodes {connection stmt}.
Arguments m_error {connection stmt}.
Arguments db {connection stmt}.
Arguments notified {connection stmt}.
Arguments journal {connection stmt}.

Record reach (connection : Type) : Type := mkReach {
  r_db : connection;
  r_error : error;
  r_notified : list error
}.
Arguments mkReach {connection}.
Arguments r_db {connection}.
Arguments r_error {connection}.
Arguments r_notified {connection}.

Class Engine : Type := {
  connection : Type;
  stmt : Type;
  sqlite3_get_autocommit : connection -> Z;
  sqlite3_errcode : connection -> Z;
  sqlite3_extended_errcode : connection -> Z;
  sqlite3_errmsg : connection -> string;
  getDescription : statement -> string;
  HandleStatement_new : stmt;
  HandleStatement_prepare :
    string -> stmt -> handle connection stmt -> bool * stmt * reach connection;
  HandleStatement_prepareStatement :
    statement -> stmt -> handle connection stmt -> bool * stmt * reach connection;
  HandleStatement_step :
    stmt -> handle connection stmt -> bool * stmt * reach connection;
  HandleStatement_done : stmt -> bool;
  HandleStatement_getText : Z -> stmt -> string;
  HandleStatement_finalize :
    stmt -> handle connection stmt -> stmt * reach connection;
  HandleStatement_delete :
    stmt -> handle connection stmt -> reach connection;
  node_address : list Z -> Z
}.

Section Handle.
Context {E : Engine}.

Definition Handle : Type := handle connection stmt.

Definition H (A : Type) : Type := Handle -> A * Handle.

Definition hret {A} (a : A) : H A := fun h => (a, h).

Definition hbind {A B} (c : H A) (k : A -> H B) : H B :=
  fun h => let (a, h') := c h in k a h'.

Notation "x <~ c ;; k" := (hbind c (fun x => k))
  (at level 61, c at next level, right associativity).
Notation "c ~;; k" := (hbind c (fun _ => k))
  (at level 61, right associativity).

(** Field updates. *)
Definition set_level (n : Z) (h : Handle) : Handle :=
  mkHandle (m_path h) n (m_lazyNestedTransaction h) (m_handleStatements h)
           (m_ignorableCodes h) (m_error h) (db h) (notified h) (journal h).

Definition set_lazy (b : bool) (h : Handle) : Handle :=
  mkHandle (m_path h) (m_nestedLevel h) b (m_handleStatements h)
           (m_ignorableCodes h) (m_error h) (db h) (notified h) (journal h).

Definition set_statements (l : list (Z * stmt)) (h : Handle) : Handle :=
  mkHandle (m_path h) (m_nestedLevel h) (m_lazyNestedTransaction h) l
           (m_ignorableCodes h) (m_error h) (db h) (notified h) (journal h).

Definition set_ignorable (l : list Z) (h : Handle) : Handle :=
  mkHandle (m_path h) (m_nestedLevel h) (m_lazyNestedTransaction h)
           (m_handleStatements h) l (m_error h) (db h) (notified h) (journal h).

Definition set_error (e : error) (h : Handle) : Handle :=
  mkHandle (m_path h) (m_nestedLevel h) (m_lazyNestedTransaction h)
           (m_handleStatements h) (m_ignorableCodes h) e (db h) (notified h)
           (journal h).

Definition notify (e : error) (h : Handle) : Handle :=
  mkHandle (m_path h) (m_nestedLevel h) (m_lazyNestedTransaction h)
           (m_handleStatements h) (m_ignorableCodes h) (m_error h) (db h)
           (notified h ++ [e]) (journal h).

Definition note (c : call) (h : Handle) : Handle :=
  mkHandle (m_path h) (m_nestedLevel h) (m_lazyNestedTransaction h)
           (m_handleStatements h) (m_ignorableCodes h) (m_error h) (db h)
           (notified h) (journal h ++ [c]).

(** The handle after code out of this file has run. *)
Definition reached (r : reach connection) (h : Handle) : Handle :=
  mkHandle (m_path h) (m_nestedLevel h) (m_lazyNestedTransaction h)
           (m_handleStatements h) (m_ignorableCodes h) (r_error r) (r_db r)
           (r_notified r) (journal h).

(** *** Error *)

Definition isError (rc : Z) : bool :=
  negb (rc =? SQLITE_OK) && negb (rc =? SQLITE_ROW) && negb (rc =? SQLITE_DONE).

Definition getExtendedErrorCode (h : Handle) : Z := sqlite3_extended_errcode (db h).

Definition getResultCode (h : Handle) : Z := sqlite3_errcode (db h).

Definition getErrorMessage (h : Handle) : string := sqlite3_errmsg (db h).

Definition notifyError (rc : Z) (sql : option string) : H unit :=
  fun h =>
    let e := m_error h in
    let e :=
      if negb (rc =? SQLITE_MISUSE)
      then mkError rc (getExtendedErrorCode h) (Some (getErrorMessage h))
                   (level e) (infos e)
      else mkError rc rc None (level e) (infos e) in
    let e :=
      if existsb (Z.eqb rc) (m_ignorableCodes h)
      then mkError (code e) (extendedCode e) (message e) LevelIgnore (infos e)
      else mkError (code e) (extendedCode e) (message e) LevelError (infos e) in
    let e := mkError (code e) (extendedCode e) (message e) (level e)
                     (("SQL"%string, sql) :: infos e) in
    (tt, notify e (set_error e h)).

(** The three overloads of [exitAPI] differ in the type of [sql] only. *)
Definition exitAPI (rc : Z) (sql : option string) : H bool :=
  if negb (isError rc) then hret true
  else notifyError rc sql ~;; hret false.

Definition markErrorAsIgnorable (ignorableCode : Z) : H unit :=
  fun h => (tt, set_ignorable (m_ignorableCodes h ++ [ignorableCode]) h).

Definition markErrorAsUnignorable : H unit :=
  fun h => (tt, set_ignorable (removelast (m_ignorableCodes h)) h).

(** *** Statements *)

Definition addresses (h : Handle) : list Z := map fst (m_handleStatements h).

Definition getStatement : H Z :=
  fun h =>
    let p := node_address (addresses h) in
    (p, set_statements (m_handleStatements h ++ [(p, HandleStatement_new)]) h).

(** The loop of [returnStatement]: erase the first node at address [p]. *)
Fixpoint erase_node (p : Z) (l : list (Z * stmt)) : option stmt * list (Z * stmt) :=
  match l with
  | [] => (None, [])
  | (q, s) :: t =>
      if q =? p then (Some s, t)
      else let (found, t') := erase_node p t in (found, (q, s) :: t')
  end.

Definition returnStatement (handleStatement : Z) : H unit :=
  fun h =>
    if negb (handleStatement =? 0)
    then match erase_node handleStatement (m_handleStatements h) with
         | (Some s, l) =>
             let h := set_statements l h in
             (tt, reached (HandleStatement_delete s h) h)
         | (None, _) => (tt, h)
         end
    else (tt, h).

(** A method call through a pointer into the list. *)
Fixpoint update_node (p : Z) (s : stmt) (l : list (Z * stmt)) : list (Z * stmt) :=
  match l with
  | [] => []
  | (q, s0) :: t => if q =? p then (q, s) :: t else (q, s0) :: update_node p s t
  end.

Fixpoint find_node (p : Z) (l : list (Z * stmt)) : option stmt :=
  match l with
  | [] => None
  | (q, s) :: t => if q =? p then Some s else find_node p t
  end.

Definition prepareStatement_at (p : Z) (st : statement) : H bool :=
  fun h =>
    match find_node p (m_handleStatements h) with
    | Some s =>
        let '(ok, s', r) := HandleStatement_prepareStatement st s h in
        (ok, note (Prepared st ok)
               (reached r (set_statements (update_node p s' (m_handleStatements h)) h)))
    | None => (false, h)
    end.

Definition step_at (p : Z) : H bool :=
  fun h =>
    match find_node p (m_handleStatements h) with
    | Some s =>
        let '(ok, s', r) := HandleStatement_step s h in
        (ok, reached r (set_statements (update_node p s' (m_handleStatements h)) h))
    | None => (false, h)
    end.

Definition done_at (p : Z) (h : Handle) : bool :=
  match find_node p (m_handleStatements h) with
  | Some s => HandleStatement_done s
  | None => true
  end.

Definition getText_at (p index : Z) (h : Handle) : string :=
  match find_node p (m_handleStatements h) with
  | Some s => HandleStatement_getText index s
  | None => EmptyString
  end.

Definition finalize_at (p : Z) : H unit :=
  fun h =>
    match find_node p (m_handleStatements h) with
    | Some s =>
        let (s', r) := HandleStatement_finalize s h in
        (tt, note (Finalized p)
               (reached r (set_statements (update_node p s' (m_handleStatements h)) h)))
    | None => (tt, h)
    end.

(** The loop of [finalizeStatements]: [before] have been finalized, [after]
    are still to be. *)
Fixpoint finalize_all (before after : list (Z * stmt)) (h : Handle) : Handle :=
  match after with
  | [] => h
  | (p, s) :: t =>
      let (s', r) := HandleStatement_finalize s h in
      let h := note (Finalized p)
                 (reached r (set_statements (before ++ (p, s') :: t) h)) in
      finalize_all (before ++ [(p, s')]) t h
  end.

Definition finalizeStatements : H unit :=
  fun h => (tt, finalize_all [] (m_handleStatements h) h).

(** *** Basic *)

Definition executeSQL (sql : string) : H bool :=
  fun h =>
    let handleStatement := HandleStatement_new in
    let '(prepared, handleStatement, r) :=
      HandleStatement_prepare sql handleStatement h in
    let h := reached r h in
    let '(succeed, handleStatement, h) :=
      if prepared
      then let '(stepped, s, r) := HandleStatement_step handleStatement h in
           (stepped, s, reached r h)
      else (false, handleStatement, h) in
    let '(handleStatement, r) := HandleStatement_finalize handleStatement h in
    let h := reached r h in
    let h := reached (HandleStatement_delete handleStatement h) h in
    (succeed, note (Executed sql succeed) h).

Definition executeStatement (st : statement) : H bool :=
  executeSQL (getDescription st).

Definition isInTransaction : H bool :=
  fun h => (sqlite3_get_autocommit (db h) =? 0, h).

(** *** Transaction *)

(** [std::to_string] of an [int]. *)
Definition to_string (n : Z) : string := NilEmpty.string_of_int (Z.to_int n).

Definition getSavepointName (nestedLevel : Z) : string :=
  ("WCDBSavepoint_" ++ to_string nestedLevel)%string.

Definition enableLazyNestedTransaction (enable : bool) : H unit :=
  fun h => (tt, set_lazy enable h).

Definition beginTransaction : H bool :=
  executeSQL (getDescription BeginImmediate).

Definition rollbackTransaction : H unit :=
  fun h =>
    let h := set_level 0 h in
    (inTransaction <~ isInTransaction ;;
     if inTransaction
     then executeSQL (getDescription Rollback) ~;; hret tt
     else hret tt) h.

Definition commitOrRollbackTransaction : H bool :=
  committed <~ executeSQL (getDescription Commit) ;;
  if negb committed
  then rollbackTransaction ~;; hret false
  else fun h => (true, set_level 0 h).

Definition beginNestedTransaction : H bool :=
  inTransaction <~ isInTransaction ;;
  if inTransaction
  then fun h =>
         if negb (m_lazyNestedTransaction h)
         then let h := set_level (to_int (m_nestedLevel h + 1)) h in
              executeStatement (Savepoint (getSavepointName (m_nestedLevel h))) h
         else (true, h)
  else beginTransaction.

Definition commitOrRollbackNestedTransaction : H bool :=
  fun h =>
    if m_nestedLevel h =? 0
    then commitOrRollbackTransaction h
    else if negb (m_lazyNestedTransaction h)
         then let savepointName := getSavepointName (m_nestedLevel h) in
              (released <~ executeStatement (Release savepointName) ;;
               succeed <~ (if negb released
                           then executeStatement (RollbackToSavepoint savepointName)
                                ~;; hret false
                           else hret true) ;;
               fun h => (succeed, set_level (to_int (m_nestedLevel h - 1)) h)) h
         else (true, h).

Definition rollbackNestedTransaction : H unit :=
  fun h =>
    if m_nestedLevel h =? 0
    then rollbackTransaction h
    else if negb (m_lazyNestedTransaction h)
         then let savepointName := getSavepointName (m_nestedLevel h) in
              (executeStatement (RollbackToSavepoint savepointName) ~;;
               fun h => (tt, set_level (to_int (m_nestedLevel h - 1)) h)) h
         else (tt, h).

(** *** Meta *)

Definition ft3TokenizerExists (tokenizer : string) : H (bool * bool) :=
  markErrorAsIgnorable Code_Error ~;;
  succeed <~ executeStatement (SelectFts3Tokenizer tokenizer) ;;
  markErrorAsUnignorable ~;;
  if succeed then hret (true, true)
  else fun h => if getResultCode h =? Code_Error
                then ((true, false), h)
                else ((false, false), h).

Definition tableExists (schema table : string) : H (bool * bool) :=
  handleStatement <~ getStatement ;;
  let statementSelect := SelectOneFromLimit0 schema table in
  markErrorAsIgnorable Code_Error ~;;
  prepared <~ prepareStatement_at handleStatement statementSelect ;;
  result <~ (if prepared
             then finalizeStatements ~;; hret (true, true)
             else fun h => if getResultCode h =? Code_Error
                           then ((true, false), h)
                           else ((false, false), h)) ;;
  markErrorAsUnignorable ~;;
  returnStatement handleStatement ~;;
  hret result.

(** [std::set<String>::emplace]; the order of a set is left out. *)
Definition set_emplace (v : string) (values : list string) : list string :=
  if existsb (String.eqb v) values then values else values ++ [v].

(** The loop of [getValues],
    [while ((succeed = step()) && !done()) values.emplace(getText(index))];
    [None] when [fuel] rounds were not enough to leave it. *)
Fixpoint getValues_loop (fuel : nat) (p index : Z) (values : list string)
    (h : Handle) : option (bool * list string * Handle) :=
  match fuel with
  | O => None
  | S k =>
      let (succeed, h) := step_at p h in
      if succeed && negb (done_at p h)
      then getValues_loop k p index (set_emplace (getText_at p index h) values) h
      else Some (succeed, values, h)
  end.

Definition getValues (fuel : nat) (st : statement) (index : Z) (h : Handle)
  : option (bool * list string * Handle) :=
  let (handleStatement, h) := getStatement h in
  let (prepared, h) := prepareStatement_at handleStatement st h in
  let looped :=
    if prepared
    then match getValues_loop fuel handleStatement index [] h with
         | Some (succeed, values, h) =>
             Some (succeed, values, snd (finalize_at handleStatement h))
         | None => None
         end
    else Some (false, [], h) in
  match looped with
  | Some (succeed, values, h) =>
      let h := snd (returnStatement handleStatement h) in
      Some (succeed, if negb succeed then [] else values, h)
  | None => None
  end.

Definition getColumns (fuel : nat) (schema table : string) (h : Handle)
  : option (bool * list string * Handle) :=
  getValues fuel (PragmaTableInfo schema table) 1 h.

(** *** What an operation leaves alone *)

(** The members that only this file's code can change, the nesting level
    apart. *)
Definition same_private (h h' : Handle) : Prop :=
  m_path h' = m_path h
  /\ m_lazyNestedTransaction h' = m_lazyNestedTransaction h
  /\ m_handleStatements h' = m_handleStatements h
  /\ m_ignorableCodes h' = m_ignorableCodes h.

(** The SQL text of each statement executed, in order. *)
Definition executed (h : Handle) : list (string * bool) :=
  flat_map (fun c => match c with
                     | Executed sql b => [(sql, b)]
                     | _ => []
                     end) (journal h).

End Handle.
End Handle.

(** ** A concrete engine, to run the handle on *)

Module Toy.
Import Handle.

(** The connection: SQLite's autocommit flag and its last result code. *)
Record connection : Type := mkConnection {
  autocommit : Z;
  errcode : Z
}.

(** A statement: its text once prepared, the rows it has still to yield and
    the row it stands on. *)
Record cursor : Type := mkCursor {
  text : option string;
  pending : list string;
  row : option string
}.

Definition idle : cursor := mkCursor None [] None.

(** Modelled from the spec: the statement builders are not among the
    sources; these are the texts SQLite would be given. *)
Definition describe (st : statement) : string :=
  match st with
  | BeginImmediate => "BEGIN IMMEDIATE"
  | Commit => "COMMIT"
  | Rollback => "ROLLBACK"
  | RollbackToSavepoint name => "ROLLBACK TO " ++ name
  | Savepoint name => "SAVEPOINT " ++ name
  | Release name => "RELEASE " ++ name
  | SelectFts3Tokenizer tokenizer => "SELECT fts3_tokenizer(" ++ tokenizer ++ ")"
  | SelectOneFromLimit0 schema table =>
      "SELECT 1 FROM " ++ schema ++ "." ++ table ++ " LIMIT 0"
  | PragmaTableInfo schema table =>
      "PRAGMA " ++ schema ++ ".table_info(" ++ table ++ ")"
  end%string.

(** Modelled from the spec: the database behind the engine has one table,
    [main.t], whose [table_info] names the column [id] twice. *)
Definition rows_of (sql : string) : list string :=
  if String.eqb sql "PRAGMA main.table_info(t)"
  then ["id"; "name"; "id"]%string
  else if String.eqb sql "PRAGMA main.table_info(broken)"
  then ["id"; "?"]%string
  else [].

Definition holding (sql : string) : cursor :=
  mkCursor (Some sql) (rows_of sql) None.

Definition unchanged (h : handle connection cursor) : reach connection :=
  mkReach (db h) (m_error h) (notified h).

Definition with_connection (c : connection) (h : handle connection cursor)
  : reach connection :=
  mkReach c (m_error h) (notified h).

(** Modelled from the spec: [HandleStatement] is not among the sources.
    This one prepares every text, and every statement but the probe of the
    table [missing], for which the connection reports [SQLITE_ERROR]. *)
Definition prepare (sql : string) (s : cursor) (h : handle connection cursor)
  : bool * cursor * reach connection :=
  (true, holding sql, unchanged h).

Definition prepareStatement (st : statement) (s : cursor)
    (h : handle connection cursor)
  : bool * cursor * reach connection :=
  match st with
  | SelectOneFromLimit0 _ table =>
      if String.eqb table "missing"
      then (false, idle,
            with_connection (mkConnection (autocommit (db h)) SQLITE_ERROR) h)
      else (true, holding (describe st), unchanged h)
  | _ => (true, holding (describe st), unchanged h)
  end.

(** Modelled from the spec: a step moves to the next row.  Stepping
    [BEGIN IMMEDIATE] opens a transaction, stepping [COMMIT] or [ROLLBACK]
    ends it; a [RELEASE] of the savepoint [WCDBSavepoint_9] fails, and so
    does reading the row [?]. *)
Definition advance (s : cursor) : cursor :=
  match pending s with
  | r :: rest => mkCursor (text s) rest (Some r)
  | [] => mkCursor (text s) [] None
  end.

Definition step (s : cursor) (h : handle connection cursor)
  : bool * cursor * reach connection :=
  match text s with
  | Some sql =>
      if String.eqb sql "BEGIN IMMEDIATE"
      then (true, advance s, with_connection (mkConnection 0 SQLITE_DONE) h)
      else if String.eqb sql "COMMIT" || String.eqb sql "ROLLBACK"
      then (true, advance s, with_connection (mkConnection 1 SQLITE_DONE) h)
      else if String.eqb sql "RELEASE WCDBSavepoint_9"
      then (false, s, with_connection (mkConnection (autocommit (db h)) SQLITE_ERROR) h)
      else match pending s with
           | r :: _ =>
               if String.eqb r "?"
               then (false, s,
                     with_connection (mkConnection (autocommit (db h)) SQLITE_ERROR) h)
               else (true, advance s, unchanged h)
           | [] => (true, advance s, unchanged h)
           end
  | None => (false, s, with_connection (mkConnection (autocommit (db h)) SQLITE_MISUSE) h)
  end.

Definition done (s : cursor) : bool :=
  match row s with Some _ => false | None => true end.

Definition getText (index : Z) (s : cursor) : string :=
  match row s with Some r => r | None => EmptyString end.

Definition finalize (s : cursor) (h : handle connection cursor)
  : cursor * reach connection :=
  (idle, unchanged h).

Definition delete (s : cursor) (h : handle connection cursor)
  : reach connection :=
  unchanged h.

(** Modelled from the spec: the address of a new list node is one no live
    node has. *)
Definition fresh_address (live : list Z) : Z :=
  1 + fold_right Z.max 0 live.

Definition engine : Engine :=
  {| Handle.connection := connection;
     stmt := cursor;
     sqlite3_get_autocommit := autocommit;
     sqlite3_errcode := errcode;
     sqlite3_extended_errcode := errcode;
     sqlite3_errmsg := fun c => if errcode c =? SQLITE_OK
                                then "not an error"%string
                                else "SQL logic error"%string;
     getDescription := describe;
     HandleStatement_new := idle;
     HandleStatement_prepare := prepare;
     HandleStatement_prepareStatement := prepareStatement;
     HandleStatement_step := step;
     HandleStatement_done := done;
     HandleStatement_getText := getText;
     HandleStatement_finalize := finalize;
     HandleStatement_delete := delete;
     node_address := fresh_address |}.

(** The rows a statement of this engine has still to yield. *)
Definition rows_left (s : cursor) : nat := List.length (pending s).

Definition no_error : error := mkError SQLITE_OK SQLITE_OK None LevelError [].

(** A handle at nesting level [n], in a transaction or not, with the given
    statements lent out. *)
Definition opened (n : Z) (inTransaction lazy : bool) (lent : list (Z * cursor))
  : handle connection cursor :=
  mkHandle "/data/db" n lazy lent []
           no_error
           (mkConnection (if inTransaction then 0 else 1) SQLITE_OK) [] [].

End Toy.
(** * Verification *)

(** ** The definitions on small inputs *)

Example ROUND8_of_size_t : ROUND8 sizeof_size_t = 8.
Proof. reflexivity. Qed.

Example ROUND8_of_9 : ROUND8 9 = 16.
Proof. reflexivity. Qed.

Example size_t_wraps : to_size_t (SIZE_MAX + 8) = 7.
Proof. reflexivity. Qed.

Example to_int_of_small : to_int 1032 = 1032.
Proof. reflexivity. Qed.

Example to_int_of_big : to_int (2 ^ 31 + 8) = - 2 ^ 31 + 8.
Proof. reflexivity. Qed.

Example encode_1032 : encode 8 1032 = [8; 4; 0; 0; 0; 0; 0; 0].
Proof. reflexivity. Qed.

Example decode_1032 : decode [8; 4; 0; 0; 0; 0; 0; 0] = 1032.
Proof. reflexivity. Qed.

Example reserve_on_linux :
  let o := mmap_impl (P := Sample.linux) 4096 Sample.boot in
  value MAP_FAILED o = 2 ^ 32 + 4096
  /\ trace (final o) =
       [EvMmap 0 12288 0 34 (-1) 0 (2 ^ 32);
        EvMprotect (2 ^ 32 + 4096) 4096 3 0;
        EvPrctl PR_SET_VMA 0 (2 ^ 32) 12288 "SQLite Safe PCache Guard";
        EvPrctl PR_SET_VMA 0 (2 ^ 32 + 4096) 4096 "SQLite Safe PCache"].
Proof. split; vm_compute; reflexivity. Qed.

Example reserve_without_room :
  let o := mmap_impl (P := Sample.no_room) 4096 Sample.boot in
  value 0 o = MAP_FAILED
  /\ trace (final o) = [EvMmap 0 12288 0 34 (-1) 0 MAP_FAILED].
Proof. split; vm_compute; reflexivity. Qed.

Example reserve_without_access :
  let o := mmap_impl (P := Sample.no_access) 4096 Sample.boot in
  value 0 o = MAP_FAILED
  /\ trace (final o) =
       [EvMmap 0 12288 0 34 (-1) 0 (2 ^ 32);
        EvMprotect (2 ^ 32 + 4096) 4096 3 (-1);
        EvMunmap (2 ^ 32) 12288 0].
Proof. split; vm_compute; reflexivity. Qed.

(** A store one byte past the usable range of a reservation is fatal; a
    store at its last word is not. *)
Example guard_page_faults :
  let o := mmap_impl (P := Sample.linux) 4096 Sample.boot in
  let a := value MAP_FAILED o in
  crashed (store_size_t (a + 4096 - 8) 1 (final o)) = false
  /\ crashed (store_size_t (a + 4096 - 7) 1 (final o)) = true
  /\ crashed (store_size_t (a - 1) 1 (final o)) = true.
Proof. cbv zeta. split; [|split]; vm_compute; reflexivity. Qed.

(** ** Arithmetic and ranges *)

Lemma SIZE_MOD_eq : SIZE_MOD = 18446744073709551616.
Proof. reflexivity. Qed.

Lemma TASK_SIZE_eq : Kernel.TASK_SIZE = 140737488355328.
Proof. reflexivity. Qed.

Lemma MAP_FAILED_eq : MAP_FAILED = 18446744073709551615.
Proof. reflexivity. Qed.

Lemma to_size_t_id (z : Z) : 0 <= z < SIZE_MOD -> to_size_t z = z.
Proof. intros H. unfold to_size_t. now apply Z.mod_small. Qed.

Lemma to_size_t_range (z : Z) : 0 <= to_size_t z < SIZE_MOD.
Proof. unfold to_size_t. apply Z.mod_pos_bound. reflexivity. Qed.

Lemma all_from_spec (f : Z -> bool) (n : nat) :
  forall a, all_from f a n = true <->
            (forall x, a <= x < a + Z.of_nat n -> f x = true).
Proof.
  induction n as [|n IH]; intros a.
  - simpl. split; [intros _ x Hx; lia | reflexivity].
  - cbn [all_from]. rewrite andb_true_iff, IH. split.
    + intros [Ha Hrest] x Hx.
      destruct (Z.eq_dec x a) as [->|Hne]; [exact Ha|].
      apply Hrest. lia.
    + intros H. split.
      * apply H. lia.
      * intros x Hx. apply H. lia.
Qed.

Lemma all_range_spec (f : Z -> bool) (a len : Z) :
  0 <= len ->
  (all_range f a len = true <-> (forall x, a <= x < a + len -> f x = true)).
Proof.
  intros Hlen. unfold all_range. rewrite all_from_spec.
  rewrite Z2Nat.id by exact Hlen. reflexivity.
Qed.

Lemma in_range_true (a len x : Z) : in_range a len x = true <-> a <= x < a + len.
Proof. unfold in_range. rewrite andb_true_iff, Z.leb_le, Z.ltb_lt. reflexivity. Qed.

Lemma in_range_false (a len x : Z) :
  in_range a len x = false <-> ~ (a <= x < a + len).
Proof. rewrite <- in_range_true. destruct (in_range a len x); intuition congruence. Qed.

Lemma is_free_spec (w : world) (x : Z) : is_free w x = true <-> vm w x = None.
Proof.
  unfold is_free, is_mapped. destruct (vm w x); simpl; split; congruence.
Qed.

Ltac state_simpl :=
  cbn [trace mem pcache_msp vm ram emit set_mem set_msp
       Kernel.protect_range Kernel.map_range Kernel.unmap_range].

(** ** The kernel calls, case by case *)

Section KernelFacts.
Context {P : Platform}.

Lemma pageSize_id : to_size_t getpagesize = getpagesize.
Proof.
  apply to_size_t_id. pose proof getpagesize_range. rewrite SIZE_MOD_eq. lia.
Qed.

Lemma two_pages_id : to_size_t (getpagesize * 2) = 2 * getpagesize.
Proof.
  rewrite to_size_t_id; [lia|].
  pose proof getpagesize_range. rewrite SIZE_MOD_eq. lia.
Qed.

Lemma page_up_bounds (len : Z) :
  len <= Kernel.page_up len < len + getpagesize.
Proof.
  pose proof getpagesize_range as HP. unfold Kernel.page_up.
  assert (Hnz : getpagesize <> 0) by lia.
  assert (Hpos : 0 < getpagesize) by lia.
  pose proof (Z.div_mod (len + getpagesize - 1) getpagesize Hnz) as Hd.
  pose proof (Z.mod_pos_bound (len + getpagesize - 1) getpagesize Hpos) as Hm.
  rewrite (Z.mul_comm _ getpagesize). lia.
Qed.

Lemma page_up_aligned (len : Z) : Kernel.page_up len mod getpagesize = 0.
Proof.
  pose proof getpagesize_range as HP. unfold Kernel.page_up. apply Z.mod_mul. lia.
Qed.

Lemma page_up_pages (len k : Z) :
  Kernel.page_up (len + k * getpagesize) = Kernel.page_up len + k * getpagesize.
Proof.
  pose proof getpagesize_range as HP. unfold Kernel.page_up.
  replace (len + k * getpagesize + getpagesize - 1)
    with (len + getpagesize - 1 + k * getpagesize) by lia.
  rewrite Z.div_add by lia. lia.
Qed.

Lemma page_up_exact (len : Z) :
  len mod getpagesize = 0 -> Kernel.page_up len = len.
Proof.
  intros Hm. pose proof getpagesize_range as HP.
  assert (Hnz : getpagesize <> 0) by lia.
  pose proof (Z.div_mod len getpagesize Hnz) as Hd. rewrite Hm in Hd.
  replace len with (0 + len / getpagesize * getpagesize) at 1 by lia.
  rewrite page_up_pages. unfold Kernel.page_up.
  replace (0 + getpagesize - 1) with (getpagesize - 1) by lia.
  rewrite Z.div_small by lia. lia.
Qed.

Lemma page_up_mono (len len' : Z) :
  len <= len' -> Kernel.page_up len <= Kernel.page_up len'.
Proof.
  intros Hle. pose proof getpagesize_range as HP. unfold Kernel.page_up.
  apply Z.mul_le_mono_nonneg_r; [lia|]. apply Z.div_le_mono; lia.
Qed.

Lemma page_up_two (len : Z) :
  Kernel.page_up (len + 2 * getpagesize) = Kernel.page_up len + 2 * getpagesize.
Proof. apply page_up_pages. Qed.

Lemma page_aligned_spec (a : Z) :
  Kernel.page_aligned a = true <-> a mod getpagesize = 0.
Proof. unfold Kernel.page_aligned. apply Z.eqb_eq. Qed.

Lemma next_page_aligned (a : Z) :
  a mod getpagesize = 0 -> (a + getpagesize) mod getpagesize = 0.
Proof.
  intros Ha. pose proof getpagesize_range as HP.
  replace (a + getpagesize) with (a + 1 * getpagesize) by lia.
  rewrite Z.mod_add by lia. exact Ha.
Qed.

Lemma mmap_cases (addr len prot flags fd off : Z) (m : machine) :
  (exists base,
      Kernel.mmap addr len prot flags fd off m =
        Done base (emit (EvMmap addr len prot flags fd off base)
                        (set_mem (Kernel.map_range (mem m) base len prot) m))
      /\ 0 < len /\ 0 < base /\ base mod getpagesize = 0
      /\ base + Kernel.page_up len <= Kernel.TASK_SIZE
      /\ (forall x, base <= x < base + Kernel.page_up len -> vm (mem m) x = None))
  \/ Kernel.mmap addr len prot flags fd off m =
       Done MAP_FAILED (emit (EvMmap addr len prot flags fd off MAP_FAILED) m).
Proof.
  unfold Kernel.mmap, Kernel.mmap_grants.
  set (base := mmap_place (mem m) len).
  destruct ((0 <? len) && (0 <? base) && Kernel.page_aligned base
            && (base + Kernel.page_up len <=? Kernel.TASK_SIZE)) eqn:E;
    [|right; reflexivity].
  destruct (all_range (is_free (mem m)) base (Kernel.page_up len)) eqn:Hfree;
    [left|right; reflexivity].
  rewrite !andb_true_iff, !Z.ltb_lt, Z.leb_le, page_aligned_spec in E.
  destruct E as [[[Hlen Hbase] Hal] Htop].
  exists base. repeat split; try assumption.
  intros x Hx. apply is_free_spec.
  rewrite all_range_spec in Hfree by (pose proof (page_up_bounds len); lia).
  now apply Hfree.
Qed.

Lemma mprotect_cases (addr len prot : Z) (m : machine) :
  (Kernel.mprotect addr len prot m =
     Done 0 (emit (EvMprotect addr len prot 0)
                  (set_mem (Kernel.protect_range (mem m) addr len prot) m))
   /\ addr mod getpagesize = 0
   /\ (len = 0 \/ addr + Kernel.page_up len <= Kernel.TASK_SIZE))
  \/ Kernel.mprotect addr len prot m =
       Done (-1) (emit (EvMprotect addr len prot (-1)) m).
Proof.
  unfold Kernel.mprotect, Kernel.mprotect_grants.
  destruct (Kernel.page_aligned addr) eqn:Ea; [|right; reflexivity].
  apply page_aligned_spec in Ea.
  destruct (len =? 0) eqn:E0.
  - left. split; [reflexivity|]. split; [exact Ea|]. left. now apply Z.eqb_eq.
  - destruct (addr + Kernel.page_up len <=? Kernel.TASK_SIZE) eqn:E1;
      [|right; reflexivity].
    destruct (all_range (is_mapped (mem m)) addr (Kernel.page_up len));
      [|right; reflexivity].
    destruct (mprotect_refused (mem m) addr len prot); [right; reflexivity|].
    left. split; [reflexivity|]. split; [exact Ea|]. right. now apply Z.leb_le.
Qed.

Lemma munmap_cases (addr len : Z) (m : machine) :
  addr mod getpagesize = 0 -> 0 < len -> addr + len <= Kernel.TASK_SIZE ->
  Kernel.munmap addr len m =
    Done 0 (emit (EvMunmap addr len 0)
                 (set_mem (Kernel.unmap_range (mem m) addr len) m)).
Proof.
  intros Ha Hlen Htop. unfold Kernel.munmap.
  replace (Kernel.page_aligned addr) with true
    by (symmetry; now apply page_aligned_spec).
  replace (0 <? len) with true by (symmetry; now apply Z.ltb_lt).
  replace (addr + len <=? Kernel.TASK_SIZE) with true
    by (symmetry; now apply Z.leb_le).
  reflexivity.
Qed.

End KernelFacts.

(** ** The guarded arena *)

Section ArenaFacts.
Context {P : Platform}.

Lemma mmap_impl_run (sz : Z) (m : machine) :
  0 <= sz < SIZE_MOD ->
  exists a m', mmap_impl sz m = Done a m' /\ reserve_run sz m a m'.
Proof.
  intros Hsz. pose proof getpagesize_range as HP.
  unfold mmap_impl, mmap_impl_failure. rewrite pageSize_id, two_pages_id.
  set (L := to_size_t (sz + 2 * getpagesize)).
  unfold bind at 1.
  destruct (mmap_cases NULL L PROT_NONE (Z.lor MAP_PRIVATE MAP_ANONYMOUS) (-1) 0 m)
    as [(base & Emap & HL & Hb & Hal & Htop & Hfree) | Emap]; rewrite Emap.
  - (* the kernel gave a range *)
    pose proof (page_up_bounds L) as HLup.
    assert (Hbm : base <> MAP_FAILED).
    { rewrite MAP_FAILED_eq. rewrite TASK_SIZE_eq in Htop. lia. }
    replace (base =? MAP_FAILED) with false by (symmetry; now apply Z.eqb_neq).
    assert (Hbp : to_size_t (base + getpagesize) = base + getpagesize).
    { apply to_size_t_id. rewrite SIZE_MOD_eq. rewrite TASK_SIZE_eq in Htop. lia. }
    rewrite Hbp. cbn [negb]. unfold bind at 1.
    match goal with |- context [Kernel.mprotect ?a ?l ?p ?s] =>
      destruct (mprotect_cases a l p s) as [(Eprot & _ & Hin) | Eprot] end;
      rewrite Eprot.
    + (* the inner range was opened *)
      cbn [Z.eqb negb].
      pose proof (page_up_bounds sz) as Hszup.
      assert (HLid : L = sz + 2 * getpagesize).
      { unfold L. apply to_size_t_id. rewrite SIZE_MOD_eq.
        rewrite TASK_SIZE_eq in Hin. lia. }
      rewrite HLid in Htop, Hfree |- *. rewrite page_up_two in Htop, Hfree.
      destruct ANDROID eqn:EA; unfold bind, ret, Kernel.prctl;
        (eexists _, _; split; [reflexivity|]);
        (eapply (RunReserved _ _ _ _ base);
         [reflexivity | exact Hb | exact Hal | lia | exact Emap | exact Eprot
         | exact Hfree | | ]);
        [ | intros x | | intros x ];
        unfold labels, reserve_call, open_call; rewrite ?EA; state_simpl;
        rewrite <- ?app_assoc, ?page_up_two; reflexivity.
    + (* the protection change failed: unwind *)
      cbn [Z.eqb negb]. replace (base =? MAP_FAILED) with false
        by (symmetry; now apply Z.eqb_neq).
      cbn [negb]. unfold bind, ret.
      assert (Htop' : base + L <= Kernel.TASK_SIZE) by lia.
      rewrite (munmap_cases base L _ Hal HL Htop').
      eexists _, _. split; [reflexivity|].
      eapply (RunNoAccess _ _ _ _ base);
        [reflexivity | exact Hbm | exact Emap | exact Eprot | | | ].
      * unfold reserve_call, open_call. state_simpl.
        rewrite <- !app_assoc. reflexivity.
      * intros x Hx. state_simpl.
        replace (in_range base (Kernel.page_up L) x) with true
          by (symmetry; now apply in_range_true).
        split; [now apply Hfree|]. split; reflexivity.
      * intros x. state_simpl.
        destruct (in_range base (Kernel.page_up L) x) eqn:E; [|reflexivity].
        symmetry. apply Hfree. now apply in_range_true.
  - (* the kernel had no room *)
    rewrite Z.eqb_refl. cbn [negb]. unfold bind, ret.
    eexists _, _. split; [reflexivity|].
    apply RunNoRoom; try reflexivity. exact Emap.
Qed.

End ArenaFacts.

Section ArenaClaims.
Context {P : Platform}.

(** C3 (as amended).  A successful [mmap_impl sz] asks the kernel for
    [sz + 2*pagesize] bytes of anonymous address space without access
    rights, then asks it to open the [sz] bytes that start one page above
    the mapping base for reading and writing, and returns the address of
    that inner range.  The arena passes [sz] on as it is; the kernel works
    on whole pages.  So inside the reservation a byte can be read or written
    exactly when it lies at or above [a] and below the first page boundary
    at or above [a + sz]: the usable range is [sz] rounded up to whole
    pages, and is the requested size when that is a multiple of the page
    size.
    The page below the usable range and the page above it stay closed, and
    nothing outside the reservation changes. *)
Theorem mmap_impl_reserves (sz : Z) (m : machine) (a : Z) (m' : machine) :
  0 <= sz < SIZE_MOD ->
  mmap_impl sz m = Done a m' ->
  a <> MAP_FAILED ->
  let usable := Kernel.page_up sz in
  exists base,
    a = base + getpagesize
    /\ trace m' =
         trace m ++
         EvMmap NULL (sz + 2 * getpagesize) PROT_NONE
                (Z.lor MAP_PRIVATE MAP_ANONYMOUS) (-1) 0 base
         :: EvMprotect (base + getpagesize) sz (Z.lor PROT_READ PROT_WRITE) 0
         :: labels base sz
    /\ (sz <= usable < sz + getpagesize
        /\ usable mod getpagesize = 0
        /\ (sz mod getpagesize = 0 -> usable = sz))
    /\ (forall x, base <= x < base + (usable + 2 * getpagesize) ->
                  vm (mem m) x = None)
    /\ (forall x, a <= x < a + usable ->
                  vm (mem m') x = Some (Z.lor PROT_READ PROT_WRITE))
    /\ (forall x, base <= x < a \/ a + usable <= x < a + usable + getpagesize ->
                  vm (mem m') x = Some PROT_NONE)
    /\ (forall x, ~ (base <= x < base + (usable + 2 * getpagesize)) ->
                  vm (mem m') x = vm (mem m) x)
    /\ (forall x, base <= x < base + (usable + 2 * getpagesize) ->
                  may_access 0 (mem m') x = in_range a usable x
                  /\ may_access 1 (mem m') x = in_range a usable x).
Proof.
  intros Hsz Hrun Hok usable. pose proof getpagesize_range as HP.
  destruct (mmap_impl_run sz m Hsz) as (a0 & m0 & Hrun0 & Hcase).
  rewrite Hrun in Hrun0. injection Hrun0 as <- <-.
  destruct Hcase as [Hf _ _ _ | base m1 m2 Hf _ _ _ _ _ _
                    | base m1 m2 Ha Hb Hal Htop _ _ Hfree Htr Hvm];
    try contradiction.
  fold usable in Htop, Hfree, Hvm.
  pose proof (page_up_bounds sz) as Hup. fold usable in Hup.
  exists base. subst a.
  split; [reflexivity|]. split; [exact Htr|]. split.
  { split; [exact Hup|]. split; [apply page_up_aligned | apply page_up_exact]. }
  split; [exact Hfree|].
  assert (Hin : forall x, base + getpagesize <= x < base + getpagesize + usable ->
                          vm (mem m') x = Some (Z.lor PROT_READ PROT_WRITE)).
  { intros x Hx. rewrite Hvm.
    replace (in_range (base + getpagesize) usable x) with true
      by (symmetry; now apply in_range_true).
    reflexivity. }
  assert (Hguard : forall x,
             base <= x < base + (usable + 2 * getpagesize) ->
             ~ (base + getpagesize <= x < base + getpagesize + usable) ->
             vm (mem m') x = Some PROT_NONE).
  { intros x Hx Hnot. rewrite Hvm.
    replace (in_range (base + getpagesize) usable x) with false
      by (symmetry; now apply in_range_false).
    replace (in_range base (usable + 2 * getpagesize) x) with true
      by (symmetry; now apply in_range_true).
    reflexivity. }
  split; [exact Hin|]. split; [intros x Hx; apply Hguard; lia|]. split.
  - intros x Hx. rewrite Hvm.
    replace (in_range (base + getpagesize) usable x) with false
      by (symmetry; apply in_range_false; lia).
    replace (in_range base (usable + 2 * getpagesize) x) with false
      by (symmetry; now apply in_range_false).
    reflexivity.
  - intros x Hx. unfold may_access.
    assert (Hx0 : (0 <=? x) && (x <? SIZE_MOD) = true).
    { rewrite andb_true_iff, Z.leb_le, Z.ltb_lt.
      rewrite SIZE_MOD_eq. rewrite TASK_SIZE_eq in Htop. lia. }
    rewrite Hx0. cbn [andb].
    destruct (in_range (base + getpagesize) usable x) eqn:E.
    + apply in_range_true in E. rewrite (Hin x E). split; reflexivity.
    + apply in_range_false in E. rewrite (Hguard x Hx E). split; reflexivity.
Qed.

(** C4.  [mmap_impl] is atomic on failure.  It always returns.  When the
    kernel refuses the reservation, [mmap_impl] returns [MAP_FAILED] at
    once: the refused [mmap] is the only call made and no byte has been
    mapped.  When the kernel grants the reservation at [base] and then
    refuses to open the inner range, [mmap_impl] makes one [munmap] of the
    base and length it had mapped, which unmaps every page of the
    reservation, both guard pages included, and only then returns
    [MAP_FAILED].  In both cases, and so whenever [MAP_FAILED] is returned,
    the address space is what it was before the call. *)
Theorem mmap_impl_fails_clean (sz : Z) (m : machine) :
  0 <= sz < SIZE_MOD ->
  let len := to_size_t (sz + 2 * getpagesize) in
  let flags := Z.lor MAP_PRIVATE MAP_ANONYMOUS in
  let rw := Z.lor PROT_READ PROT_WRITE in
  exists base m1 a m',
    Kernel.mmap NULL len PROT_NONE flags (-1) 0 m = Done base m1
    /\ mmap_impl sz m = Done a m'
    /\ (base = MAP_FAILED ->
        a = MAP_FAILED /\ m' = m1
        /\ trace m' = trace m ++ [EvMmap NULL len PROT_NONE flags (-1) 0 MAP_FAILED]
        /\ mem m' = mem m)
    /\ (base <> MAP_FAILED ->
        exists r m2,
          Kernel.mprotect (base + getpagesize) sz rw m1 = Done r m2
          /\ (r <> 0 ->
              a = MAP_FAILED
              /\ trace m' =
                   trace m ++
                   [EvMmap NULL len PROT_NONE flags (-1) 0 base;
                    EvMprotect (base + getpagesize) sz rw r;
                    EvMunmap base len 0]
              /\ (forall x, base <= x < base + Kernel.page_up len ->
                            vm (mem m1) x = Some PROT_NONE
                            /\ vm (mem m') x = None)
              /\ (forall x, vm (mem m') x = vm (mem m) x))
          /\ (r = 0 -> a = base + getpagesize /\ a <> MAP_FAILED))
    /\ (a = MAP_FAILED -> forall x, vm (mem m') x = vm (mem m) x).
Proof.
  intros Hsz len flags rw. pose proof getpagesize_range as HP.
  destruct (mmap_impl_run sz m Hsz) as (a & m' & Hrun & Hcase).
  destruct Hcase as [Ha Emap Htr Hmem
                    | base m1 m2 Ha Hb Emap Eprot Htr Hgone Hvm
                    | base m1 m2 Ha Hb Hal Htop Emap Eprot Hfree Htr Hvm].
  - exists MAP_FAILED, m', a, m'.
    split; [exact Emap|]. split; [exact Hrun|]. split; [|split].
    + intros _. repeat split; assumption.
    + intros Hne. now contradiction Hne.
    + intros _ x. now rewrite Hmem.
  - exists base, m1, a, m'.
    split; [exact Emap|]. split; [exact Hrun|]. split; [|split].
    + intros Hbase. contradiction.
    + intros _. exists (-1), m2. split; [exact Eprot|]. split.
      * intros _. split; [exact Ha|]. split; [exact Htr|]. split; [|exact Hvm].
        intros x Hx. destruct (Hgone x Hx) as (_ & H1 & H2). now split.
      * intros Hr. discriminate Hr.
    + intros _. exact Hvm.
  - assert (Hok : a <> MAP_FAILED).
    { pose proof (page_up_bounds sz).
      rewrite MAP_FAILED_eq. rewrite TASK_SIZE_eq in Htop. lia. }
    assert (Hbase : base <> MAP_FAILED).
    { pose proof (page_up_bounds sz).
      rewrite MAP_FAILED_eq. rewrite TASK_SIZE_eq in Htop. lia. }
    exists base, m1, a, m'.
    split; [exact Emap|]. split; [exact Hrun|]. split; [|split].
    + intros Hb'. contradiction.
    + intros _. exists 0, m2. split; [exact Eprot|]. split.
      * intros Hr. now contradiction Hr.
      * intros _. split; assumption.
    + intros Hfail. contradiction.
Qed.

(** C5.  After a successful [mmap_impl sz] that returned [a],
    [munmap_impl a sz] is one [munmap] call, on the range of
    [sz + 2*pagesize] bytes that starts one page below [a]; that range is the
    one the reservation mapped, and once it is gone every byte of the
    address space is mapped, or not, as it was before the reservation. *)
Theorem munmap_impl_releases (sz : Z) (m : machine) (a : Z) (m1 : machine) :
  0 <= sz < SIZE_MOD ->
  mmap_impl sz m = Done a m1 ->
  a <> MAP_FAILED ->
  exists m2,
    munmap_impl a sz m1 = Done 0 m2
    /\ trace m2 =
         trace m1 ++ [EvMunmap (a - getpagesize) (sz + 2 * getpagesize) 0]
    /\ In (EvMmap NULL (sz + 2 * getpagesize) PROT_NONE
                  (Z.lor MAP_PRIVATE MAP_ANONYMOUS) (-1) 0 (a - getpagesize))
          (trace m1)
    /\ (forall x, a - getpagesize <= x < a - getpagesize + (sz + 2 * getpagesize) ->
                  vm (mem m2) x = None)
    /\ (forall x, vm (mem m2) x = vm (mem m) x).
Proof.
  intros Hsz Hrun Hok. pose proof getpagesize_range as HP.
  destruct (mmap_impl_run sz m Hsz) as (a0 & m0 & Hrun0 & Hcase).
  rewrite Hrun in Hrun0. injection Hrun0 as <- <-.
  destruct Hcase as [Hf _ _ _ | base m3 m4 Hf _ _ _ _ _ _
                    | base m3 m4 Ha Hb Hal Htop _ _ Hfree Htr Hvm];
    try contradiction.
  pose proof (page_up_bounds sz) as Hup.
  subst a. replace (base + getpagesize - getpagesize) with base by lia.
  unfold munmap_impl. rewrite pageSize_id, two_pages_id.
  replace (base + getpagesize - getpagesize) with base by lia.
  rewrite (to_size_t_id base)
    by (rewrite SIZE_MOD_eq; rewrite TASK_SIZE_eq in Htop; lia).
  rewrite (to_size_t_id (sz + 2 * getpagesize))
    by (rewrite SIZE_MOD_eq; rewrite TASK_SIZE_eq in Htop; lia).
  rewrite munmap_cases by (first [assumption | lia]).
  eexists. split; [reflexivity|]. state_simpl.
  split; [reflexivity|]. split.
  - rewrite Htr. apply in_or_app. right. left. reflexivity.
  - rewrite page_up_two. split.
    + intros x Hx.
      replace (in_range base (Kernel.page_up sz + 2 * getpagesize) x) with true
        by (symmetry; apply in_range_true; lia).
      reflexivity.
    + intros x.
      destruct (in_range base (Kernel.page_up sz + 2 * getpagesize) x) eqn:E.
      * symmetry. apply Hfree. now apply in_range_true.
      * rewrite Hvm. rewrite E.
        replace (in_range (base + getpagesize) (Kernel.page_up sz) x) with false;
          [reflexivity|].
        symmetry. apply in_range_false. apply in_range_false in E. lia.
Qed.

End ArenaClaims.

(** ** Memory *)

Lemma header_size_eq : header_size = 8.
Proof. reflexivity. Qed.

Lemma write_bytes_outside (l : list Z) :
  forall f a x, x < a \/ a + Z.of_nat (List.length l) <= x ->
                write_bytes f a l x = f x.
Proof.
  induction l as [|b t IH]; intros f a x Hx; cbn [write_bytes]; [reflexivity|].
  cbn [List.length] in Hx. rewrite IH by lia.
  destruct (Z.eqb_spec x a); [lia | reflexivity].
Qed.

Lemma read_write_bytes (l : list Z) :
  forall f a, read_bytes (write_bytes f a l) a (List.length l) = l.
Proof.
  induction l as [|b t IH]; intros f a; cbn [write_bytes read_bytes List.length];
    [reflexivity|].
  rewrite IH. f_equal. rewrite write_bytes_outside by lia.
  now rewrite Z.eqb_refl.
Qed.

Lemma encode_length (n : nat) : forall v, List.length (encode n v) = n.
Proof. induction n as [|n IH]; intros v; cbn; [reflexivity | now rewrite IH]. Qed.

Lemma decode_encode (n : nat) :
  forall v, 0 <= v < 256 ^ Z.of_nat n -> decode (encode n v) = v.
Proof.
  induction n as [|n IH]; intros v Hv.
  - cbn in *. lia.
  - cbn [encode decode]. rewrite Z.mod_mod by lia.
    rewrite IH.
    + pose proof (Z.div_mod v 256). lia.
    + rewrite Nat2Z.inj_succ, Z.pow_succ_r in Hv by lia.
      split.
      * apply Z.div_pos; lia.
      * apply Z.div_lt_upper_bound; lia.
Qed.

Lemma peek_poke (w : world) (a v : Z) :
  0 <= v < SIZE_MOD -> peek (poke w a v) a = v.
Proof.
  intros Hv. unfold peek, poke. cbn [ram].
  set (n := Z.to_nat sizeof_size_t).
  rewrite <- (encode_length n v) at 2.
  rewrite read_write_bytes. apply decode_encode. exact Hv.
Qed.

Lemma ram_poke_outside (w : world) (a v x : Z) :
  x < a \/ a + sizeof_size_t <= x -> ram (poke w a v) x = ram w x.
Proof.
  intros Hx. unfold poke. cbn [ram]. apply write_bytes_outside.
  rewrite encode_length. exact Hx.
Qed.

Lemma all_range_shrink (f : Z -> bool) (a len b k : Z) :
  0 <= k -> a <= b -> b + k <= a + len ->
  all_range f a len = true -> all_range f b k = true.
Proof.
  intros Hk Hab Hend H.
  destruct (Z.eq_dec k 0) as [->|Hne]; [reflexivity|].
  rewrite all_range_spec in H by lia. rewrite all_range_spec by lia.
  intros x Hx. apply H. lia.
Qed.

Lemma is_block_spec (w : world) (ptr n : Z) :
  is_block w ptr n = true ->
  0 < ptr /\ ptr + n <= Kernel.TASK_SIZE
  /\ readable w ptr n = true /\ writable w ptr n = true.
Proof.
  unfold is_block.
  destruct (negb (ptr =? NULL) && (0 <? ptr) && (ptr + n <=? Kernel.TASK_SIZE))
    eqn:E; [|discriminate].
  rewrite !andb_true_iff, Z.ltb_lt, Z.leb_le in E.
  rewrite andb_true_iff. tauto.
Qed.

(** ** Conversion to [int] *)

Lemma to_int_fits (h : Z) : 0 <= h <= INT_MAX -> to_int h = h.
Proof.
  intros Hh. unfold to_int. change INT_MAX with 2147483647 in *.
  change (2 ^ INT_BITS) with 4294967296.
  rewrite Z.mod_small by lia.
  destruct (Z.leb_spec h 2147483647); lia.
Qed.

Lemma to_int_range (h : Z) : INT_MIN <= to_int h <= INT_MAX.
Proof.
  unfold to_int. change INT_MAX with 2147483647. change INT_MIN with (-2147483648).
  change (2 ^ INT_BITS) with 4294967296.
  pose proof (Z.mod_pos_bound h 4294967296 eq_refl).
  destruct (Z.leb_spec (h mod 4294967296) 2147483647); lia.
Qed.

Lemma to_int_wraps (h : Z) :
  to_int h = (h + 2 ^ 31) mod 2 ^ 32 - 2 ^ 31.
Proof.
  unfold to_int. change INT_MAX with 2147483647.
  change (2 ^ INT_BITS) with 4294967296.
  change (2 ^ 31) with 2147483648. change (2 ^ 32) with 4294967296.
  pose proof (Z.mod_pos_bound h 4294967296 eq_refl) as Hr.
  pose proof (Z.div_mod h 4294967296 ltac:(lia)) as Hd.
  destruct (Z.leb_spec (h mod 4294967296) 2147483647).
  - rewrite <- (Z.mod_unique (h + 2147483648) 4294967296 (h / 4294967296)
                          (h mod 4294967296 + 2147483648)); lia.
  - rewrite <- (Z.mod_unique (h + 2147483648) 4294967296 (h / 4294967296 + 1)
                          (h mod 4294967296 - 2147483648)); lia.
Qed.

Lemma to_int_truncates (h : Z) : INT_MAX < h -> to_int h <> h.
Proof. intros Hh. pose proof (to_int_range h). lia. Qed.

(** ** The public entry points, step by step *)

Section PCacheFacts.
Context {A : Mspace}.

Lemma store_size_t_ok (a v : Z) (m : machine) :
  writable (mem m) a sizeof_size_t = true ->
  store_size_t a v m = Done tt (emit (EvStore a v) (set_mem (poke (mem m) a v) m)).
Proof. intros H. unfold store_size_t. now rewrite H. Qed.

Lemma load_size_t_ok (a : Z) (m : machine) :
  readable (mem m) a sizeof_size_t = true ->
  load_size_t a m = Done (peek (mem m) a) (emit (EvLoad a (peek (mem m) a)) m).
Proof. intros H. unfold load_size_t. now rewrite H. Qed.

Lemma mem_recorded (e : event) (w : world) (ptr n : Z) (m : machine) :
  mem (recorded e w ptr n m) = poke w ptr n.
Proof. reflexivity. Qed.

Lemma trace_recorded (e : event) (w : world) (ptr n : Z) (m : machine) :
  trace (recorded e w ptr n m) = trace m ++ [e; EvStore ptr n].
Proof.
  unfold recorded, allocated. state_simpl. now rewrite <- app_assoc.
Qed.

Lemma pcache_malloc_run (sz : Z) (m : machine) (ptr : Z) (w : world) :
  mspace_malloc (pcache_msp m) (to_size_t (sz + header_size)) (mem m) = (ptr, w) ->
  pcache_malloc sz m =
    let n := to_size_t (sz + header_size) in
    let e := EvMalloc (pcache_msp m) n ptr in
    if writable w ptr sizeof_size_t
    then Done (to_size_t (ptr + header_size)) (recorded e w ptr n m)
    else Segv (allocated e w m).
Proof.
  intros Hcall. unfold pcache_malloc, bind, get_pcache_msp, call_mspace_malloc.
  change (ROUND8 sizeof_size_t) with header_size. rewrite Hcall.
  unfold store_size_t, allocated, recorded, ret. state_simpl.
  destruct (writable w ptr sizeof_size_t); reflexivity.
Qed.

Lemma pcache_malloc_zero_run (sz : Z) (m : machine) (ptr : Z) (w : world) :
  mspace_calloc (pcache_msp m) (to_size_t (sz + header_size)) 1 (mem m) = (ptr, w) ->
  pcache_malloc_zero sz m =
    let n := to_size_t (sz + header_size) in
    let e := EvCalloc (pcache_msp m) n 1 ptr in
    if writable w ptr sizeof_size_t
    then Done (to_size_t (ptr + header_size)) (recorded e w ptr n m)
    else Segv (allocated e w m).
Proof.
  intros Hcall. unfold pcache_malloc_zero, bind, get_pcache_msp, call_mspace_calloc.
  change (ROUND8 sizeof_size_t) with header_size. rewrite Hcall.
  unfold store_size_t, allocated, recorded, ret. state_simpl.
  destruct (writable w ptr sizeof_size_t); reflexivity.
Qed.

(** What a block of at least [header_size] bytes gives the wrapper. *)
Lemma block_header (w : world) (ptr n : Z) :
  header_size <= n -> is_block w ptr n = true ->
  0 < ptr /\ ptr + n <= Kernel.TASK_SIZE
  /\ readable w ptr sizeof_size_t = true
  /\ writable w ptr sizeof_size_t = true
  /\ to_size_t (ptr + header_size) = ptr + header_size
  /\ ptr + header_size <> NULL.
Proof.
  intros Hn Hb. apply is_block_spec in Hb. destruct Hb as (Hp & Htop & Hr & Hw).
  rewrite header_size_eq in *. rewrite TASK_SIZE_eq in Htop.
  change sizeof_size_t with 8.
  repeat split; try assumption; try (rewrite TASK_SIZE_eq; lia).
  - apply (all_range_shrink _ ptr n); try lia. exact Hr.
  - apply (all_range_shrink _ ptr n); try lia. exact Hw.
  - apply to_size_t_id. rewrite SIZE_MOD_eq. lia.
  - unfold NULL. lia.
Qed.

Lemma pcache_memsize_run (p : Z) (m : machine) :
  p <> NULL ->
  readable (mem m) (to_size_t (p - header_size)) sizeof_size_t = true ->
  let h := peek (mem m) (to_size_t (p - header_size)) in
  pcache_memsize p m =
    Done (to_int h) (emit (EvLoad (to_size_t (p - header_size)) h) m).
Proof.
  intros Hp Hr. unfold pcache_memsize.
  replace (p =? NULL) with false by (symmetry; now apply Z.eqb_neq).
  change (ROUND8 sizeof_size_t) with header_size.
  unfold bind. rewrite load_size_t_ok by exact Hr. reflexivity.
Qed.

(** The record just written is what a size query reads. *)
Lemma recorded_header (e : event) (w : world) (ptr n : Z) (m : machine) :
  0 <= n < SIZE_MOD ->
  0 <= ptr -> ptr + header_size < SIZE_MOD ->
  readable w ptr sizeof_size_t = true ->
  pcache_memsize (ptr + header_size) (recorded e w ptr n m) =
    Done (to_int n) (emit (EvLoad ptr n) (recorded e w ptr n m)).
Proof.
  intros Hn Hp Htop Hr.
  assert (Hback : to_size_t (ptr + header_size - header_size) = ptr).
  { replace (ptr + header_size - header_size) with ptr by lia.
    apply to_size_t_id. rewrite header_size_eq in Htop. lia. }
  pose proof (pcache_memsize_run (ptr + header_size) (recorded e w ptr n m)) as H.
  rewrite Hback, mem_recorded in H. cbv zeta in H.
  rewrite peek_poke in H by exact Hn.
  apply H.
  - rewrite header_size_eq. unfold NULL. lia.
  - exact Hr.
Qed.

End PCacheFacts.

Lemma decode_range (l : list Z) : 0 <= decode l < 256 ^ Z.of_nat (List.length l).
Proof.
  induction l as [|b t IH]; cbn [decode List.length].
  - cbn. lia.
  - rewrite Nat2Z.inj_succ, Z.pow_succ_r by lia.
    pose proof (Z.mod_pos_bound b 256 eq_refl). lia.
Qed.

Lemma read_bytes_length (f : Z -> Z) (n : nat) :
  forall a, List.length (read_bytes f a n) = n.
Proof. induction n as [|n IH]; intros a; cbn; [reflexivity | now rewrite IH]. Qed.

Lemma peek_range (w : world) (a : Z) : 0 <= peek w a < SIZE_MOD.
Proof.
  unfold peek.
  pose proof (decode_range (read_bytes (ram w) a (Z.to_nat sizeof_size_t))) as H.
  rewrite read_bytes_length in H. exact H.
Qed.

Lemma round_trip_pointer (ptr : Z) :
  0 <= ptr < SIZE_MOD ->
  to_size_t (to_size_t (ptr + header_size) - header_size) = ptr.
Proof.
  intros Hp. unfold to_size_t. rewrite Zminus_mod_idemp_l.
  replace (ptr + header_size - header_size) with ptr by lia.
  now apply Z.mod_small.
Qed.

Lemma header_size_is_round_up : header_size = round_up sizeof_size_t WORD_SIZE.
Proof. reflexivity. Qed.

Section PCacheClaims.
Context {A : Mspace}.

(** What a successful [pcache_malloc] leaves behind; the allocation may be
    of any size that does not wrap around. *)
Lemma pcache_malloc_ok (sz : Z) (m : machine) (ptr : Z) (w : world) :
  0 <= sz -> sz + header_size <= SIZE_MAX ->
  mspace_malloc (pcache_msp m) (sz + header_size) (mem m) = (ptr, w) ->
  is_block w ptr (sz + header_size) = true ->
  let e := EvMalloc (pcache_msp m) (sz + header_size) ptr in
  let m' := recorded e w ptr (sz + header_size) m in
  pcache_malloc sz m = Done (ptr + header_size) m'
  /\ pcache_memsize (ptr + header_size) m' =
       Done (to_int (sz + header_size)) (emit (EvLoad ptr (sz + header_size)) m').
Proof.
  intros Hsz Hmax Hcall Hblock e m'.
  assert (Hn : 0 <= sz + header_size < SIZE_MOD).
  { unfold SIZE_MAX in Hmax. rewrite header_size_eq. rewrite header_size_eq in Hmax. lia. }
  assert (Hid : to_size_t (sz + header_size) = sz + header_size)
    by now apply to_size_t_id.
  destruct (block_header w ptr (sz + header_size) ltac:(lia) Hblock)
    as (Hp & Htop & Hr & Hw & Hret & _).
  split.
  - rewrite (pcache_malloc_run sz m ptr w) by (rewrite Hid; exact Hcall).
    cbv zeta. rewrite Hid, Hw, Hret. reflexivity.
  - apply recorded_header; try assumption; try lia.
    rewrite SIZE_MOD_eq. rewrite TASK_SIZE_eq in Htop. rewrite header_size_eq in *. lia.
Qed.

(** C2 (as amended).  For every size [sz] with [sz + header_size] not above
    [SIZE_MAX]: [header_size] is the size of [size_t] rounded up to a
    multiple of the word size; a successful [pcache_malloc sz] asks the
    underlying allocator for [sz + header_size] bytes, stores
    [sz + header_size] in the first word of the block it got and returns the
    address [header_size] bytes above the block; and when
    [sz + header_size] is not above [INT_MAX], [pcache_memsize] of the
    returned pointer, less [header_size], is [sz]. *)
Theorem pcache_malloc_records (sz : Z) (m : machine) (ptr : Z) (w : world) :
  0 <= sz -> sz + header_size <= SIZE_MAX ->
  mspace_malloc (pcache_msp m) (sz + header_size) (mem m) = (ptr, w) ->
  is_block w ptr (sz + header_size) = true ->
  header_size = round_up sizeof_size_t WORD_SIZE
  /\ exists m',
      pcache_malloc sz m = Done (ptr + header_size) m'
      /\ trace m' = trace m ++ [EvMalloc (pcache_msp m) (sz + header_size) ptr;
                                EvStore ptr (sz + header_size)]
      /\ peek (mem m') ptr = sz + header_size
      /\ exists v m'',
          pcache_memsize (ptr + header_size) m' = Done v m''
          /\ (sz + header_size <= INT_MAX -> v - header_size = sz).
Proof.
  intros Hsz Hmax Hcall Hblock.
  split; [exact header_size_is_round_up|].
  destruct (pcache_malloc_ok sz m ptr w Hsz Hmax Hcall Hblock) as [Hrun Hsize].
  eexists. split; [exact Hrun|]. split; [apply trace_recorded|]. split.
  - rewrite mem_recorded. apply peek_poke.
    unfold SIZE_MAX in Hmax. rewrite header_size_eq in *. lia.
  - eexists _, _. split; [exact Hsize|]. intros Hint.
    rewrite to_int_fits; [lia|]. rewrite header_size_eq in *. lia.
Qed.

(** X29.  What [pcache_malloc_zero] gives when the underlying allocator
    hands out a block of [sz + header_size] zeroed bytes (so that the sum
    has not wrapped): it asks for [sz + header_size] bytes in one element,
    writes the size into the first word of the block and returns the
    address behind that word; the [sz] bytes the caller sees all read
    [0]. *)
Theorem pcache_malloc_zero_zeroed (sz : Z) (m : machine) (ptr : Z) (w : world) :
  0 <= sz ->
  mspace_calloc (pcache_msp m) (sz + header_size) 1 (mem m) = (ptr, w) ->
  is_block w ptr (sz + header_size) = true ->
  zeroed w ptr (sz + header_size) = true ->
  exists m',
    pcache_malloc_zero sz m = Done (ptr + header_size) m'
    /\ trace m' = trace m ++ [EvCalloc (pcache_msp m) (sz + header_size) 1 ptr;
                              EvStore ptr (sz + header_size)]
    /\ peek (mem m') ptr = sz + header_size
    /\ (forall x, ptr + header_size <= x < ptr + header_size + sz ->
                  ram (mem m') x = 0)
    /\ sz + header_size <= SIZE_MAX.
Proof.
  intros Hsz Hcall Hblock Hzero.
  assert (Hmax : sz + header_size <= SIZE_MAX).
  { apply is_block_spec in Hblock. destruct Hblock as (Hp & Htop & _).
    unfold SIZE_MAX. rewrite SIZE_MOD_eq. rewrite TASK_SIZE_eq in Htop. lia. }
  assert (Hn : 0 <= sz + header_size < SIZE_MOD).
  { unfold SIZE_MAX in Hmax. rewrite header_size_eq. rewrite header_size_eq in Hmax. lia. }
  assert (Hid : to_size_t (sz + header_size) = sz + header_size)
    by now apply to_size_t_id.
  destruct (block_header w ptr (sz + header_size) ltac:(lia) Hblock)
    as (Hp & Htop & Hr & Hw & Hret & _).
  eexists. split.
  - rewrite (pcache_malloc_zero_run sz m ptr w) by (rewrite Hid; exact Hcall).
    cbv zeta. rewrite Hid, Hw, Hret. reflexivity.
  - split; [apply trace_recorded|]. rewrite mem_recorded. split; [|split].
    + now apply peek_poke.
    + intros x Hx. rewrite ram_poke_outside.
      * unfold zeroed in Hzero. rewrite all_range_spec in Hzero by lia.
        apply Z.eqb_eq. apply Hzero. rewrite header_size_eq in *. lia.
      * right. change sizeof_size_t with 8. rewrite header_size_eq in Hx. lia.
    + exact Hmax.
Qed.

(** C7 (as amended).  [pcache_memsize] of the null pointer is [0], without
    any access to memory.  For a non-null pointer whose header can be read
    it loads the header once and returns it converted to [int]: the stored
    value itself, header size included, whenever that value is not above
    [INT_MAX]. *)
Theorem pcache_memsize_reads_header (p : Z) (m : machine) :
  pcache_memsize NULL m = Done 0 m
  /\ (p <> NULL ->
      readable (mem m) (to_size_t (p - header_size)) sizeof_size_t = true ->
      let h := peek (mem m) (to_size_t (p - header_size)) in
      pcache_memsize p m =
        Done (to_int h) (emit (EvLoad (to_size_t (p - header_size)) h) m)
      /\ (h <= INT_MAX -> to_int h = h)).
Proof.
  split; [reflexivity|]. intros Hp Hr h. split.
  - now apply pcache_memsize_run.
  - intros Hh. apply to_int_fits. pose proof (peek_range (mem m) (to_size_t (p - header_size))).
    fold h in H. lia.
Qed.

(** C8 (as amended).  [pcache_free] of the null pointer does nothing: the
    machine is left as it was.  For a non-null pointer [p] it makes one
    call, [mspace_free] of [pcache_msp] and [p - header_size], without
    reading the header; when [p] is what an allocation returned for the
    block at [ptr], the address passed is [ptr]. *)
Theorem pcache_free_passes_base (p ptr : Z) (m : machine) :
  pcache_free NULL m = Done tt m
  /\ (p <> NULL ->
      pcache_free p m =
        Done tt (emit (EvFree (pcache_msp m) (to_size_t (p - header_size)))
                      (set_mem (mspace_free (pcache_msp m)
                                            (to_size_t (p - header_size)) (mem m))
                               m))
      /\ (0 <= ptr < SIZE_MOD -> p = to_size_t (ptr + header_size) ->
          to_size_t (p - header_size) = ptr)).
Proof.
  split; [reflexivity|]. intros Hp. split.
  - unfold pcache_free.
    replace (p =? NULL) with false by (symmetry; now apply Z.eqb_neq).
    reflexivity.
  - intros Hptr ->. now apply round_trip_pointer.
Qed.

(** C10.  After a successful allocation whose recorded size is
    [sz + header_size], [pcache_memsize] returns that size converted to
    [int]: the recorded size itself when it is not above [INT_MAX], and
    otherwise a different number, the recorded size wrapped into the range
    of [int]. *)
Theorem pcache_memsize_int (sz : Z) (m : machine) (ptr : Z) (w : world) :
  0 <= sz -> sz + header_size <= SIZE_MAX ->
  mspace_malloc (pcache_msp m) (sz + header_size) (mem m) = (ptr, w) ->
  is_block w ptr (sz + header_size) = true ->
  exists m' v m'',
    pcache_malloc sz m = Done (ptr + header_size) m'
    /\ peek (mem m') ptr = sz + header_size
    /\ pcache_memsize (ptr + header_size) m' = Done v m''
    /\ v = to_int (sz + header_size)
    /\ INT_MIN <= v <= INT_MAX
    /\ (sz + header_size <= INT_MAX -> v = sz + header_size)
    /\ (INT_MAX < sz + header_size ->
        v <> sz + header_size
        /\ v = (sz + header_size + 2 ^ 31) mod 2 ^ 32 - 2 ^ 31).
Proof.
  intros Hsz Hmax Hcall Hblock.
  destruct (pcache_malloc_ok sz m ptr w Hsz Hmax Hcall Hblock) as [Hrun Hsize].
  eexists _, _, _. split; [exact Hrun|]. split.
  - rewrite mem_recorded. apply peek_poke.
    unfold SIZE_MAX in Hmax. rewrite header_size_eq in *. lia.
  - split; [exact Hsize|]. split; [reflexivity|].
    split; [apply to_int_range|]. split.
    + intros Hint. apply to_int_fits. rewrite header_size_eq in *. lia.
    + intros Hbig. split; [now apply to_int_truncates | apply to_int_wraps].
Qed.

End PCacheClaims.

(** ** Concrete runs *)

Lemma done_of_not_crashed {T} (d : T) (o : outcome T) :
  crashed o = false -> o = Done (value d o) (final o).
Proof. destruct o; [reflexivity | discriminate]. Qed.

Lemma answer_of_call (r : Z * world) (p : Z) : fst r = p -> r = (p, snd r).
Proof. intros <-. apply surjective_pairing. Qed.

(** C1.  The exhaustion scenario on a space of 4096 bytes: three
    allocations of 1024 bytes succeed and use the capacity up, so the
    underlying allocator answers [NULL] to the fourth.  [pcache_malloc] and
    [pcache_malloc_zero] do not test that answer: they store the size at
    address [NULL], which kills the process when that address is not
    mapped, and where it is mapped they have then written the header and
    return [NULL + header_size = 8], not the failure sentinel. *)
Theorem pcache_malloc_exhausted :
  let m := Sample.after_allocs 3 1024 (Sample.started 4096) in
  let low := Sample.after_allocs 3 1024 (Sample.started_low 4096) in
  trace m = [EvMalloc Sample.ARENA 1032 (Sample.ARENA + 16);
             EvStore (Sample.ARENA + 16) 1032;
             EvMalloc Sample.ARENA 1032 (Sample.ARENA + 1048);
             EvStore (Sample.ARENA + 1048) 1032;
             EvMalloc Sample.ARENA 1032 (Sample.ARENA + 2080);
             EvStore (Sample.ARENA + 2080) 1032]
  /\ (fst (mspace_malloc (Mspace := Sample.bump)
             (pcache_msp m) (to_size_t (1024 + header_size)) (mem m)) = NULL
      /\ fst (mspace_calloc (Mspace := Sample.bump)
                (pcache_msp m) (to_size_t (1024 + header_size)) 1 (mem m)) = NULL)
  /\ (crashed (pcache_malloc (A := Sample.bump) 1024 m) = true
      /\ crashed (pcache_malloc_zero (A := Sample.bump) 1024 m) = true)
  /\ (pcache_malloc (A := Sample.bump) 1024 m <> Done NULL m
      /\ pcache_malloc_zero (A := Sample.bump) 1024 m <> Done NULL m)
  /\ (let o := pcache_malloc (A := Sample.bump) 1024 low in
      crashed o = false /\ value NULL o = 8
      /\ existsb (is_store_at NULL) (trace (final o)) = true)
  /\ (let o := pcache_malloc_zero (A := Sample.bump) 1024 low in
      crashed o = false /\ value NULL o = 8
      /\ existsb (is_store_at NULL) (trace (final o)) = true).
Proof.
  cbv zeta.
  assert (H1 : crashed (pcache_malloc (A := Sample.bump) 1024
                          (Sample.after_allocs 3 1024 (Sample.started 4096))) = true)
    by (vm_compute; reflexivity).
  assert (H2 : crashed (pcache_malloc_zero (A := Sample.bump) 1024
                          (Sample.after_allocs 3 1024 (Sample.started 4096))) = true)
    by (vm_compute; reflexivity).
  split; [vm_compute; reflexivity|].
  split; [split; vm_compute; reflexivity|].
  split; [split; assumption|].
  split.
  - split; intros E; [rewrite E in H1; discriminate H1 | rewrite E in H2; discriminate H2].
  - split; (split; [|split]); vm_compute; reflexivity.
Qed.

(** Whatever the allocator, a failed underlying allocation is never
    reported as [NULL] by [pcache_malloc]. *)
Lemma pcache_malloc_hides_failure {A : Mspace} (sz : Z) (m : machine) (w : world) :
  mspace_malloc (pcache_msp m) (to_size_t (sz + header_size)) (mem m) = (NULL, w) ->
  forall p m', pcache_malloc sz m = Done p m' ->
               p = header_size /\ existsb (is_store_at NULL) (trace m') = true.
Proof.
  intros Hcall p m' Hrun.
  rewrite (pcache_malloc_run sz m NULL w Hcall) in Hrun. cbv zeta in Hrun.
  destruct (writable w NULL sizeof_size_t); [|discriminate].
  injection Hrun as <- <-. split; [reflexivity|].
  rewrite trace_recorded, existsb_app. cbn. apply orb_true_r.
Qed.

Lemma pcache_malloc_hides_failure_witness :
  let m := Sample.after_allocs 3 1024 (Sample.started_low 4096) in
  let o := pcache_malloc (A := Sample.bump) 1024 m in
  value NULL o = header_size
  /\ existsb (is_store_at NULL) (trace (final o)) = true.
Proof.
  intros m o.
  refine (pcache_malloc_hides_failure (A := Sample.bump) 1024 m _ _
            (value NULL o) (final o) _).
  - apply answer_of_call. vm_compute. reflexivity.
  - apply done_of_not_crashed. vm_compute. reflexivity.
Defined.

(** C2, the claim as it was stated, fails: for [sz = 2^31 - 8] the
    allocation succeeds and [pcache_memsize] of the result, less
    [header_size], is negative; for [sz = SIZE_MAX] the request made to the
    underlying allocator is for [7] bytes. *)
Lemma pcache_malloc_size_not_recovered :
  (let sz := 2 ^ 31 - 8 in
   let o := pcache_malloc (A := Sample.bump) sz (Sample.started (2 ^ 32)) in
   let o' := pcache_memsize (value NULL o) (final o) in
   crashed o = false /\ value NULL o <> NULL /\ crashed o' = false
   /\ value 0 o' - header_size <> sz)
  /\ (let sz := SIZE_MAX in
      let o := pcache_malloc (A := Sample.bump) sz (Sample.started 4096) in
      crashed o = false /\ value NULL o <> NULL
      /\ trace (final o) = [EvMalloc Sample.ARENA 7 (Sample.ARENA + 16);
                            EvStore (Sample.ARENA + 16) 7]).
Proof.
  cbv zeta. split; (split; [|split; [|try split]]); vm_compute; congruence.
Qed.

Lemma pcache_malloc_records_witness :
  let m := Sample.started 4096 in
  let o := pcache_malloc (A := Sample.bump) 1024 m in
  let ptr := Sample.ARENA + 16 in
  value NULL o = ptr + header_size
  /\ peek (mem (final o)) ptr = 1024 + header_size
  /\ value 0 (pcache_memsize (value NULL o) (final o)) - header_size = 1024.
Proof.
  intros m o ptr.
  set (w := snd (mspace_malloc (Mspace := Sample.bump) (pcache_msp m)
                   (1024 + header_size) (mem m))).
  assert (H0 : 0 <= 1024) by lia.
  assert (H1 : 1024 + header_size <= SIZE_MAX) by (vm_compute; discriminate).
  assert (H2 : mspace_malloc (Mspace := Sample.bump) (pcache_msp m)
                 (1024 + header_size) (mem m) = (ptr, w))
    by (apply answer_of_call; vm_compute; reflexivity).
  assert (H3 : is_block w ptr (1024 + header_size) = true)
    by (vm_compute; reflexivity).
  destruct (pcache_malloc_records (A := Sample.bump) 1024 m ptr w H0 H1 H2 H3)
    as (_ & m' & Hrun & _ & Hpeek & v & m'' & Hsize & Hv).
  unfold o. rewrite Hrun. cbn [value final]. rewrite Hsize. cbn [value].
  split; [reflexivity|]. split; [exact Hpeek|].
  apply Hv. vm_compute. discriminate.
Defined.

(** C3, the claim as it was stated, fails: a reservation of [100] bytes
    with pages of [4096] bytes succeeds, and the byte after the hundredth
    can be written, like every byte up to the end of the page; the first
    store that is fatal is the one that reaches the next page. *)
Lemma mmap_impl_usable_rounded_up :
  let o := mmap_impl (P := Sample.linux) 100 Sample.boot in
  let a := value MAP_FAILED o in
  crashed o = false /\ a = 2 ^ 32 + 4096
  /\ trace (final o) =
       [EvMmap 0 8292 0 34 (-1) 0 (2 ^ 32);
        EvMprotect (2 ^ 32 + 4096) 100 3 0;
        EvPrctl PR_SET_VMA 0 (2 ^ 32) 8292 "SQLite Safe PCache Guard";
        EvPrctl PR_SET_VMA 0 (2 ^ 32 + 4096) 100 "SQLite Safe PCache"]
  /\ may_access 1 (mem (final o)) (a + 100) = true
  /\ in_range a 100 (a + 100) = false
  /\ crashed (store_size_t (a + 100) 1 (final o)) = false
  /\ crashed (store_size_t (a + 4096 - 8) 1 (final o)) = false
  /\ crashed (store_size_t (a + 4096 - 7) 1 (final o)) = true.
Proof.
  cbv zeta.
  split; [|split; [|split; [|split; [|split; [|split; [|split]]]]]];
    vm_compute; reflexivity.
Qed.

Lemma mmap_impl_reserves_witness :
  let o := mmap_impl (P := Sample.linux) 100 Sample.boot in
  let a := value MAP_FAILED o in
  exists base,
    a = base + 4096
    /\ forall x, base <= x < base + (4096 + 2 * 4096) ->
                 may_access 0 (mem (final o)) x = in_range a 4096 x
                 /\ may_access 1 (mem (final o)) x = in_range a 4096 x.
Proof.
  intros o a.
  assert (H1 : 0 <= 100 < SIZE_MOD) by (vm_compute; split; [discriminate | reflexivity]).
  assert (H2 : o = Done a (final o))
    by (apply done_of_not_crashed; vm_compute; reflexivity).
  assert (H3 : a <> MAP_FAILED) by (vm_compute; discriminate).
  pose proof (mmap_impl_reserves (P := Sample.linux) 100 Sample.boot a (final o)
                H1 H2 H3) as H.
  cbv zeta in H. change (Kernel.page_up (P := Sample.linux) 100) with 4096 in H.
  destruct H as (base & Ha & _ & _ & _ & _ & _ & _ & Hacc).
  exists base. split; [exact Ha | exact Hacc].
Defined.

Lemma mmap_impl_fails_clean_witness :
  let o := mmap_impl (P := Sample.no_access) 100 Sample.boot in
  value 0 o = MAP_FAILED
  /\ trace (final o) =
       [EvMmap 0 8292 0 34 (-1) 0 (2 ^ 32);
        EvMprotect (2 ^ 32 + 4096) 100 3 (-1);
        EvMunmap (2 ^ 32) 8292 0]
  /\ forall x, vm (mem (final o)) x = None.
Proof.
  intros o.
  assert (H1 : 0 <= 100 < SIZE_MOD) by (vm_compute; split; [discriminate | reflexivity]).
  pose proof (mmap_impl_fails_clean (P := Sample.no_access) 100 Sample.boot H1) as H.
  cbv zeta in H.
  destruct H as (base & m1 & a & m' & Emap & Hrun & _ & Hgranted & _).
  assert (Hbase : base = 2 ^ 32).
  { change base with (value 0 (Done base m1)). rewrite <- Emap.
    vm_compute. reflexivity. }
  assert (Hm1 : m1 = final (Kernel.mmap (P := Sample.no_access) NULL 8292 PROT_NONE
                              (Z.lor MAP_PRIVATE MAP_ANONYMOUS) (-1) 0 Sample.boot)).
  { change m1 with (final (Done base m1)). rewrite <- Emap. reflexivity. }
  assert (Hgo : base <> MAP_FAILED) by (rewrite Hbase; vm_compute; discriminate).
  destruct (Hgranted Hgo) as (r & m2 & Eprot & Hrefused & _).
  assert (Hr : r = -1).
  { change r with (value 0 (Done r m2)). rewrite <- Eprot, Hbase, Hm1.
    vm_compute. reflexivity. }
  assert (Hnz : r <> 0) by (rewrite Hr; discriminate).
  destruct (Hrefused Hnz) as (Ha & Htr & _ & Hvm).
  unfold o. rewrite Hrun. cbn [value final].
  split; [exact Ha|]. split.
  - rewrite Htr, Hbase, Hr. reflexivity.
  - intros x. rewrite Hvm. reflexivity.
Defined.

Lemma munmap_impl_releases_witness :
  let o := mmap_impl (P := Sample.linux) 4096 Sample.boot in
  let a := value MAP_FAILED o in
  let o' := munmap_impl (P := Sample.linux) a 4096 (final o) in
  value 1 o' = 0 /\ forall x, vm (mem (final o')) x = None.
Proof.
  intros o a o'.
  assert (H1 : 0 <= 4096 < SIZE_MOD) by (vm_compute; split; [discriminate | reflexivity]).
  assert (H2 : o = Done a (final o))
    by (apply done_of_not_crashed; vm_compute; reflexivity).
  assert (H3 : a <> MAP_FAILED) by (vm_compute; discriminate).
  destruct (munmap_impl_releases (P := Sample.linux) 4096 Sample.boot a (final o)
              H1 H2 H3) as (m2 & Hrun & _ & _ & _ & Hvm).
  unfold o'. rewrite Hrun. cbn [value final].
  split; [reflexivity|]. intros x. apply Hvm.
Defined.

(** C6.  [pcache_malloc_zero] adds the header size to the request in
    [size_t] without testing for overflow.  For [sz = SIZE_MAX] the sum
    wraps to [7]: the underlying allocator is asked for, and zero-fills, a
    block of [7] bytes.  The call succeeds; the header of [8] bytes is
    stored over the block and the byte behind it, the pointer returned lies
    behind the block, and the first byte the caller sees there is not
    zeroed: it holds what the memory held before. *)
Theorem pcache_malloc_zero_not_zeroed :
  let m := Sample.started 4096 in
  let o := pcache_malloc_zero (A := Sample.bump) SIZE_MAX m in
  let block := fst (mspace_calloc (Mspace := Sample.bump) (pcache_msp m)
                      (to_size_t (SIZE_MAX + header_size)) 1 (mem m)) in
  to_size_t (SIZE_MAX + header_size) = 7
  /\ block = Sample.ARENA + 16
  /\ crashed o = false /\ value NULL o <> NULL
  /\ trace (final o) = [EvCalloc Sample.ARENA 7 1 block; EvStore block 7]
  /\ value NULL o = block + header_size
  /\ block + 7 < value NULL o
  /\ ram (mem (final o)) (value NULL o) = 170
  /\ ram (mem (final o)) (value NULL o) <> 0.
Proof.
  cbv zeta.
  split; [|split; [|split; [|split; [|split; [|split; [|split; [|split]]]]]]];
    vm_compute; congruence.
Qed.

(** A request that does not wrap. *)
Lemma pcache_malloc_zero_zeroed_witness :
  let m := Sample.started 4096 in
  let o := pcache_malloc_zero (A := Sample.bump) 1024 m in
  let ptr := Sample.ARENA + 16 in
  value NULL o = ptr + header_size
  /\ forall x, ptr + header_size <= x < ptr + header_size + 1024 ->
               ram (mem (final o)) x = 0.
Proof.
  intros m o ptr.
  set (w := snd (mspace_calloc (Mspace := Sample.bump) (pcache_msp m)
                   (1024 + header_size) 1 (mem m))).
  assert (H0 : 0 <= 1024) by lia.
  assert (H2 : mspace_calloc (Mspace := Sample.bump) (pcache_msp m)
                 (1024 + header_size) 1 (mem m) = (ptr, w))
    by (apply answer_of_call; vm_compute; reflexivity).
  assert (H3 : is_block w ptr (1024 + header_size) = true)
    by (vm_compute; reflexivity).
  assert (H4 : zeroed w ptr (1024 + header_size) = true)
    by (vm_compute; reflexivity).
  destruct (pcache_malloc_zero_zeroed (A := Sample.bump) 1024 m ptr w H0 H2 H3 H4)
    as (m' & Hrun & _ & _ & Hz & _).
  unfold o. rewrite Hrun. cbn [value final].
  split; [reflexivity | exact Hz].
Defined.

(** C7, the claim as it was stated, fails: after an allocation of
    [2^31 - 8] bytes the header holds [2^31] and [pcache_memsize] returns
    [- 2^31]. *)
Lemma pcache_memsize_not_verbatim :
  let o := pcache_malloc (A := Sample.bump) (2 ^ 31 - 8) (Sample.started (2 ^ 32)) in
  let p := value NULL o in
  let o' := pcache_memsize p (final o) in
  p <> NULL
  /\ peek (mem (final o)) (p - header_size) = 2 ^ 31
  /\ crashed o' = false
  /\ value 0 o' = - 2 ^ 31
  /\ value 0 o' <> peek (mem (final o)) (p - header_size).
Proof.
  cbv zeta. split; [|split; [|split; [|split]]]; vm_compute; congruence.
Qed.

Lemma pcache_memsize_reads_header_witness :
  let m := final (pcache_malloc (A := Sample.bump) 1024 (Sample.started 4096)) in
  let p := Sample.ARENA + 16 + header_size in
  pcache_memsize NULL m = Done 0 m
  /\ value 0 (pcache_memsize p m) = 1024 + header_size.
Proof.
  intros m p.
  destruct (pcache_memsize_reads_header p m) as [Hnull Hp].
  assert (H1 : p <> NULL) by (vm_compute; discriminate).
  assert (H2 : readable (mem m) (to_size_t (p - header_size)) sizeof_size_t = true)
    by (vm_compute; reflexivity).
  destruct (Hp H1 H2) as [Hrun Hfit].
  split; [exact Hnull|]. rewrite Hrun. cbn [value].
  rewrite Hfit by (vm_compute; discriminate).
  vm_compute. reflexivity.
Defined.

(** C8, the claim as it was stated, fails: freeing an allocated block makes
    one call to the underlying allocator and loads nothing. *)
Lemma pcache_free_reads_nothing :
  let o := pcache_malloc (A := Sample.bump) 100 (Sample.started 4096) in
  let p := value NULL o in
  let o' := pcache_free (A := Sample.bump) p (final o) in
  p <> NULL /\ crashed o' = false
  /\ trace (final o') = trace (final o) ++ [EvFree Sample.ARENA (p - header_size)]
  /\ existsb is_load (trace (final o')) = false.
Proof.
  cbv zeta. split; [|split; [|split]]; vm_compute; congruence.
Qed.

Lemma pcache_free_passes_base_witness :
  let m := final (pcache_malloc (A := Sample.bump) 100 (Sample.started 4096)) in
  let ptr := Sample.ARENA + 16 in
  let p := to_size_t (ptr + header_size) in
  pcache_free (A := Sample.bump) NULL m = Done tt m
  /\ trace (final (pcache_free (A := Sample.bump) p m)) =
       trace m ++ [EvFree (pcache_msp m) ptr].
Proof.
  intros m ptr p.
  destruct (pcache_free_passes_base (A := Sample.bump) p ptr m) as [Hnull Hp].
  assert (H1 : p <> NULL) by (vm_compute; discriminate).
  assert (H2 : 0 <= ptr < SIZE_MOD) by (vm_compute; split; [discriminate | reflexivity]).
  destruct (Hp H1) as [Hrun Hbase].
  split; [exact Hnull|]. rewrite Hrun. cbn [final]. state_simpl.
  rewrite (Hbase H2 eq_refl). reflexivity.
Defined.

Lemma pcache_memsize_int_witness :
  let m := Sample.started 4096 in
  let o := pcache_malloc (A := Sample.bump) 1024 m in
  value 0 (pcache_memsize (value NULL o) (final o)) = 1024 + header_size.
Proof.
  intros m o.
  set (ptr := Sample.ARENA + 16).
  set (w := snd (mspace_malloc (Mspace := Sample.bump) (pcache_msp m)
                   (1024 + header_size) (mem m))).
  assert (H0 : 0 <= 1024) by lia.
  assert (H1 : 1024 + header_size <= SIZE_MAX) by (vm_compute; discriminate).
  assert (H2 : mspace_malloc (Mspace := Sample.bump) (pcache_msp m)
                 (1024 + header_size) (mem m) = (ptr, w))
    by (apply answer_of_call; vm_compute; reflexivity).
  assert (H3 : is_block w ptr (1024 + header_size) = true)
    by (vm_compute; reflexivity).
  destruct (pcache_memsize_int (A := Sample.bump) 1024 m ptr w H0 H1 H2 H3)
    as (m' & v & m'' & Hrun & _ & Hsize & _ & _ & Hfit & _).
  unfold o. rewrite Hrun. cbn [value final]. rewrite Hsize. cbn [value].
  apply Hfit. vm_compute. discriminate.
Defined.

(** * Further properties of the code *)

(** ** The rounding macro *)

Lemma land_mask8 (y : Z) :
  0 <= y < SIZE_MOD -> Z.land y (to_size_t (Z.lnot 7)) = 8 * (y / 8).
Proof.
  intros Hy. rewrite SIZE_MOD_eq in Hy.
  assert (Hl : Z.land y (Z.lnot 7) = 8 * (y / 8)).
  { change 7 with (Z.ones 3). rewrite <- Z.ldiff_land, Z.ldiff_ones_r by lia.
    rewrite Z.shiftl_mul_pow2, Z.shiftr_div_pow2 by lia.
    change (2 ^ 3) with 8. lia. }
  unfold to_size_t, SIZE_MOD, SIZE_BITS.
  rewrite <- (Z.land_ones (Z.lnot 7) 64) by lia.
  rewrite Z.land_assoc, Hl, Z.land_ones by lia.
  apply Z.mod_small.
  pose proof (Z.div_mod y 8 ltac:(lia)). pose proof (Z.mod_pos_bound y 8 ltac:(lia)).
  change (2 ^ 64) with 18446744073709551616. lia.
Qed.

(** X1.  [ROUND8] at type [size_t]: up to [SIZE_MAX - 7] it is the least
    multiple of 8 that is not below its argument, and it leaves multiples
    of 8 alone; for the last seven values of [size_t] the addition wraps
    and the result is [0]. *)
Theorem ROUND8_spec (x : Z) :
  0 <= x <= SIZE_MAX ->
  (x <= SIZE_MAX - 7 ->
     ROUND8 x = round_up x 8
     /\ ROUND8 x mod 8 = 0 /\ x <= ROUND8 x < x + 8
     /\ (x mod 8 = 0 -> ROUND8 x = x))
  /\ (SIZE_MAX - 7 < x -> ROUND8 x = 0).
Proof.
  intros Hx. unfold SIZE_MAX in *. rewrite SIZE_MOD_eq in *. split.
  - intros Hfit. unfold ROUND8, round_up.
    rewrite (to_size_t_id (x + 7)) by (rewrite SIZE_MOD_eq; lia).
    rewrite land_mask8 by (rewrite SIZE_MOD_eq; lia).
    replace (x + 8 - 1) with (x + 7) by lia.
    pose proof (Z.div_mod (x + 7) 8 ltac:(lia)) as Hd.
    pose proof (Z.mod_pos_bound (x + 7) 8 ltac:(lia)) as Hm.
    split; [lia|]. split.
    + rewrite Z.mul_comm. apply Z.mod_mul. lia.
    + split; [lia|]. intros Hx8.
      pose proof (Z.div_mod x 8 ltac:(lia)) as Hdx.
      assert (Hq : (x + 7) / 8 = x / 8).
      { symmetry. apply (Z.div_unique (x + 7) 8 (x / 8) 7); lia. }
      lia.
  - intros Hwrap. unfold ROUND8.
    assert (Hw : to_size_t (x + 7) = x + 7 - 18446744073709551616).
    { unfold to_size_t. rewrite SIZE_MOD_eq. symmetry.
      apply (Z.mod_unique (x + 7) _ 1); lia. }
    rewrite land_mask8 by (rewrite Hw, SIZE_MOD_eq; lia).
    rewrite Hw. rewrite Z.div_small by lia. reflexivity.
Qed.

Lemma ROUND8_spec_witness :
  ROUND8 13 = 16 /\ ROUND8 SIZE_MAX = 0.
Proof.
  assert (H : 0 <= 13 <= SIZE_MAX) by (vm_compute; split; discriminate).
  assert (H' : 0 <= SIZE_MAX <= SIZE_MAX) by (vm_compute; split; discriminate).
  destruct (ROUND8_spec 13 H) as [Hlow _].
  destruct (ROUND8_spec SIZE_MAX H') as [_ Hhigh].
  split.
  - destruct Hlow as [-> _]; [vm_compute; discriminate | reflexivity].
  - apply Hhigh. vm_compute. reflexivity.
Defined.

(** ** More on the guarded arena *)

Section ArenaMore.
Context {P : Platform}.

(** A reservation seen from one of its bytes. *)
Lemma reserved_byte (sz : Z) (m : machine) (a : Z) (m' : machine) :
  0 <= sz < SIZE_MOD ->
  mmap_impl sz m = Done a m' ->
  a <> MAP_FAILED ->
  let usable := Kernel.page_up sz in
  0 < a - getpagesize
  /\ a + usable + getpagesize <= Kernel.TASK_SIZE
  /\ (forall x, a - getpagesize <= x < a + usable + getpagesize ->
                vm (mem m) x = None)
  /\ (forall x bit, 0 <= bit <= 1 ->
                    a - getpagesize <= x < a + usable + getpagesize ->
                    may_access bit (mem m') x = in_range a usable x).
Proof.
  intros Hsz Hrun Hok usable. pose proof getpagesize_range as HP.
  destruct (mmap_impl_run sz m Hsz) as (a0 & m0 & Hrun0 & Hcase).
  rewrite Hrun in Hrun0. injection Hrun0 as <- <-.
  destruct Hcase as [Hf _ _ _ | base m1 m2 Hf _ _ _ _ _ _
                    | base m1 m2 Ha Hb Hal Htop _ _ Hfree Htr Hvm];
    try contradiction.
  fold usable in Htop, Hfree, Hvm.
  subst a. replace (base + getpagesize - getpagesize) with base by lia.
  split; [exact Hb|]. split; [lia|]. split.
  - intros x Hx. apply Hfree. lia.
  - intros x bit Hbit Hx. unfold may_access. rewrite Hvm.
    pose proof (page_up_bounds sz) as Hup. fold usable in Hup.
    assert (Hx0 : (0 <=? x) && (x <? SIZE_MOD) = true).
    { rewrite andb_true_iff, Z.leb_le, Z.ltb_lt.
      rewrite SIZE_MOD_eq. rewrite TASK_SIZE_eq in Htop. lia. }
    rewrite Hx0. cbn [andb].
    destruct (in_range (base + getpagesize) usable x) eqn:E.
    + assert (bit = 0 \/ bit = 1) as [-> | ->] by lia; reflexivity.
    + replace (in_range base (usable + 2 * getpagesize) x) with true
        by (symmetry; apply in_range_true; lia).
      apply Z.testbit_0_l.
Qed.

Lemma all_range_false (f : Z -> bool) (a len x : Z) :
  a <= x < a + len -> f x = false -> all_range f a len = false.
Proof.
  intros Hx Hf. destruct (all_range f a len) eqn:E; [|reflexivity].
  rewrite all_range_spec in E by lia. rewrite (E x Hx) in Hf. discriminate.
Qed.

(** X2.  The guard pages do their work, from the page boundary on.  After
    a successful [mmap_impl sz] that returned [a], the usable range is the
    pages that hold the [sz] bytes: a load or store of a [size_t] inside it
    goes through, and one that touches a byte of the page below [a] or of
    the page above the usable range is fatal.  The usable range ends at
    [a + sz] exactly when [sz] is a multiple of the page size; otherwise it
    goes on to the next page boundary, and an overrun is caught only from
    there. *)
Theorem guard_pages_trap (sz : Z) (m : machine) (a : Z) (m' : machine) (q v : Z) :
  0 <= sz < SIZE_MOD ->
  mmap_impl sz m = Done a m' ->
  a <> MAP_FAILED ->
  let usable := Kernel.page_up sz in
  (sz <= usable < sz + getpagesize
   /\ usable mod getpagesize = 0
   /\ (sz mod getpagesize = 0 -> usable = sz))
  /\ (a <= q /\ q + sizeof_size_t <= a + usable ->
      crashed (store_size_t q v m') = false
      /\ crashed (load_size_t q m') = false)
  /\ (a - getpagesize - sizeof_size_t < q < a
      \/ a + usable - sizeof_size_t < q < a + usable + getpagesize ->
      store_size_t q v m' = Segv m' /\ load_size_t q m' = Segv m').
Proof.
  intros Hsz Hrun Hok usable. pose proof getpagesize_range as HP.
  destruct (reserved_byte sz m a m' Hsz Hrun Hok) as (Hb & Htop & _ & Hacc).
  fold usable in Htop, Hacc.
  pose proof (page_up_bounds sz) as Hup. fold usable in Hup.
  split.
  { split; [exact Hup|]. split; [apply page_up_aligned | apply page_up_exact]. }
  change sizeof_size_t with 8 in *. split.
  - intros [Hlo Hhi].
    assert (Hall : forall bit, 0 <= bit <= 1 ->
                               all_range (may_access bit (mem m')) q 8 = true).
    { intros bit Hbit. apply all_range_spec; [lia|]. intros x Hx.
      rewrite (Hacc x bit Hbit) by lia. apply in_range_true. lia. }
    unfold store_size_t, load_size_t, writable, readable.
    change sizeof_size_t with 8.
    rewrite (Hall 0), (Hall 1) by lia. split; reflexivity.
  - intros Hq.
    assert (Hone : exists x, q <= x < q + 8
                             /\ a - getpagesize <= x < a + usable + getpagesize
                             /\ ~ (a <= x < a + usable)).
    { destruct Hq as [Hq | Hq].
      - exists (Z.max q (a - getpagesize)). lia.
      - exists (Z.max q (a + usable)). lia. }
    destruct Hone as (x & Hxq & Hxr & Hout).
    assert (Hall : forall bit, 0 <= bit <= 1 ->
                               all_range (may_access bit (mem m')) q 8 = false).
    { intros bit Hbit. apply (all_range_false _ q 8 x Hxq).
      rewrite (Hacc x bit Hbit Hxr). now apply in_range_false. }
    unfold store_size_t, load_size_t, writable, readable.
    change sizeof_size_t with 8.
    rewrite (Hall 0), (Hall 1) by lia. split; reflexivity.
Qed.

(** X3.  A size so large that [sz + 2*pagesize] wraps around in [size_t]
    is never served: [mmap_impl] returns [MAP_FAILED] and the address space
    is what it was, although the wrapped length may have been mapped for a
    moment. *)
Theorem mmap_impl_overflow (sz : Z) (m : machine) :
  0 <= sz < SIZE_MOD ->
  SIZE_MAX < sz + 2 * getpagesize ->
  exists m',
    mmap_impl sz m = Done MAP_FAILED m'
    /\ (forall x, vm (mem m') x = vm (mem m) x).
Proof.
  intros Hsz Hover. pose proof getpagesize_range as HP.
  destruct (mmap_impl_run sz m Hsz) as (a & m' & Hrun & Hcase).
  destruct Hcase as [-> _ _ Hmem | base m1 m2 -> _ _ _ _ _ Hvm
                    | base m1 m2 _ Hb _ Htop _ _ _ _ _].
  - exists m'. split; [assumption|]. intros x. now rewrite Hmem.
  - exists m'. split; assumption.
  - exfalso. pose proof (page_up_bounds sz) as Hup.
    unfold SIZE_MAX in Hover. rewrite SIZE_MOD_eq in Hover.
    rewrite TASK_SIZE_eq in Htop. lia.
Qed.

(** X4.  The size given to [munmap_impl] decides what is unmapped, in whole
    pages.  After a successful [mmap_impl sz] that returned [a],
    [munmap_impl a sz'] with [sz'] not above [sz] succeeds and unmaps the
    pages from one page below [a] to one page above the pages of [sz']
    bytes.  When [sz'] takes as many pages as [sz] the whole reservation is
    gone and the address space is what it was before the reservation; when
    it takes fewer, the pages above stay mapped as they were, the upper
    guard page among them. *)
Theorem munmap_impl_short (sz sz' : Z) (m : machine) (a : Z) (m1 : machine) :
  0 <= sz < SIZE_MOD ->
  mmap_impl sz m = Done a m1 ->
  a <> MAP_FAILED ->
  0 <= sz' <= sz ->
  let pages := Kernel.page_up sz in
  let pages' := Kernel.page_up sz' in
  exists m2,
    munmap_impl a sz' m1 = Done 0 m2
    /\ pages' <= pages
    /\ (forall x, a - getpagesize <= x < a + pages' + getpagesize ->
                  vm (mem m2) x = None)
    /\ (forall x, a + pages' + getpagesize <= x < a + pages + getpagesize ->
                  vm (mem m2) x = vm (mem m1) x /\ vm (mem m2) x <> None)
    /\ (forall x, ~ (a - getpagesize <= x < a + pages + getpagesize) ->
                  vm (mem m2) x = vm (mem m1) x)
    /\ (pages' = pages -> forall x, vm (mem m2) x = vm (mem m) x)
    /\ (pages' < pages ->
        forall x, a + pages <= x < a + pages + getpagesize ->
                  vm (mem m2) x = Some PROT_NONE /\ vm (mem m) x = None).
Proof.
  intros Hsz Hrun Hok Hshort pages pages'. pose proof getpagesize_range as HP.
  destruct (mmap_impl_run sz m Hsz) as (a0 & m0 & Hrun0 & Hcase).
  rewrite Hrun in Hrun0. injection Hrun0 as <- <-.
  destruct Hcase as [Hf _ _ _ | base m3 m4 Hf _ _ _ _ _ _
                    | base m3 m4 Ha Hb Hal Htop _ _ Hfree Htr Hvm];
    try contradiction.
  fold pages in Htop, Hfree, Hvm.
  pose proof (page_up_bounds sz) as Hup. fold pages in Hup.
  pose proof (page_up_bounds sz') as Hup'. fold pages' in Hup'.
  assert (Hmono : pages' <= pages) by now apply page_up_mono.
  subst a. unfold munmap_impl. rewrite pageSize_id, two_pages_id.
  replace (base + getpagesize - getpagesize) with base by lia.
  rewrite (to_size_t_id base)
    by (rewrite SIZE_MOD_eq; rewrite TASK_SIZE_eq in Htop; lia).
  rewrite (to_size_t_id (sz' + 2 * getpagesize))
    by (rewrite SIZE_MOD_eq; rewrite TASK_SIZE_eq in Htop; lia).
  rewrite munmap_cases by (first [assumption | lia]).
  eexists. split; [reflexivity|]. state_simpl. rewrite page_up_two.
  fold pages'. split; [exact Hmono|].
  assert (Hleft : forall x, base + getpagesize + pages' + getpagesize <= x
                            < base + getpagesize + pages + getpagesize ->
                            in_range base (pages' + 2 * getpagesize) x = false
                            /\ vm (mem m1) x <> None).
  { intros x Hx. split; [apply in_range_false; lia|]. rewrite Hvm.
    destruct (in_range (base + getpagesize) pages x); [discriminate|].
    replace (in_range base (pages + 2 * getpagesize) x) with true
      by (symmetry; apply in_range_true; lia).
    discriminate. }
  split; [|split; [|split; [|split]]].
  - intros x Hx.
    replace (in_range base (pages' + 2 * getpagesize) x) with true
      by (symmetry; apply in_range_true; lia).
    reflexivity.
  - intros x Hx. destruct (Hleft x Hx) as [-> Hm]. split; [reflexivity | exact Hm].
  - intros x Hx.
    replace (in_range base (pages' + 2 * getpagesize) x) with false
      by (symmetry; apply in_range_false; lia).
    reflexivity.
  - intros Heq x. rewrite Heq.
    destruct (in_range base (pages + 2 * getpagesize) x) eqn:E.
    + symmetry. apply Hfree. now apply in_range_true.
    + rewrite Hvm, E.
      replace (in_range (base + getpagesize) pages x) with false; [reflexivity|].
      symmetry. apply in_range_false. apply in_range_false in E. lia.
  - intros Hlt x Hx.
    pose proof (page_up_aligned sz) as Hal1. fold pages in Hal1.
    pose proof (page_up_aligned sz') as Hal2. fold pages' in Hal2.
    assert (Hstep : pages' + getpagesize <= pages).
    { assert (Hnz : getpagesize <> 0) by lia.
      pose proof (Z.div_mod pages getpagesize Hnz) as D1.
      pose proof (Z.div_mod pages' getpagesize Hnz) as D2.
      rewrite Hal1 in D1. rewrite Hal2 in D2.
      set (n := pages / getpagesize) in *. set (n' := pages' / getpagesize) in *.
      assert (Hn : n' < n).
      { apply (Z.mul_lt_mono_pos_l getpagesize); lia. }
      assert (Hm : getpagesize * (n' + 1) <= getpagesize * n)
        by (apply Z.mul_le_mono_nonneg_l; lia).
      lia. }
    replace (in_range base (pages' + 2 * getpagesize) x) with false
      by (symmetry; apply in_range_false; lia).
    split; [|apply Hfree; lia]. rewrite Hvm.
    replace (in_range (base + getpagesize) pages x) with false
      by (symmetry; apply in_range_false; lia).
    replace (in_range base (pages + 2 * getpagesize) x) with true
      by (symmetry; apply in_range_true; lia).
    reflexivity.
Qed.

(** X5.  The configuration's [mmap_impl] maps the pages that hold the [sz]
    bytes it is asked for and nothing around them: no guard pages.  When
    it succeeds, the pages from the returned address were free and are now
    readable and writable, every other byte is as before, and under
    [__ANDROID__] the range is named; when it fails, it returns
    [MAP_FAILED], names nothing and changes nothing. *)
Theorem cfg_mmap_impl_plain (sz : Z) (m : machine) :
  let pages := Kernel.page_up sz in
  exists a m',
    Cfg.mmap_impl sz m = Done a m'
    /\ (a <> MAP_FAILED ->
        0 < sz
        /\ (sz <= pages < sz + getpagesize /\ pages mod getpagesize = 0)
        /\ a mod getpagesize = 0
        /\ trace m' =
             trace m ++
             EvMmap NULL sz (Z.lor PROT_READ PROT_WRITE)
                    (Z.lor MAP_PRIVATE MAP_ANONYMOUS) (-1) 0 a
             :: Cfg.label a sz
        /\ (forall x, a <= x < a + pages ->
                      vm (mem m) x = None
                      /\ vm (mem m') x = Some (Z.lor PROT_READ PROT_WRITE))
        /\ (forall x, ~ (a <= x < a + pages) -> vm (mem m') x = vm (mem m) x))
    /\ (a = MAP_FAILED ->
        trace m' =
          trace m ++
          [EvMmap NULL sz (Z.lor PROT_READ PROT_WRITE)
                  (Z.lor MAP_PRIVATE MAP_ANONYMOUS) (-1) 0 MAP_FAILED]
        /\ (forall x, vm (mem m') x = vm (mem m) x)).
Proof.
  intros pages. unfold Cfg.mmap_impl, Cfg.label. unfold bind at 1.
  destruct (mmap_cases NULL sz (Z.lor PROT_READ PROT_WRITE)
              (Z.lor MAP_PRIVATE MAP_ANONYMOUS) (-1) 0 m)
    as [(base & -> & HL & Hb & Hal & Htop & Hfree) | ->].
  - fold pages in Htop, Hfree.
    pose proof (page_up_bounds sz) as Hup. fold pages in Hup.
    pose proof (page_up_aligned sz) as Hpa. fold pages in Hpa.
    assert (Hbm : base <> MAP_FAILED).
    { rewrite MAP_FAILED_eq. rewrite TASK_SIZE_eq in Htop. lia. }
    replace (base =? MAP_FAILED) with false by (symmetry; now apply Z.eqb_neq).
    cbn [negb].
    destruct ANDROID; unfold bind, ret, Kernel.prctl;
      (eexists _, _; split; [reflexivity|]); (split; [intros _ | intros E; contradiction]);
      state_simpl; rewrite <- ?app_assoc; fold pages;
      (split; [exact HL|]); (split; [split; assumption|]); (split; [exact Hal|]);
      (split; [reflexivity|]); split; intros x Hx.
    all: try (replace (in_range base pages x) with true
                by (symmetry; now apply in_range_true);
              split; [now apply Hfree | reflexivity]).
    all: replace (in_range base pages x) with false
           by (symmetry; now apply in_range_false); reflexivity.
  - rewrite Z.eqb_refl. cbn [negb].
    destruct ANDROID; unfold bind, ret;
      (eexists _, _; split; [reflexivity|]);
      (split; [intros E; now contradiction E | intros _]);
      state_simpl; split; reflexivity.
Qed.

(** X6.  [Cfg.munmap_impl] on what [Cfg.mmap_impl] returned, with the
    same size, is one [munmap] of exactly the mapped range and gives the
    address space back as it was. *)
Theorem cfg_round_trip (sz : Z) (m : machine) (a : Z) (m1 : machine) :
  Cfg.mmap_impl sz m = Done a m1 ->
  a <> MAP_FAILED ->
  exists m2,
    Cfg.munmap_impl a sz m1 = Done 0 m2
    /\ trace m2 = trace m1 ++ [EvMunmap a sz 0]
    /\ (forall x, vm (mem m2) x = vm (mem m) x).
Proof.
  intros Hrun Hok. unfold Cfg.mmap_impl in Hrun. unfold bind at 1 in Hrun.
  destruct (mmap_cases NULL sz (Z.lor PROT_READ PROT_WRITE)
              (Z.lor MAP_PRIVATE MAP_ANONYMOUS) (-1) 0 m)
    as [(base & E & HL & Hb & Hal & Htop & Hfree) | E]; rewrite E in Hrun.
  - pose proof (page_up_bounds sz) as Hup.
    assert (Hbm : base <> MAP_FAILED).
    { rewrite MAP_FAILED_eq. rewrite TASK_SIZE_eq in Htop. lia. }
    replace (base =? MAP_FAILED) with false in Hrun
      by (symmetry; now apply Z.eqb_neq).
    cbn [negb] in Hrun.
    assert (Hshape : a = base
                     /\ (forall x, vm (mem m1) x =
                                   if in_range base (Kernel.page_up sz) x
                                   then Some (Z.lor PROT_READ PROT_WRITE)
                                   else vm (mem m) x)).
    { destruct ANDROID; unfold bind, ret, Kernel.prctl in Hrun;
        injection Hrun as <- <-; split; reflexivity. }
    destruct Hshape as [-> Hvm].
    unfold Cfg.munmap_impl. rewrite munmap_cases by (first [assumption | lia]).
    eexists. split; [reflexivity|]. state_simpl.
    split; [reflexivity|]. intros x. rewrite Hvm.
    destruct (in_range base (Kernel.page_up sz) x) eqn:Ex; [|reflexivity].
    symmetry. apply Hfree. now apply in_range_true.
  - rewrite Z.eqb_refl in Hrun. cbn [negb] in Hrun.
    destruct ANDROID; unfold bind, ret in Hrun; injection Hrun as <- _;
      contradiction.
Qed.

End ArenaMore.

(** ** More on the public entry points *)

Section PCacheMore.
Context {A : Mspace}.

Lemma pcache_malloc_zero_ok (sz : Z) (m : machine) (ptr : Z) (w : world) :
  0 <= sz -> sz + header_size <= SIZE_MAX ->
  mspace_calloc (pcache_msp m) (sz + header_size) 1 (mem m) = (ptr, w) ->
  is_block w ptr (sz + header_size) = true ->
  let e := EvCalloc (pcache_msp m) (sz + header_size) 1 ptr in
  let m' := recorded e w ptr (sz + header_size) m in
  pcache_malloc_zero sz m = Done (ptr + header_size) m'
  /\ pcache_memsize (ptr + header_size) m' =
       Done (to_int (sz + header_size)) (emit (EvLoad ptr (sz + header_size)) m').
Proof.
  intros Hsz Hmax Hcall Hblock e m'.
  assert (Hn : 0 <= sz + header_size < SIZE_MOD).
  { unfold SIZE_MAX in Hmax. rewrite header_size_eq. rewrite header_size_eq in Hmax. lia. }
  assert (Hid : to_size_t (sz + header_size) = sz + header_size)
    by now apply to_size_t_id.
  destruct (block_header w ptr (sz + header_size) ltac:(lia) Hblock)
    as (Hp & Htop & Hr & Hw & Hret & _).
  split.
  - rewrite (pcache_malloc_zero_run sz m ptr w) by (rewrite Hid; exact Hcall).
    cbv zeta. rewrite Hid, Hw, Hret. reflexivity.
  - apply recorded_header; try assumption; try lia.
    rewrite SIZE_MOD_eq. rewrite TASK_SIZE_eq in Htop. rewrite header_size_eq in *. lia.
Qed.

Lemma pcache_free_run (p : Z) (m : machine) :
  p <> NULL ->
  pcache_free p m =
    Done tt (emit (EvFree (pcache_msp m) (to_size_t (p - header_size)))
                  (set_mem (mspace_free (pcache_msp m)
                                        (to_size_t (p - header_size)) (mem m))
                           m)).
Proof.
  intros Hp. unfold pcache_free.
  replace (p =? NULL) with false by (symmetry; now apply Z.eqb_neq).
  reflexivity.
Qed.

Lemma free_of_recorded (e : event) (w : world) (ptr n : Z) (m : machine) :
  0 < ptr -> ptr + header_size < SIZE_MOD ->
  pcache_free (ptr + header_size) (recorded e w ptr n m) =
    Done tt (emit (EvFree (pcache_msp m) ptr)
                  (set_mem (mspace_free (pcache_msp m) ptr (poke w ptr n))
                           (recorded e w ptr n m))).
Proof.
  intros Hp Htop. rewrite pcache_free_run by (unfold NULL; rewrite header_size_eq; lia).
  replace (ptr + header_size - header_size) with ptr by lia.
  rewrite to_size_t_id by (rewrite header_size_eq in Htop; lia).
  reflexivity.
Qed.

(** X7.  Allocation and release pair up.  When [pcache_malloc sz] has
    succeeded on the block at [ptr], [pcache_free] of the pointer it
    returned calls [mspace_free] once, on the same space and with [ptr]
    itself; the three steps logged are the allocation, the header store
    and that release. *)
Theorem pcache_free_after_malloc (sz : Z) (m : machine) (ptr : Z) (w : world) :
  0 <= sz -> sz + header_size <= SIZE_MAX ->
  mspace_malloc (pcache_msp m) (sz + header_size) (mem m) = (ptr, w) ->
  is_block w ptr (sz + header_size) = true ->
  exists p m' m'',
    pcache_malloc sz m = Done p m'
    /\ pcache_free p m' = Done tt m''
    /\ trace m'' = trace m ++ [EvMalloc (pcache_msp m) (sz + header_size) ptr;
                               EvStore ptr (sz + header_size);
                               EvFree (pcache_msp m) ptr]
    /\ mem m'' = mspace_free (pcache_msp m) ptr (mem m').
Proof.
  intros Hsz Hmax Hcall Hblock.
  destruct (pcache_malloc_ok sz m ptr w Hsz Hmax Hcall Hblock) as [Hrun _].
  destruct (block_header w ptr (sz + header_size)
              ltac:(rewrite header_size_eq; lia) Hblock)
    as (Hp & Htop & _ & _ & _ & _).
  eexists _, _, _. split; [exact Hrun|]. split.
  - apply free_of_recorded; [exact Hp|].
    rewrite SIZE_MOD_eq. rewrite TASK_SIZE_eq in Htop. rewrite header_size_eq in *. lia.
  - split; [|reflexivity]. state_simpl.
    rewrite trace_recorded, <- app_assoc. reflexivity.
Qed.

(** X8.  [pcache_malloc] touches nothing but its header.  After a
    successful call, every byte outside the first [header_size] bytes of the
    block holds what the underlying allocator left there, the protection of
    every byte is what the allocator left, and [pcache_msp] is unchanged. *)
Theorem pcache_malloc_frame (sz : Z) (m : machine) (ptr : Z) (w : world) :
  0 <= sz -> sz + header_size <= SIZE_MAX ->
  mspace_malloc (pcache_msp m) (sz + header_size) (mem m) = (ptr, w) ->
  is_block w ptr (sz + header_size) = true ->
  exists m',
    pcache_malloc sz m = Done (ptr + header_size) m'
    /\ (forall x, ~ (ptr <= x < ptr + header_size) ->
                  ram (mem m') x = ram w x)
    /\ (forall x, vm (mem m') x = vm w x)
    /\ pcache_msp m' = pcache_msp m.
Proof.
  intros Hsz Hmax Hcall Hblock.
  destruct (pcache_malloc_ok sz m ptr w Hsz Hmax Hcall Hblock) as [Hrun _].
  eexists. split; [exact Hrun|]. rewrite mem_recorded. split.
  - intros x Hx. apply ram_poke_outside.
    change sizeof_size_t with 8. rewrite header_size_eq in Hx. lia.
  - split; reflexivity.
Qed.

(** X9.  A zeroed allocation is recorded like a plain one.  After a
    successful [pcache_malloc_zero sz], [pcache_memsize] of the returned
    pointer is [sz + header_size] converted to [int], and [pcache_free] of
    it hands the block at [ptr] back to the space it came from. *)
Theorem pcache_malloc_zero_size_and_free (sz : Z) (m : machine) (ptr : Z) (w : world) :
  0 <= sz -> sz + header_size <= SIZE_MAX ->
  mspace_calloc (pcache_msp m) (sz + header_size) 1 (mem m) = (ptr, w) ->
  is_block w ptr (sz + header_size) = true ->
  exists p m' m1 m2,
    pcache_malloc_zero sz m = Done p m'
    /\ pcache_memsize p m' = Done (to_int (sz + header_size)) m1
    /\ (sz + header_size <= INT_MAX -> to_int (sz + header_size) - header_size = sz)
    /\ pcache_free p m' = Done tt m2
    /\ trace m2 = trace m' ++ [EvFree (pcache_msp m) ptr].
Proof.
  intros Hsz Hmax Hcall Hblock.
  destruct (pcache_malloc_zero_ok sz m ptr w Hsz Hmax Hcall Hblock) as [Hrun Hsize].
  destruct (block_header w ptr (sz + header_size)
              ltac:(rewrite header_size_eq; lia) Hblock)
    as (Hp & Htop & _ & _ & _ & _).
  eexists _, _, _, _. split; [exact Hrun|]. split; [exact Hsize|]. split.
  - intros Hint. rewrite to_int_fits; [lia|]. rewrite header_size_eq in *. lia.
  - split.
    + apply free_of_recorded; [exact Hp|].
      rewrite SIZE_MOD_eq. rewrite TASK_SIZE_eq in Htop. rewrite header_size_eq in *. lia.
    + reflexivity.
Qed.

(** X10.  [pcache_meminit] asks for a space of default capacity without a
    lock of its own ([create_mspace(0, 0)]) and keeps whatever comes back,
    [NULL] included; the next [pcache_malloc] is sent to that handle. *)
Theorem pcache_meminit_then_malloc (sz : Z) (m : machine) :
  let created := create_mspace 0 0 (mem m) in
  let msp := fst created in
  exists m1,
    pcache_meminit m = Done tt m1
    /\ pcache_msp m1 = msp
    /\ mem m1 = snd created
    /\ trace m1 = trace m ++ [EvCreate 0 0 msp]
    /\ exists p rest,
        trace (final (pcache_malloc sz m1)) =
          trace m1 ++ EvMalloc msp (to_size_t (sz + header_size)) p :: rest
        /\ p = fst (mspace_malloc msp (to_size_t (sz + header_size)) (mem m1)).
Proof.
  intros created msp. unfold pcache_meminit, bind, call_create_mspace, put_pcache_msp.
  fold created. destruct created as [c w] eqn:Ec. subst msp. cbn [fst snd].
  eexists. split; [reflexivity|]. state_simpl.
  split; [reflexivity|]. split; [reflexivity|]. split; [reflexivity|].
  match goal with |- context [pcache_malloc sz ?t] => set (m1 := t) end.
  destruct (mspace_malloc c (to_size_t (sz + header_size)) w) as [p w'] eqn:Em.
  exists p. rewrite (pcache_malloc_run sz m1 p w') by exact Em.
  cbv zeta. cbn [fst].
  destruct (writable w' p sizeof_size_t).
  - exists [EvStore p (to_size_t (sz + header_size))]. split; [|reflexivity].
    cbn [final]. rewrite trace_recorded. reflexivity.
  - exists []. split; [|reflexivity]. cbn [final]. reflexivity.
Qed.

(** X11.  [pcache_memdeinit] destroys the space but leaves its handle in
    [pcache_msp]: an allocation made afterwards is still sent to the
    destroyed space. *)
Theorem pcache_memdeinit_keeps_handle (sz : Z) (m : machine) :
  exists m1,
    pcache_memdeinit m = Done tt m1
    /\ pcache_msp m1 = pcache_msp m
    /\ mem m1 = snd (destroy_mspace (pcache_msp m) (mem m))
    /\ trace m1 = trace m ++ [EvDestroy (pcache_msp m)]
    /\ exists p rest,
        trace (final (pcache_malloc sz m1)) =
          trace m1 ++ EvMalloc (pcache_msp m) (to_size_t (sz + header_size)) p
                      :: rest.
Proof.
  unfold pcache_memdeinit, bind, get_pcache_msp, call_destroy_mspace, ret.
  destruct (destroy_mspace (pcache_msp m) (mem m)) as [freed w] eqn:Ed.
  eexists. split; [reflexivity|]. state_simpl. cbn [snd].
  split; [reflexivity|]. split; [reflexivity|]. split; [reflexivity|].
  match goal with |- context [pcache_malloc sz ?t] => set (m1 := t) end.
  destruct (mspace_malloc (pcache_msp m) (to_size_t (sz + header_size)) w)
    as [p w'] eqn:Em.
  exists p. rewrite (pcache_malloc_run sz m1 p w') by exact Em.
  cbv zeta.
  destruct (writable w' p sizeof_size_t).
  - eexists. cbn [final]. rewrite trace_recorded. reflexivity.
  - exists []. reflexivity.
Qed.

(** X12.  A failed underlying allocation is not noticed.  When
    [mspace_malloc] (for [pcache_malloc]) or [mspace_calloc] (for
    [pcache_malloc_zero]) answers [NULL], the entry point still stores the
    size at the address it was given: the process is killed there when the
    first word of memory is not writable, and otherwise the call returns
    [header_size], never [NULL]. *)
Theorem allocation_failure_unnoticed (sz : Z) (m : machine) (w w0 : world) :
  mspace_malloc (pcache_msp m) (to_size_t (sz + header_size)) (mem m) = (NULL, w) ->
  mspace_calloc (pcache_msp m) (to_size_t (sz + header_size)) 1 (mem m) = (NULL, w0) ->
  (writable w NULL sizeof_size_t = false ->
     crashed (pcache_malloc sz m) = true)
  /\ (writable w NULL sizeof_size_t = true ->
      exists m', pcache_malloc sz m = Done header_size m'
                 /\ existsb (is_store_at NULL) (trace m') = true)
  /\ (writable w0 NULL sizeof_size_t = false ->
      crashed (pcache_malloc_zero sz m) = true)
  /\ (writable w0 NULL sizeof_size_t = true ->
      exists m', pcache_malloc_zero sz m = Done header_size m'
                 /\ existsb (is_store_at NULL) (trace m') = true)
  /\ pcache_malloc sz m <> Done NULL m
  /\ pcache_malloc_zero sz m <> Done NULL m.
Proof.
  intros Hm Hc.
  rewrite (pcache_malloc_run sz m NULL w Hm).
  rewrite (pcache_malloc_zero_run sz m NULL w0 Hc). cbv zeta.
  assert (Hst : forall e wx, existsb (is_store_at NULL)
                    (trace (recorded e wx NULL (to_size_t (sz + header_size)) m)) = true).
  { intros e wx. rewrite trace_recorded, existsb_app. cbn.
    rewrite !orb_true_r. reflexivity. }
  repeat split.
  - intros ->. reflexivity.
  - intros ->. eexists. split; [reflexivity | apply Hst].
  - intros ->. reflexivity.
  - intros ->. eexists. split; [reflexivity | apply Hst].
  - destruct (writable w NULL sizeof_size_t); discriminate.
  - destruct (writable w0 NULL sizeof_size_t); discriminate.
Qed.

End PCacheMore.

(** ** The database handle *)

Module HandleFacts.
Import Handle.

Section HandleFacts.
Context {E : Engine}.

Lemma same_private_refl (h : Handle) : same_private h h.
Proof. repeat split. Qed.

Lemma same_private_trans (h1 h2 h3 : Handle) :
  same_private h1 h2 -> same_private h2 h3 -> same_private h1 h3.
Proof.
  unfold same_private. intros (A1 & A2 & A3 & A4) (B1 & B2 & B3 & B4).
  repeat split; congruence.
Qed.

(** [executeSQL] as seen from this file: an answer, one journal entry, and
    whatever the statement reached. *)
Lemma executeSQL_effect (sql : string) (h : Handle) :
  exists b r, executeSQL sql h = (b, note (Executed sql b) (reached r h)).
Proof.
  unfold executeSQL.
  destruct (HandleStatement_prepare sql HandleStatement_new h) as [[prepared s1] r1].
  destruct prepared.
  - destruct (HandleStatement_step s1 (reached r1 h)) as [[stepped s2] r2].
    destruct (HandleStatement_finalize s2 (reached r2 (reached r1 h))) as [s3 r3].
    eexists _, _. reflexivity.
  - destruct (HandleStatement_finalize s1 (reached r1 h)) as [s3 r3].
    eexists _, _. reflexivity.
Qed.

Lemma executeSQL_frame (sql : string) (h : Handle) :
  let out := executeSQL sql h in
  same_private h (snd out)
  /\ m_nestedLevel (snd out) = m_nestedLevel h
  /\ journal (snd out) = journal h ++ [Executed sql (fst out)].
Proof.
  destruct (executeSQL_effect sql h) as (b & r & ->). cbn.
  unfold same_private. cbn. repeat split.
Qed.


(** *** Result codes *)

Lemma isError_spec (rc : Z) :
  isError rc = false <-> rc = SQLITE_OK \/ rc = SQLITE_ROW \/ rc = SQLITE_DONE.
Proof.
  unfold isError.
  destruct (Z.eqb_spec rc SQLITE_OK), (Z.eqb_spec rc SQLITE_ROW),
    (Z.eqb_spec rc SQLITE_DONE); cbn; intuition congruence.
Qed.

Lemma exitAPI_level (rc : Z) (sql : option string) (h : Handle) :
  isError rc = true ->
  exists e,
    exitAPI rc sql h = (false, notify e (set_error e h))
    /\ level e = (if existsb (Z.eqb rc) (m_ignorableCodes h)
                  then LevelIgnore else LevelError).
Proof.
  intros Hrc. unfold exitAPI. rewrite Hrc. cbn [negb].
  unfold hbind, notifyError, hret. eexists. split; [reflexivity|].
  destruct (rc =? SQLITE_MISUSE), (existsb (Z.eqb rc) (m_ignorableCodes h));
    reflexivity.
Qed.

(** X13.  [exitAPI] lets [SQLITE_OK], [SQLITE_ROW] and [SQLITE_DONE]
    through: it answers [true] and the handle is untouched.  Every other
    code is answered [false] and reported exactly once; the report carries
    the code, the SQL text, level [Ignore] exactly when the code is in the
    list of ignorable codes, the connection's extended code and message,
    or, for [SQLITE_MISUSE], the code itself and no message; the
    settings already in [infos] are kept. *)
Theorem exitAPI_reports (rc : Z) (sql : option string) (h : Handle) :
  (isError rc = false -> exitAPI rc sql h = (true, h))
  /\ (isError rc = true ->
      exists e,
        exitAPI rc sql h = (false, notify e (set_error e h))
        /\ code e = rc
        /\ level e = (if existsb (Z.eqb rc) (m_ignorableCodes h)
                      then LevelIgnore else LevelError)
        /\ extendedCode e = (if rc =? SQLITE_MISUSE then rc
                             else sqlite3_extended_errcode (db h))
        /\ message e = (if rc =? SQLITE_MISUSE then None
                        else Some (sqlite3_errmsg (db h)))
        /\ infos e = ("SQL"%string, sql) :: infos (m_error h)).
Proof.
  unfold exitAPI. split; intros Hrc; rewrite Hrc; cbn [negb].
  - reflexivity.
  - unfold hbind, notifyError, hret.
    eexists. split; [reflexivity|].
    destruct (rc =? SQLITE_MISUSE), (existsb (Z.eqb rc) (m_ignorableCodes h));
      cbn; repeat split; reflexivity.
Qed.

Lemma In_existsb_eqb (c : Z) (l : list Z) : existsb (Z.eqb c) l = true <-> In c l.
Proof.
  rewrite existsb_exists. split.
  - intros (x & Hx & Hxc). apply Z.eqb_eq in Hxc. now subst x.
  - intros H. exists c. split; [exact H | apply Z.eqb_refl].
Qed.

(** X14.  The list of ignorable codes is a stack around a call.  Between
    [markErrorAsIgnorable c] and [markErrorAsUnignorable] an error [c] is
    reported at level [Ignore]; afterwards the list is what it was before
    the pair, and the same error is reported at level [Error] again unless
    [c] was ignorable before. *)
Theorem ignorable_window (c : Z) (sql : option string) (h : Handle) :
  isError c = true ->
  let h1 := snd (markErrorAsIgnorable c h) in
  let h2 := snd (exitAPI c sql h1) in
  let h3 := snd (markErrorAsUnignorable h2) in
  let h4 := snd (exitAPI c sql h3) in
  m_ignorableCodes h3 = m_ignorableCodes h
  /\ exists e1 e2,
      notified h4 = notified h ++ [e1; e2]
      /\ level e1 = LevelIgnore
      /\ level e2 = (if existsb (Z.eqb c) (m_ignorableCodes h)
                     then LevelIgnore else LevelError).
Proof.
  intros Hc h1 h2 h3 h4.
  destruct (exitAPI_level c sql h1 Hc) as (e1 & R1 & L1).
  destruct (exitAPI_level c sql h3 Hc) as (e2 & R2 & L2).
  assert (Hl3 : m_ignorableCodes h3 = m_ignorableCodes h).
  { unfold h3, h2. rewrite R1. cbn. apply removelast_last. }
  split; [exact Hl3|]. exists e1, e2. split.
  - unfold h4. rewrite R2. cbn. unfold h3, h2. rewrite R1. cbn.
    now rewrite <- app_assoc.
  - split.
    + rewrite L1. cbn. rewrite existsb_app. cbn. rewrite Z.eqb_refl.
      now rewrite orb_true_r.
    + rewrite L2, Hl3. reflexivity.
Qed.

(** *** Transactions *)

Lemma rollbackTransaction_effect (h : Handle) :
  exists r rest,
    rollbackTransaction h = (tt, r)
    /\ same_private h r /\ m_nestedLevel r = 0
    /\ journal r = journal h ++ rest
    /\ ((sqlite3_get_autocommit (db h) =? 0) = false -> rest = [])
    /\ ((sqlite3_get_autocommit (db h) =? 0) = true ->
        exists b, rest = [Executed (getDescription Rollback) b]).
Proof.
  unfold rollbackTransaction, hbind, isInTransaction, hret. cbn [db set_level].
  destruct (sqlite3_get_autocommit (db h) =? 0) eqn:Ea.
  - destruct (executeSQL_effect (getDescription Rollback) (set_level 0 h))
      as (b & r & ->).
    eexists _, _. split; [reflexivity|]. cbn. unfold same_private. cbn.
    repeat split; try discriminate. intros _. exists b. reflexivity.
  - eexists _, []. split; [reflexivity|]. cbn. unfold same_private. cbn.
    rewrite app_nil_r. repeat split; try discriminate.
Qed.

Lemma commitOrRollbackTransaction_level (h : Handle) :
  m_nestedLevel (snd (commitOrRollbackTransaction h)) = 0
  /\ same_private h (snd (commitOrRollbackTransaction h)).
Proof.
  unfold commitOrRollbackTransaction, hbind.
  destruct (executeSQL_effect (getDescription Commit) h) as (committed & rc & ->).
  destruct committed; cbn [negb].
  - cbn. unfold same_private. cbn. repeat split.
  - destruct (rollbackTransaction_effect (note (Executed (getDescription Commit) false)
                                             (reached rc h)))
      as (r' & rest' & -> & Hp' & Hl' & _).
    unfold hret. cbn [snd]. split; [exact Hl'|].
    destruct Hp' as (A1 & A2 & A3 & A4). unfold same_private.
    rewrite A1, A2, A3, A4. cbn. repeat split.
Qed.

(** X15.  Ending a transaction always resets the nesting level.  After
    [rollbackTransaction], and after [commitOrRollbackTransaction] whether
    the [COMMIT] went through or not, [m_nestedLevel] is [0].
    [commitOrRollbackTransaction] answers what the [COMMIT] answered; after
    a failed [COMMIT] it executes a [ROLLBACK] when the connection is still
    in a transaction and nothing otherwise. *)
Theorem transaction_end_resets_level (h : Handle) :
  m_nestedLevel (snd (rollbackTransaction h)) = 0
  /\ same_private h (snd (rollbackTransaction h))
  /\ exists committed h1 rest,
      executeSQL (getDescription Commit) h = (committed, h1)
      /\ fst (commitOrRollbackTransaction h) = committed
      /\ m_nestedLevel (snd (commitOrRollbackTransaction h)) = 0
      /\ same_private h (snd (commitOrRollbackTransaction h))
      /\ journal (snd (commitOrRollbackTransaction h)) =
           journal h ++ Executed (getDescription Commit) committed :: rest
      /\ (committed = true -> rest = [])
      /\ (committed = false ->
          if sqlite3_get_autocommit (db h1) =? 0
          then exists b, rest = [Executed (getDescription Rollback) b]
          else rest = []).
Proof.
  destruct (rollbackTransaction_effect h) as (r & rest & -> & Hp & Hl & _).
  split; [exact Hl|]. split; [exact Hp|].
  unfold commitOrRollbackTransaction, hbind.
  destruct (executeSQL_effect (getDescription Commit) h) as (committed & rc & Ec).
  rewrite Ec. set (h1 := note _ (reached rc h)).
  exists committed, h1. destruct committed; cbn [negb].
  - exists []. cbn. unfold same_private. cbn.
    repeat split; try discriminate.
  - destruct (rollbackTransaction_effect h1)
      as (r' & rest' & -> & Hp' & Hl' & Hj & Hno & Hyes).
    exists rest'. unfold hret. cbn [fst snd].
    split; [reflexivity|]. split; [reflexivity|]. split; [exact Hl'|]. split.
    + apply (same_private_trans h h1 r'); [|exact Hp'].
      unfold h1, same_private. cbn. repeat split.
    + split.
      * rewrite Hj. unfold h1. cbn. now rewrite <- app_assoc.
      * split; [discriminate|]. intros _.
        destruct (sqlite3_get_autocommit (db h1) =? 0); [now apply Hyes | now apply Hno].
Qed.

Lemma to_int_succ_pred (n : Z) :
  0 <= n < INT_MAX -> to_int (n + 1) = n + 1 /\ to_int (n + 1 - 1) = n.
Proof.
  intros Hn. change INT_MAX with 2147483647 in Hn.
  split; (rewrite to_int_fits; [lia | change INT_MAX with 2147483647; lia]).
Qed.

(** X16.  A nested transaction is closed on the savepoint it opened.
    Inside a transaction, without lazy nesting and at level [n],
    [beginNestedTransaction] raises the level to [n + 1] and executes
    [SAVEPOINT WCDBSavepoint_(n+1)]; [commitOrRollbackNestedTransaction]
    then executes [RELEASE] of that same savepoint, after a failed release
    also [ROLLBACK TO] it, answers whether the release succeeded, and
    brings the level back to [n] in either case. *)
Theorem nested_commit_balanced (h : Handle) (n : Z) :
  m_nestedLevel h = n -> 0 <= n < INT_MAX ->
  m_lazyNestedTransaction h = false ->
  sqlite3_get_autocommit (db h) = 0 ->
  let name := getSavepointName (n + 1) in
  let began := beginNestedTransaction h in
  let ended := commitOrRollbackNestedTransaction (snd began) in
  m_nestedLevel (snd began) = n + 1
  /\ m_nestedLevel (snd ended) = n
  /\ same_private h (snd ended)
  /\ exists released rest,
      journal (snd ended) =
        journal h ++ Executed (getDescription (Savepoint name)) (fst began)
                     :: Executed (getDescription (Release name)) released
                     :: rest
      /\ fst ended = released
      /\ (released = true -> rest = [])
      /\ (released = false ->
          exists b, rest = [Executed (getDescription (RollbackToSavepoint name)) b]).
Proof.
  intros Hn Hrange Hlazy Hauto name began ended.
  destruct (to_int_succ_pred n Hrange) as [Hup Hdown].
  assert (Hbegan : exists b r,
             began = (b, note (Executed (getDescription (Savepoint name)) b)
                           (reached r (set_level (n + 1) h)))).
  { unfold began, beginNestedTransaction, hbind, isInTransaction.
    rewrite Hauto. cbn [Z.eqb]. cbv beta iota. rewrite Hlazy. cbn [negb].
    cbn [m_nestedLevel set_level]. rewrite Hn, Hup. unfold executeStatement.
    destruct (executeSQL_effect (getDescription (Savepoint (getSavepointName (n + 1))))
                (set_level (n + 1) h)) as (b & r & ->).
    now exists b, r. }
  destruct Hbegan as (b & r & Eb).
  unfold ended. rewrite Eb. cbn [fst snd].
  set (h1 := note _ (reached r (set_level (n + 1) h))).
  split; [reflexivity|].
  unfold commitOrRollbackNestedTransaction.
  assert (Hl1 : m_nestedLevel h1 = n + 1) by reflexivity.
  assert (Hz1 : m_lazyNestedTransaction h1 = false) by exact Hlazy.
  rewrite Hl1, Hz1.
  replace (n + 1 =? 0) with false by (symmetry; apply Z.eqb_neq; lia).
  cbn [negb]. fold name. unfold hbind, executeStatement.
  destruct (executeSQL_effect (getDescription (Release name)) h1)
    as (released & r2 & ->).
  set (h2 := note _ (reached r2 h1)).
  destruct released; cbn [negb].
  - unfold hret. cbn [fst snd].
    split; [cbn; rewrite Hdown; reflexivity|]. split.
    + unfold same_private. cbn. repeat split.
    + exists true, []. cbn. rewrite <- app_assoc.
      repeat split; try discriminate.
  - destruct (executeSQL_effect (getDescription (RollbackToSavepoint name)) h2)
      as (b3 & r3 & ->).
    unfold hret. cbn [fst snd].
    split; [cbn; rewrite Hdown; reflexivity|]. split.
    + unfold same_private. cbn. repeat split.
    + exists false, [Executed (getDescription (RollbackToSavepoint name)) b3].
      cbn. rewrite <- !app_assoc.
      repeat split; try discriminate. intros _. now exists b3.
Qed.

(** X17.  The same for giving a nested transaction up:
    [rollbackNestedTransaction] after [beginNestedTransaction] executes
    [ROLLBACK TO] the savepoint that was opened, and nothing else, and
    brings the level back to [n]. *)
Theorem nested_rollback_balanced (h : Handle) (n : Z) :
  m_nestedLevel h = n -> 0 <= n < INT_MAX ->
  m_lazyNestedTransaction h = false ->
  sqlite3_get_autocommit (db h) = 0 ->
  let name := getSavepointName (n + 1) in
  let began := beginNestedTransaction h in
  let ended := rollbackNestedTransaction (snd began) in
  m_nestedLevel (snd ended) = n
  /\ same_private h (snd ended)
  /\ exists b,
      journal (snd ended) =
        journal h ++ [Executed (getDescription (Savepoint name)) (fst began);
                      Executed (getDescription (RollbackToSavepoint name)) b].
Proof.
  intros Hn Hrange Hlazy Hauto name began ended.
  destruct (to_int_succ_pred n Hrange) as [Hup Hdown].
  assert (Hbegan : exists b r,
             began = (b, note (Executed (getDescription (Savepoint name)) b)
                           (reached r (set_level (n + 1) h)))).
  { unfold began, beginNestedTransaction, hbind, isInTransaction.
    rewrite Hauto. cbn [Z.eqb]. cbv beta iota. rewrite Hlazy. cbn [negb].
    cbn [m_nestedLevel set_level]. rewrite Hn, Hup. unfold executeStatement.
    destruct (executeSQL_effect (getDescription (Savepoint (getSavepointName (n + 1))))
                (set_level (n + 1) h)) as (b & r & ->).
    now exists b, r. }
  destruct Hbegan as (b & r & Eb).
  unfold ended. rewrite Eb. cbn [fst snd].
  set (h1 := note _ (reached r (set_level (n + 1) h))).
  unfold rollbackNestedTransaction.
  assert (Hl1 : m_nestedLevel h1 = n + 1) by reflexivity.
  assert (Hz1 : m_lazyNestedTransaction h1 = false) by exact Hlazy.
  rewrite Hl1, Hz1.
  replace (n + 1 =? 0) with false by (symmetry; apply Z.eqb_neq; lia).
  cbn [negb]. fold name. unfold hbind, executeStatement.
  destruct (executeSQL_effect (getDescription (RollbackToSavepoint name)) h1)
    as (b2 & r2 & ->).
  cbn [fst snd].
  split; [cbn; rewrite Hdown; reflexivity|]. split.
  - unfold same_private. cbn. repeat split.
  - exists b2. cbn. now rewrite <- app_assoc.
Qed.

(** X18.  Lazy nesting folds a nested transaction into the enclosing one.
    With [m_lazyNestedTransaction] set, [beginNestedTransaction] inside a
    transaction executes nothing and leaves the handle as it is, so at
    level [0] the [commitOrRollbackNestedTransaction] that follows executes
    [COMMIT]: it ends the enclosing transaction. *)
Theorem lazy_nested_commit_is_outer (h : Handle) :
  m_lazyNestedTransaction h = true ->
  sqlite3_get_autocommit (db h) = 0 ->
  m_nestedLevel h = 0 ->
  beginNestedTransaction h = (true, h)
  /\ let ended := commitOrRollbackNestedTransaction (snd (beginNestedTransaction h)) in
     exists committed rest,
       journal (snd ended) =
         journal h ++ Executed (getDescription Commit) committed :: rest
       /\ fst ended = committed
       /\ m_nestedLevel (snd ended) = 0.
Proof.
  intros Hlazy Hauto Hlevel.
  assert (Hb : beginNestedTransaction h = (true, h)).
  { unfold beginNestedTransaction, hbind, isInTransaction.
    rewrite Hauto. cbn [Z.eqb]. cbv beta iota. rewrite Hlazy. reflexivity. }
  split; [exact Hb|]. rewrite Hb. cbn [snd].
  unfold commitOrRollbackNestedTransaction. rewrite Hlevel. cbn [Z.eqb].
  destruct (commitOrRollbackTransaction_level h) as [Hl _].
  unfold commitOrRollbackTransaction, hbind in *.
  destruct (executeSQL_effect (getDescription Commit) h) as (committed & rc & Ec).
  rewrite Ec in *. destruct committed; cbn [negb] in *.
  - exists true, []. cbn. repeat split.
  - destruct (rollbackTransaction_effect (note (Executed (getDescription Commit) false)
                                             (reached rc h)))
      as (r' & rest' & Er & _ & _ & Hj & _).
    rewrite Er in *. unfold hret in *. cbn [fst snd] in *.
    exists false, rest'. rewrite Hj. cbn. rewrite <- app_assoc.
    repeat split. exact Hl.
Qed.

Lemma append_cancel (p a b : string) : (p ++ a)%string = (p ++ b)%string -> a = b.
Proof.
  induction p as [|c p IH]; cbn; intros Heq; [exact Heq|].
  injection Heq as Heq. now apply IH.
Qed.

(** X19.  Savepoint names tell the levels apart: [getSavepointName] gives
    different names to different levels. *)
Theorem getSavepointName_injective (n n' : Z) :
  getSavepointName n = getSavepointName n' -> n = n'.
Proof.
  unfold getSavepointName, to_string. intros Hname.
  apply append_cancel in Hname.
  assert (Hd : Some (Z.to_int n) = Some (Z.to_int n')).
  { rewrite <- !NilEmpty.isi. now rewrite Hname. }
  injection Hd as Hd.
  rewrite <- (DecimalZ.of_to n), <- (DecimalZ.of_to n'). now rewrite Hd.
Qed.

Lemma to_int_pred (n : Z) : 0 < n <= INT_MAX -> to_int (n - 1) = n - 1.
Proof.
  intros Hn. change INT_MAX with 2147483647 in Hn.
  apply to_int_fits. change INT_MAX with 2147483647. lia.
Qed.

(** X20.  Closing never takes the nesting level below zero.  From a level
    between [0] and [INT_MAX], [commitOrRollbackNestedTransaction] and
    [rollbackNestedTransaction] leave a level that is not negative and not
    above the one they found; at level [0] they end the transaction itself
    and the level stays [0]. *)
Theorem nested_end_level (h : Handle) :
  0 <= m_nestedLevel h <= INT_MAX ->
  let c := snd (commitOrRollbackNestedTransaction h) in
  let r := snd (rollbackNestedTransaction h) in
  0 <= m_nestedLevel c <= m_nestedLevel h
  /\ 0 <= m_nestedLevel r <= m_nestedLevel h
  /\ (m_nestedLevel h - 1 <= m_nestedLevel c /\ m_nestedLevel h - 1 <= m_nestedLevel r)
  /\ same_private h c /\ same_private h r.
Proof.
  intros Hrange c r. unfold c, r.
  unfold commitOrRollbackNestedTransaction, rollbackNestedTransaction.
  destruct (Z.eqb_spec (m_nestedLevel h) 0) as [Hz | Hnz].
  - destruct (commitOrRollbackTransaction_level h) as [Hc Hpc].
    destruct (rollbackTransaction_effect h) as (r' & rest & Er & Hpr & Hr & _).
    rewrite Er in *. cbn [snd] in *. rewrite Hc, Hr, Hz.
    split; [lia|]. split; [lia|]. split; [lia|]. split; assumption.
  - destruct (m_lazyNestedTransaction h) eqn:Hlazy; cbn [negb snd].
    + split; [lia|]. split; [lia|]. split; [lia|]. split; apply same_private_refl.
    + unfold hbind, executeStatement.
      destruct (executeSQL_effect
                  (getDescription (Release (getSavepointName (m_nestedLevel h)))) h)
        as (released & r1 & ->).
      destruct (executeSQL_effect
                  (getDescription (RollbackToSavepoint (getSavepointName (m_nestedLevel h)))) h)
        as (b2 & r2 & ->).
      assert (Hdown : to_int (m_nestedLevel h - 1) = m_nestedLevel h - 1)
        by (apply to_int_pred; lia).
      destruct released; cbn [negb].
      * unfold hret. cbn. rewrite Hdown. unfold same_private. cbn.
        repeat split; lia.
      * destruct (executeSQL_effect
                    (getDescription (RollbackToSavepoint (getSavepointName (m_nestedLevel h))))
                    (note (Executed (getDescription (Release (getSavepointName (m_nestedLevel h)))) false)
                          (reached r1 h)))
          as (b3 & r3 & E3).
        cbn [m_nestedLevel note reached] in E3 |- *.
        rewrite E3. unfold hret. cbn. rewrite Hdown. unfold same_private. cbn.
        repeat split; lia.
Qed.

(** *** Statements *)

Lemma erase_node_absent (p : Z) (l : list (Z * stmt)) :
  ~ In p (map fst l) -> erase_node p l = (None, l).
Proof.
  induction l as [|[q s] t IH]; cbn; intros Hp; [reflexivity|].
  destruct (Z.eqb_spec q p) as [->|Hne]; [tauto|].
  rewrite IH by tauto. reflexivity.
Qed.

Lemma erase_node_last (p : Z) (s : stmt) (l : list (Z * stmt)) :
  ~ In p (map fst l) -> erase_node p (l ++ [(p, s)]) = (Some s, l).
Proof.
  induction l as [|[q s0] t IH]; cbn; intros Hp.
  - now rewrite Z.eqb_refl.
  - destruct (Z.eqb_spec q p) as [->|Hne]; [tauto|].
    rewrite IH by tauto. reflexivity.
Qed.

Lemma erase_node_present (p : Z) (l : list (Z * stmt)) :
  NoDup (map fst l) -> In p (map fst l) ->
  exists s, erase_node p l
            = (Some s, filter (fun n => negb (fst n =? p)) l)
            /\ In (p, s) l.
Proof.
  induction l as [|[q s0] t IH]; cbn; intros Hnd Hin; [contradiction|].
  inversion Hnd as [|? ? Hq Hnd']; subst.
  destruct (Z.eqb_spec q p) as [->|Hne]; cbn [negb].
  - exists s0. split; [|now left]. f_equal.
    symmetry. rewrite (proj2 (filter_ext_in_iff _ (fun _ => true) t)).
    + clear. induction t as [|x t IHt]; cbn; [reflexivity | now rewrite IHt].
    + intros [q s] Hqs. cbn. destruct (Z.eqb_spec q p) as [->|]; [|reflexivity].
      exfalso. apply Hq. change p with (fst (p, s)). now apply in_map.
  - destruct Hin as [Heq | Hin]; [congruence|].
    destruct (IH Hnd' Hin) as (s & -> & Hs). exists s. split; [reflexivity | now right].
Qed.

(** X21.  Borrowing a statement and giving it back leaves the handle's list
    of statements as it was.  [getStatement] appends one new statement and
    returns its address; [returnStatement] of that address removes that
    statement and no other. *)
Theorem statement_round_trip (h : Handle) :
  node_address (addresses h) <> 0 ->
  ~ In (node_address (addresses h)) (addresses h) ->
  let borrowed := getStatement h in
  let returned := returnStatement (fst borrowed) (snd borrowed) in
  fst borrowed = node_address (addresses h)
  /\ m_handleStatements (snd borrowed) =
       m_handleStatements h ++ [(fst borrowed, HandleStatement_new)]
  /\ m_handleStatements (snd returned) = m_handleStatements h
  /\ same_private h (snd returned)
  /\ m_nestedLevel (snd returned) = m_nestedLevel h.
Proof.
  intros Hnz Hfresh borrowed returned.
  unfold returned, borrowed, getStatement, returnStatement. cbn [fst snd].
  replace (node_address (addresses h) =? 0) with false
    by (symmetry; now apply Z.eqb_neq).
  cbn [negb m_handleStatements set_statements].
  rewrite erase_node_last by exact Hfresh.
  cbn. unfold same_private. cbn. repeat split.
Qed.

(** X22.  [returnStatement] removes the statement at the given address and
    keeps every other one, in order.  The null pointer and an address that
    is not in the list change nothing at all. *)
Theorem returnStatement_selective (p : Z) (h : Handle) :
  NoDup (addresses h) ->
  (p = 0 \/ ~ In p (addresses h) -> returnStatement p h = (tt, h))
  /\ (p <> 0 -> In p (addresses h) ->
      m_handleStatements (snd (returnStatement p h)) =
        filter (fun n => negb (fst n =? p)) (m_handleStatements h)
      /\ ~ In p (addresses (snd (returnStatement p h)))
      /\ S (List.length (m_handleStatements (snd (returnStatement p h)))) =
           List.length (m_handleStatements h)).
Proof.
  intros Hnd. unfold returnStatement. split.
  - intros [-> | Hout]; [reflexivity|].
    destruct (negb (p =? 0)); [|reflexivity].
    unfold addresses in Hout. now rewrite erase_node_absent.
  - intros Hnz Hin.
    replace (p =? 0) with false by (symmetry; now apply Z.eqb_neq).
    cbn [negb]. unfold addresses in *.
    destruct (erase_node_present p (m_handleStatements h) Hnd Hin) as (s & -> & Hs).
    cbn [snd m_handleStatements reached set_statements].
    split; [reflexivity|]. split.
    + intros Hp. apply in_map_iff in Hp. destruct Hp as ([q s'] & Hq & Hf).
      apply filter_In in Hf. destruct Hf as [_ Hf]. cbn in Hq, Hf. subst q.
      rewrite Z.eqb_refl in Hf. discriminate.
    + clear Hs s. induction (m_handleStatements h) as [|[q s0] t IH];
        cbn in *; [contradiction|].
      inversion Hnd as [|? ? Hq Hnd']; subst.
      destruct (Z.eqb_spec q p) as [->|Hne]; cbn [negb].
      * f_equal. f_equal.
        rewrite (proj2 (filter_ext_in_iff _ (fun _ => true) t)).
        -- clear. induction t as [|x t IHt]; cbn; [reflexivity | now rewrite IHt].
        -- intros [q s] Hqs. cbn. destruct (Z.eqb_spec q p) as [->|]; [|reflexivity].
           exfalso. apply Hq. change p with (fst (p, s)). now apply in_map.
      * cbn [List.length]. f_equal. apply IH; [exact Hnd'|].
        destruct Hin as [Heq | Hin]; [congruence | exact Hin].
Qed.

Lemma finalize_all_effect (after : list (Z * stmt)) :
  forall before h,
    let h' := finalize_all before after h in
    map fst (m_handleStatements h') =
      match after with
      | [] => map fst (m_handleStatements h)
      | _ => map fst (before ++ after)
      end
    /\ journal h' = journal h ++ map Finalized (map fst after)
    /\ m_path h' = m_path h
    /\ m_nestedLevel h' = m_nestedLevel h
    /\ m_lazyNestedTransaction h' = m_lazyNestedTransaction h
    /\ m_ignorableCodes h' = m_ignorableCodes h.
Proof.
  induction after as [|[p s] t IH]; intros before h; cbn [finalize_all].
  - cbn. rewrite app_nil_r. repeat split.
  - destruct (HandleStatement_finalize s h) as [s' r].
    specialize (IH (before ++ [(p, s')])
                   (note (Finalized p)
                      (reached r (set_statements (before ++ (p, s') :: t) h)))).
    cbv zeta in IH. destruct IH as (Ha & Hj & H1 & H2 & H3 & H4).
    cbv zeta. rewrite Hj, H1, H2, H3, H4. cbn.
    split.
    + rewrite Ha. destruct t; cbn.
      * rewrite !map_app. reflexivity.
      * rewrite <- app_assoc. cbn. rewrite !map_app. reflexivity.
    + rewrite <- app_assoc. repeat split.
Qed.

(** X23.  [finalizeStatements] finalizes every statement the handle has
    lent out, each once and in list order, and removes none: the addresses
    handed out stay in the list, in the same order. *)
Theorem finalizeStatements_keeps_list (h : Handle) :
  let h' := snd (finalizeStatements h) in
  addresses h' = addresses h
  /\ journal h' = journal h ++ map Finalized (addresses h)
  /\ m_nestedLevel h' = m_nestedLevel h
  /\ m_ignorableCodes h' = m_ignorableCodes h.
Proof.
  unfold finalizeStatements, addresses. cbn [snd].
  destruct (finalize_all_effect (m_handleStatements h) [] h)
    as (Ha & Hj & _ & Hl & _ & Hi).
  cbv zeta in *. split.
  - rewrite Ha. destruct (m_handleStatements h); reflexivity.
  - repeat split; assumption.
Qed.

(** *** Existence queries *)

Lemma find_node_last (p : Z) (s : stmt) (l : list (Z * stmt)) :
  ~ In p (map fst l) -> find_node p (l ++ [(p, s)]) = Some s.
Proof.
  induction l as [|[q s0] t IH]; cbn; intros Hp.
  - now rewrite Z.eqb_refl.
  - destruct (Z.eqb_spec q p) as [->|Hne]; [tauto|]. apply IH. tauto.
Qed.

Lemma update_node_last (p : Z) (s s' : stmt) (l : list (Z * stmt)) :
  ~ In p (map fst l) -> update_node p s' (l ++ [(p, s)]) = l ++ [(p, s')].
Proof.
  induction l as [|[q s0] t IH]; cbn; intros Hp.
  - now rewrite Z.eqb_refl.
  - destruct (Z.eqb_spec q p) as [->|Hne]; [tauto|]. rewrite IH by tauto. reflexivity.
Qed.

Lemma erase_node_addresses (p : Z) (l : list (Z * stmt)) :
  forall a, map fst l = a ++ [p] -> ~ In p a ->
            exists s l', erase_node p l = (Some s, l') /\ map fst l' = a.
Proof.
  induction l as [|[q s0] t IH]; intros a Hmap Hp; cbn in Hmap.
  - destruct a; discriminate.
  - destruct a as [|x a]; cbn in Hmap; injection Hmap as Hq Ht.
    + subst q. cbn. rewrite Z.eqb_refl. exists s0, t. split; [reflexivity|].
      destruct t; [reflexivity | discriminate].
    + subst x. cbn. destruct (Z.eqb_spec q p) as [->|Hne]; [cbn in Hp; tauto|].
      destruct (IH a Ht ltac:(cbn in Hp; tauto)) as (s & l' & -> & Hl').
      exists s, ((q, s0) :: l'). split; [reflexivity|]. cbn. now rewrite Hl'.
Qed.

(** X24.  [ft3TokenizerExists] executes one [SELECT fts3_tokenizer(...)]
    with [SQLITE_ERROR] made ignorable for its duration.  It answers
    [(true, true)] when the statement succeeds, [(true, false)] when it
    fails and the connection's result code is [SQLITE_ERROR], and
    [(false, false)] otherwise; the list of ignorable codes is afterwards
    what it was before. *)
Theorem ft3TokenizerExists_result (tokenizer : string) (h : Handle) :
  let marked := snd (markErrorAsIgnorable Code_Error h) in
  let ran := executeStatement (SelectFts3Tokenizer tokenizer) marked in
  let out := ft3TokenizerExists tokenizer h in
  existsb (Z.eqb SQLITE_ERROR) (m_ignorableCodes marked) = true
  /\ fst out = (fst ran || (sqlite3_errcode (db (snd ran)) =? SQLITE_ERROR), fst ran)
  /\ fst out <> (false, true)
  /\ m_ignorableCodes (snd out) = m_ignorableCodes h
  /\ m_handleStatements (snd out) = m_handleStatements h
  /\ m_nestedLevel (snd out) = m_nestedLevel h
  /\ journal (snd out) =
       journal h ++ [Executed (getDescription (SelectFts3Tokenizer tokenizer)) (fst ran)].
Proof.
  intros marked ran out.
  split.
  { unfold marked, markErrorAsIgnorable. cbn. rewrite existsb_app. cbn.
    apply orb_true_r. }
  unfold out, ran, marked, ft3TokenizerExists, hbind, executeStatement,
    markErrorAsIgnorable.
  cbn [fst snd].
  destruct (executeSQL_effect (getDescription (SelectFts3Tokenizer tokenizer))
              (set_ignorable (m_ignorableCodes h ++ [Code_Error]) h))
    as (b & r & ->).
  unfold markErrorAsUnignorable, hret, getResultCode, Code_Error.
  destruct b; cbn [orb fst snd].
  - cbn. rewrite removelast_last. repeat split; discriminate.
  - cbn [db note reached set_ignorable].
    destruct (sqlite3_errcode (r_db r) =? SQLITE_ERROR); cbn;
      rewrite removelast_last; repeat split; discriminate.
Qed.

(** X25.  [tableExists] borrows a statement, prepares
    [SELECT 1 FROM schema.table LIMIT 0] on it with [SQLITE_ERROR] made
    ignorable, and gives the statement back.  The answer is [(true, true)]
    when the statement can be prepared, [(true, false)] when it cannot and
    the connection's result code is [SQLITE_ERROR], [(false, false)]
    otherwise.  Afterwards the ignorable codes and the addresses of the
    statements lent out are what they were; but when the table exists,
    every statement of the handle has been finalized. *)
Theorem tableExists_result (schema table : string) (h : Handle) :
  node_address (addresses h) <> 0 ->
  ~ In (node_address (addresses h)) (addresses h) ->
  let p := node_address (addresses h) in
  let st := SelectOneFromLimit0 schema table in
  let lent := snd (markErrorAsIgnorable Code_Error (snd (getStatement h))) in
  let asked := HandleStatement_prepareStatement st HandleStatement_new lent in
  let prepared := fst (fst asked) in
  let out := tableExists schema table h in
  existsb (Z.eqb SQLITE_ERROR) (m_ignorableCodes lent) = true
  /\ fst out = (prepared || (sqlite3_errcode (r_db (snd asked)) =? SQLITE_ERROR),
                prepared)
  /\ fst out <> (false, true)
  /\ m_ignorableCodes (snd out) = m_ignorableCodes h
  /\ addresses (snd out) = addresses h
  /\ m_nestedLevel (snd out) = m_nestedLevel h
  /\ journal (snd out) =
       journal h ++ Prepared st prepared
                    :: (if prepared then map Finalized (addresses h ++ [p]) else []).
Proof.
  intros Hnz Hfresh p st lent asked prepared out.
  split.
  { unfold lent, markErrorAsIgnorable. cbn. rewrite existsb_app. cbn.
    apply orb_true_r. }
  pose proof (eq_refl out) as Hrun. unfold out at 2 in Hrun.
  unfold tableExists, hbind in Hrun.
  unfold getStatement at 1 in Hrun. fold p in Hrun. cbv beta iota in Hrun.
  change (markErrorAsIgnorable Code_Error
            (set_statements (m_handleStatements h ++ [(p, HandleStatement_new)]) h))
    with (tt, lent) in Hrun.
  cbv beta iota in Hrun. fold st in Hrun.
  assert (Hl : m_handleStatements lent
               = m_handleStatements h ++ [(p, HandleStatement_new)]) by reflexivity.
  unfold prepareStatement_at in Hrun. rewrite Hl in Hrun.
  unfold addresses in Hfresh. fold p in Hfresh, Hnz.
  rewrite find_node_last in Hrun by exact Hfresh.
  unfold prepared, asked. clear prepared asked.
  destruct (HandleStatement_prepareStatement st HandleStatement_new lent)
    as [[ok s'] r].
  cbn [fst snd]. rewrite update_node_last in Hrun by exact Hfresh.
  set (h1 := note (Prepared st ok)
               (reached r (set_statements (m_handleStatements h ++ [(p, s')]) lent)))
    in Hrun.
  assert (Hig : removelast (m_ignorableCodes lent) = m_ignorableCodes h).
  { unfold lent, markErrorAsIgnorable. cbn. apply removelast_last. }
  assert (Hj1 : journal h1 = journal h ++ [Prepared st ok]) by reflexivity.
  assert (Hi1 : m_ignorableCodes h1 = m_ignorableCodes lent) by reflexivity.
  assert (Hv1 : m_nestedLevel h1 = m_nestedLevel h) by reflexivity.
  assert (Hs1 : m_handleStatements h1 = m_handleStatements h ++ [(p, s')])
    by reflexivity.
  assert (Hd1 : db h1 = r_db r) by reflexivity.
  clearbody h1.
  unfold markErrorAsUnignorable, returnStatement in Hrun.
  replace (p =? 0) with false in Hrun by (symmetry; now apply Z.eqb_neq).
  cbn [negb] in Hrun.
  destruct ok; cbn [orb]; cbv beta iota in Hrun.
  - unfold finalizeStatements, hret in Hrun. cbv beta iota in Hrun.
    destruct (finalize_all_effect (m_handleStatements h1) [] h1)
      as (Ha & Hj & _ & Hlev & _ & Hi).
    cbv zeta in Ha, Hj, Hlev, Hi.
    set (h2 := finalize_all [] (m_handleStatements h1) h1) in *.
    assert (Ha2 : map fst (m_handleStatements h2) = map fst (m_handleStatements h) ++ [p]).
    { rewrite Ha, Hs1.
      destruct (m_handleStatements h ++ [(p, s')]) eqn:El.
      - destruct (m_handleStatements h); discriminate.
      - rewrite <- El. cbn [app]. rewrite map_app. reflexivity. }
    clearbody h2.
    cbn [m_handleStatements set_ignorable] in Hrun.
    destruct (erase_node_addresses p (m_handleStatements h2) _ Ha2 Hfresh)
      as (s2 & l2 & Ee & Hl2).
    rewrite Ee in Hrun. rewrite Hrun. cbn [fst snd].
    split; [reflexivity|]. split; [discriminate|].
    unfold addresses.
    cbn [m_ignorableCodes m_handleStatements m_nestedLevel journal
         reached set_statements set_ignorable].
    rewrite Hi, Hi1, Hlev, Hv1, Hj, Hj1, Hs1, <- app_assoc, map_app.
    repeat split; assumption.
  - unfold getResultCode, hret, Code_Error in Hrun. rewrite Hd1 in Hrun.
    cbn [m_handleStatements set_ignorable] in Hrun.
    destruct (sqlite3_errcode (r_db r) =? SQLITE_ERROR); cbv beta iota in Hrun;
      rewrite Hs1, erase_node_last in Hrun by exact Hfresh;
      rewrite Hrun; cbn [fst snd];
      (split; [reflexivity|]); (split; [discriminate|]);
      unfold addresses;
      cbn [m_ignorableCodes m_handleStatements m_nestedLevel journal
           reached set_statements set_ignorable];
      rewrite Hi1, Hv1, Hj1; repeat split; assumption.
Qed.

(** *** Reading a column *)

Lemma find_node_update (p : Z) (s' : stmt) (l : list (Z * stmt)) :
  forall s, find_node p l = Some s -> find_node p (update_node p s' l) = Some s'.
Proof.
  induction l as [|[q s0] t IH]; cbn; intros s Hs; [discriminate|].
  destruct (Z.eqb_spec q p) as [->|Hne]; cbn.
  - now rewrite Z.eqb_refl.
  - destruct (Z.eqb_spec q p); [contradiction|]. now apply (IH s).
Qed.

Lemma find_node_appended (p : Z) (s0 : stmt) (l : list (Z * stmt)) :
  exists s, find_node p (l ++ [(p, s0)]) = Some s.
Proof.
  induction l as [|[q s1] t IH]; cbn.
  - rewrite Z.eqb_refl. now exists s0.
  - destruct (q =? p); [now exists s1 | exact IH].
Qed.

Lemma set_emplace_spec (v : string) (values : list string) :
  (NoDup values -> NoDup (set_emplace v values))
  /\ (forall x, In x (set_emplace v values) <-> x = v \/ In x values).
Proof.
  unfold set_emplace. destruct (existsb (String.eqb v) values) eqn:Ev.
  - apply existsb_exists in Ev. destruct Ev as (y & Hy & Hvy).
    apply String.eqb_eq in Hvy. subst y. split; [tauto|].
    intros x. split; [tauto|]. intros [-> | Hx]; assumption.
  - assert (Hv : ~ In v values).
    { intros Hin. assert (Ht : existsb (String.eqb v) values = true).
      { apply existsb_exists. exists v. split; [exact Hin | apply String.eqb_refl]. }
      rewrite Ht in Ev. discriminate Ev. }
    split.
    + intros Hnd. apply NoDup_app; [exact Hnd | repeat constructor; intros [] |].
      intros x Hx [<- | []]. exact (Hv Hx).
    + intros x. rewrite in_app_iff. cbn. intuition congruence.
Qed.

Lemma getValues_loop_effect (p index : Z) (l : list (Z * stmt)) :
  ~ In p (map fst l) ->
  forall fuel values h s succeed values' h',
    m_handleStatements h = l ++ [(p, s)] ->
    getValues_loop fuel p index values h = Some (succeed, values', h') ->
    (exists s', m_handleStatements h' = l ++ [(p, s')])
    /\ m_path h' = m_path h
    /\ m_nestedLevel h' = m_nestedLevel h
    /\ m_lazyNestedTransaction h' = m_lazyNestedTransaction h
    /\ m_ignorableCodes h' = m_ignorableCodes h
    /\ journal h' = journal h
    /\ (NoDup values -> NoDup values').
Proof.
  intros Hfresh. induction fuel as [|k IH];
    intros values h s succeed values' h' Hl Hrun; [discriminate Hrun|].
  cbn [getValues_loop] in Hrun. unfold step_at in Hrun.
  rewrite Hl, find_node_last in Hrun by exact Hfresh.
  destruct (HandleStatement_step s h) as [[ok s1] r].
  rewrite update_node_last in Hrun by exact Hfresh.
  set (h1 := reached r (set_statements (l ++ [(p, s1)]) h)) in Hrun.
  assert (Hl1 : m_handleStatements h1 = l ++ [(p, s1)]) by reflexivity.
  destruct (ok && negb (done_at p h1)).
  - destruct (IH _ _ _ _ _ _ Hl1 Hrun) as (Hs & H1 & H2 & H3 & H4 & H5 & H6).
    split; [exact Hs|]. rewrite H1, H2, H3, H4, H5. cbn.
    repeat (split; [reflexivity|]).
    intros Hnd. apply H6. now apply set_emplace_spec.
  - injection Hrun as <- <- <-. split; [now exists s1|]. cbn.
    repeat (split; [reflexivity|]). tauto.
Qed.

(** X26.  [getValues] borrows one statement, reads with it and gives it
    back.  Whatever happens in between, the statements the handle had lent
    out are afterwards exactly what they were, none of them finalized; the
    borrowed statement is finalized if and only if it could be prepared, a
    failed step included.  A failed run answers no values at all, and the
    values of a successful run hold no duplicate. *)
Theorem getValues_balanced (fuel : nat) (st : statement) (index : Z)
    (h : Handle) (succeed : bool) (values : list string) (h' : Handle) :
  node_address (addresses h) <> 0 ->
  ~ In (node_address (addresses h)) (addresses h) ->
  getValues fuel st index h = Some (succeed, values, h') ->
  let p := node_address (addresses h) in
  let prepared :=
    fst (fst (HandleStatement_prepareStatement st HandleStatement_new
                (snd (getStatement h)))) in
  (succeed = false -> values = [])
  /\ (succeed = true -> prepared = true)
  /\ NoDup values
  /\ m_handleStatements h' = m_handleStatements h
  /\ same_private h h'
  /\ m_nestedLevel h' = m_nestedLevel h
  /\ journal h' =
       journal h ++ Prepared st prepared :: (if prepared then [Finalized p] else []).
Proof.
  intros Hnz Hfresh Hrun p prepared.
  unfold getValues in Hrun. unfold getStatement at 1 in Hrun.
  unfold prepared, getStatement. clear prepared. fold p in Hrun |- *.
  cbv beta iota in Hrun. cbn [snd].
  set (h0 := set_statements (m_handleStatements h ++ [(p, HandleStatement_new)]) h)
    in *.
  unfold addresses in Hfresh. fold p in Hfresh, Hnz.
  unfold prepareStatement_at in Hrun.
  change (m_handleStatements h0)
    with (m_handleStatements h ++ [(p, HandleStatement_new)]) in Hrun.
  rewrite find_node_last in Hrun by exact Hfresh.
  destruct (HandleStatement_prepareStatement st HandleStatement_new h0)
    as [[ok s1] r].
  rewrite update_node_last in Hrun by exact Hfresh.
  set (h1 := note (Prepared st ok)
               (reached r (set_statements (m_handleStatements h ++ [(p, s1)]) h0)))
    in Hrun.
  assert (Hl1 : m_handleStatements h1 = m_handleStatements h ++ [(p, s1)])
    by reflexivity.
  assert (Hj1 : journal h1 = journal h ++ [Prepared st ok]) by reflexivity.
  assert (Hp1 : m_path h1 = m_path h) by reflexivity.
  assert (Hv1 : m_nestedLevel h1 = m_nestedLevel h) by reflexivity.
  assert (Hz1 : m_lazyNestedTransaction h1 = m_lazyNestedTransaction h)
    by reflexivity.
  assert (Hi1 : m_ignorableCodes h1 = m_ignorableCodes h) by reflexivity.
  clearbody h1. cbn [fst].
  unfold returnStatement in Hrun.
  replace (p =? 0) with false in Hrun by (symmetry; now apply Z.eqb_neq).
  cbn [negb] in Hrun.
  destruct ok.
  - destruct (getValues_loop fuel p index [] h1) as [[[b vs] h2]|] eqn:Eloop;
      [|discriminate Hrun].
    destruct (getValues_loop_effect p index _ Hfresh _ _ _ _ _ _ _ Hl1 Eloop)
      as ((s2 & Hl2) & Hp2 & Hv2 & Hz2 & Hi2 & Hj2 & Hnd).
    unfold finalize_at in Hrun. rewrite Hl2, find_node_last in Hrun by exact Hfresh.
    destruct (HandleStatement_finalize s2 h2) as [s3 r3].
    rewrite update_node_last in Hrun by exact Hfresh.
    cbn [snd m_handleStatements note reached set_statements] in Hrun.
    rewrite erase_node_last in Hrun by exact Hfresh.
    injection Hrun as <- <- <-.
    unfold same_private. cbn. rewrite Hp2, Hv2, Hz2, Hi2, Hj2, Hp1, Hv1, Hz1, Hi1, Hj1.
    rewrite <- app_assoc. cbn.
    split; [now intros ->|]. split; [reflexivity|]. split.
    + destruct b; cbn; [apply Hnd|]; constructor.
    + repeat split.
  - rewrite Hl1, erase_node_last in Hrun by exact Hfresh.
    injection Hrun as <- <- <-.
    unfold same_private. cbn. rewrite Hp1, Hv1, Hz1, Hi1, Hj1.
    split; [reflexivity|]. split; [discriminate|]. split; [constructor|].
    repeat split.
Qed.

Lemma getValues_loop_terminates (measure : stmt -> nat) (p index : Z) :
  (forall s h ok s' r,
      HandleStatement_step s h = (ok, s', r) ->
      ok = true -> HandleStatement_done s' = false ->
      (measure s' < measure s)%nat) ->
  forall n values h s,
    find_node p (m_handleStatements h) = Some s -> (measure s < n)%nat ->
    exists out, forall fuel, (n <= fuel)%nat ->
                             getValues_loop fuel p index values h = Some out.
Proof.
  intros Hstep. induction n as [|n IH]; intros values h s Hs Hn; [lia|].
  destruct (HandleStatement_step s h) as [[ok s1] r] eqn:Es.
  set (h1 := reached r (set_statements (update_node p s1 (m_handleStatements h)) h)).
  assert (Hs1 : find_node p (m_handleStatements h1) = Some s1).
  { unfold h1. cbn. now apply (find_node_update p s1 _ s). }
  assert (Hrun : forall k, getValues_loop (S k) p index values h =
                           if ok && negb (done_at p h1)
                           then getValues_loop k p index
                                  (set_emplace (getText_at p index h1) values) h1
                           else Some (ok, values, h1)).
  { intros k. cbn [getValues_loop]. unfold step_at. rewrite Hs, Es. reflexivity. }
  destruct (ok && negb (done_at p h1)) eqn:Egoes.
  - apply andb_prop in Egoes. destruct Egoes as [Hok Hdone].
    unfold done_at in Hdone. rewrite Hs1 in Hdone.
    apply negb_true_iff in Hdone.
    pose proof (Hstep _ _ _ _ _ Es Hok Hdone) as Hless.
    destruct (IH (set_emplace (getText_at p index h1) values) h1 s1 Hs1
                 ltac:(lia)) as (out & Hout).
    exists out. intros [|k] Hk; [lia|]. rewrite Hrun. apply Hout. lia.
  - exists (ok, values, h1). intros [|k] Hk; [lia|]. now rewrite Hrun.
Qed.

(** X27.  [getValues] comes back.  When every step that succeeds without
    reaching the end brings the statement closer to it, by some measure, the
    loop of [getValues] is left after finitely many rounds: there is a
    result, and every sufficient number of rounds gives that result. *)
Theorem getValues_returns (measure : stmt -> nat) (st : statement) (index : Z)
    (h : Handle) :
  (forall s h ok s' r,
      HandleStatement_step s h = (ok, s', r) ->
      ok = true -> HandleStatement_done s' = false ->
      (measure s' < measure s)%nat) ->
  exists n out, forall fuel, (n <= fuel)%nat -> getValues fuel st index h = Some out.
Proof.
  intros Hstep. unfold getValues, getStatement.
  set (p := node_address (addresses h)).
  set (h0 := set_statements (m_handleStatements h ++ [(p, HandleStatement_new)]) h).
  unfold prepareStatement_at.
  destruct (find_node_appended p HandleStatement_new (m_handleStatements h))
    as (s0 & Hs0).
  change (m_handleStatements h0)
    with (m_handleStatements h ++ [(p, HandleStatement_new)]).
  rewrite Hs0.
  destruct (HandleStatement_prepareStatement st s0 h0) as [[ok s1] r].
  set (h1 := note (Prepared st ok) _).
  assert (Hs1 : find_node p (m_handleStatements h1) = Some s1).
  { unfold h1. cbn. now apply (find_node_update p s1 _ s0). }
  clearbody h1. destruct ok.
  - destruct (getValues_loop_terminates measure p index Hstep (S (measure s1)) [] h1 s1
                Hs1 ltac:(lia)) as ([[b vs] h2] & Hout).
    exists (S (measure s1)). eexists. intros fuel Hfuel.
    rewrite (Hout fuel Hfuel). reflexivity.
  - exists 0%nat. eexists. intros fuel _. reflexivity.
Qed.

(** X28.  The outermost nested transaction is a plain transaction.  Outside
    any transaction [beginNestedTransaction] executes [BEGIN IMMEDIATE] and
    nothing else, whatever the lazy flag says, and leaves the nesting level
    alone; at level [0] the [commitOrRollbackNestedTransaction] that follows
    executes [COMMIT] and answers what it answered. *)
Theorem nested_outermost_is_plain (h : Handle) :
  sqlite3_get_autocommit (db h) <> 0 ->
  m_nestedLevel h = 0 ->
  let began := beginNestedTransaction h in
  let ended := commitOrRollbackNestedTransaction (snd began) in
  began = beginTransaction h
  /\ journal (snd began) =
       journal h ++ [Executed (getDescription BeginImmediate) (fst began)]
  /\ m_nestedLevel (snd began) = 0
  /\ same_private h (snd began)
  /\ exists committed rest,
      journal (snd ended) =
        journal (snd began) ++ Executed (getDescription Commit) committed :: rest
      /\ fst ended = committed
      /\ m_nestedLevel (snd ended) = 0
      /\ same_private h (snd ended).
Proof.
  intros Hauto Hlevel began ended.
  assert (Hb : began = beginTransaction h).
  { unfold began, beginNestedTransaction, hbind, isInTransaction.
    replace (sqlite3_get_autocommit (db h) =? 0) with false
      by (symmetry; now apply Z.eqb_neq).
    reflexivity. }
  split; [exact Hb|]. unfold ended. rewrite Hb. clear began ended Hb.
  unfold beginTransaction.
  destruct (executeSQL_effect (getDescription BeginImmediate) h) as (b & r & ->).
  cbn [fst snd]. set (h1 := note _ (reached r h)).
  assert (Hp1 : same_private h h1) by (unfold h1, same_private; cbn; repeat split).
  split; [reflexivity|]. split; [exact Hlevel|]. split; [exact Hp1|].
  unfold commitOrRollbackNestedTransaction.
  replace (m_nestedLevel h1) with 0 by (symmetry; exact Hlevel). cbn [Z.eqb].
  destruct (commitOrRollbackTransaction_level h1) as [Hl Hp].
  unfold commitOrRollbackTransaction, hbind in *.
  destruct (executeSQL_effect (getDescription Commit) h1) as (committed & rc & Ec).
  rewrite Ec in *. destruct committed; cbn [negb] in *.
  - exists true, []. cbn [fst snd] in *.
    split; [reflexivity|]. split; [reflexivity|]. split; [exact Hl|].
    exact (same_private_trans _ _ _ Hp1 Hp).
  - destruct (rollbackTransaction_effect (note (Executed (getDescription Commit) false)
                                             (reached rc h1)))
      as (r' & rest' & Er & _ & _ & Hj & _).
    rewrite Er in *. unfold hret in *. cbn [fst snd] in *.
    exists false, rest'. rewrite Hj. cbn [journal note reached]. rewrite <- app_assoc.
    split; [reflexivity|]. split; [reflexivity|]. split; [exact Hl|].
    exact (same_private_trans _ _ _ Hp1 Hp).
Qed.

End HandleFacts.
End HandleFacts.

(** ** Concrete runs of the further properties *)

Lemma guard_pages_trap_witness :
  let o := mmap_impl (P := Sample.linux) 100 Sample.boot in
  let a := value MAP_FAILED o in
  crashed (store_size_t a 1 (final o)) = false
  /\ crashed (store_size_t (a + 100) 1 (final o)) = false
  /\ store_size_t (a + 4092) 1 (final o) = Segv (final o)
  /\ load_size_t (a - 1) (final o) = Segv (final o).
Proof.
  intros o a.
  assert (H1 : 0 <= 100 < SIZE_MOD) by (vm_compute; split; [discriminate | reflexivity]).
  assert (H2 : o = Done a (final o))
    by (apply done_of_not_crashed; vm_compute; reflexivity).
  assert (H3 : a <> MAP_FAILED) by (vm_compute; discriminate).
  pose proof (fun q => guard_pages_trap (P := Sample.linux) 100 Sample.boot a (final o)
                         q 1 H1 H2 H3) as H.
  cbv zeta in H. change (Kernel.page_up (P := Sample.linux) 100) with 4096 in H.
  destruct (H a) as (_ & Hin & _).
  destruct (H (a + 100)) as (_ & Hover & _).
  destruct (H (a + 4092)) as (_ & _ & Hhigh).
  destruct (H (a - 1)) as (_ & _ & Hlow).
  split; [|split; [|split]].
  - apply Hin. vm_compute. split; discriminate.
  - apply Hover. vm_compute. split; discriminate.
  - apply Hhigh. right. vm_compute. split; reflexivity.
  - apply Hlow. left. vm_compute. split; reflexivity.
Defined.

Lemma mmap_impl_overflow_witness :
  let o := mmap_impl (P := Sample.linux) SIZE_MAX Sample.boot in
  value 0 o = MAP_FAILED /\ forall x, vm (mem (final o)) x = None.
Proof.
  intros o.
  assert (H1 : 0 <= SIZE_MAX < SIZE_MOD) by (vm_compute; split; [discriminate | reflexivity]).
  assert (H2 : SIZE_MAX < SIZE_MAX + 2 * getpagesize (Platform := Sample.linux))
    by (vm_compute; reflexivity).
  destruct (mmap_impl_overflow (P := Sample.linux) SIZE_MAX Sample.boot H1 H2)
    as (m' & Hrun & Hvm).
  unfold o. rewrite Hrun. cbn [value final]. split; [reflexivity | exact Hvm].
Defined.

Lemma munmap_impl_short_witness :
  let o := mmap_impl (P := Sample.linux) 8192 Sample.boot in
  let a := value MAP_FAILED o in
  let short := munmap_impl (P := Sample.linux) a 100 (final o) in
  let near := munmap_impl (P := Sample.linux) a 5000 (final o) in
  (value 1 short = 0
   /\ vm (mem (final short)) (a - 4096) = None
   /\ vm (mem (final short)) (a + 4096) = None
   /\ vm (mem (final short)) (a + 8192) = Some PROT_NONE)
  /\ (value 1 near = 0 /\ forall x, vm (mem (final near)) x = None).
Proof.
  intros o a short near.
  assert (H1 : 0 <= 8192 < SIZE_MOD) by (vm_compute; split; [discriminate | reflexivity]).
  assert (H2 : o = Done a (final o))
    by (apply done_of_not_crashed; vm_compute; reflexivity).
  assert (H3 : a <> MAP_FAILED) by (vm_compute; discriminate).
  assert (H4 : 0 <= 100 <= 8192) by (split; discriminate).
  assert (H5 : 0 <= 5000 <= 8192) by (split; discriminate).
  pose proof (munmap_impl_short (P := Sample.linux) 8192 100 Sample.boot a (final o)
                H1 H2 H3 H4) as Hs.
  pose proof (munmap_impl_short (P := Sample.linux) 8192 5000 Sample.boot a (final o)
                H1 H2 H3 H5) as Hn.
  cbv zeta in Hs, Hn.
  change (Kernel.page_up (P := Sample.linux) 8192) with 8192 in Hs, Hn.
  change (Kernel.page_up (P := Sample.linux) 100) with 4096 in Hs.
  change (Kernel.page_up (P := Sample.linux) 5000) with 8192 in Hn.
  destruct Hs as (m2 & Hrun & _ & Hgone & _ & _ & _ & Hleak).
  destruct Hn as (m3 & Hrun' & _ & _ & _ & _ & Hall & _).
  unfold short, near. rewrite Hrun, Hrun'. cbn [value final].
  split; [|split; [reflexivity | exact (Hall eq_refl)]].
  split; [reflexivity|]. split; [|split].
  - apply Hgone. vm_compute. split; [discriminate | reflexivity].
  - apply Hgone. vm_compute. split; [discriminate | reflexivity].
  - apply Hleak; [reflexivity|]. vm_compute. split; [discriminate | reflexivity].
Defined.

Lemma cfg_mmap_impl_plain_witness :
  let o := Cfg.mmap_impl (P := Sample.linux) 100 Sample.boot in
  let a := value MAP_FAILED o in
  vm (mem (final o)) a = Some (Z.lor PROT_READ PROT_WRITE)
  /\ vm (mem (final o)) (a + 100) = Some (Z.lor PROT_READ PROT_WRITE)
  /\ vm (mem (final o)) (a - 1) = None
  /\ vm (mem (final o)) (a + 4096) = None.
Proof.
  intros o a.
  assert (Ha : a <> MAP_FAILED) by (vm_compute; discriminate).
  pose proof (cfg_mmap_impl_plain (P := Sample.linux) 100 Sample.boot) as H.
  cbv zeta in H. change (Kernel.page_up (P := Sample.linux) 100) with 4096 in H.
  destruct H as (a' & m' & Hrun & Hok & _).
  unfold a, o in *. rewrite Hrun in *. cbn [value final] in *.
  destruct (Hok Ha) as (_ & _ & _ & _ & Hin & Hout).
  split; [|split; [|split]].
  - apply Hin. lia.
  - apply Hin. lia.
  - rewrite Hout by lia. reflexivity.
  - rewrite Hout by lia. reflexivity.
Defined.

Lemma cfg_round_trip_witness :
  let o := Cfg.mmap_impl (P := Sample.linux) 4096 Sample.boot in
  let a := value MAP_FAILED o in
  let o' := Cfg.munmap_impl (P := Sample.linux) a 4096 (final o) in
  value 1 o' = 0 /\ forall x, vm (mem (final o')) x = None.
Proof.
  intros o a o'.
  assert (H2 : o = Done a (final o))
    by (apply done_of_not_crashed; vm_compute; reflexivity).
  assert (H3 : a <> MAP_FAILED) by (vm_compute; discriminate).
  destruct (cfg_round_trip (P := Sample.linux) 4096 Sample.boot a (final o) H2 H3)
    as (m2 & Hrun & _ & Hvm).
  unfold o'. rewrite Hrun. cbn [value final]. split; [reflexivity | exact Hvm].
Defined.

Lemma pcache_free_after_malloc_witness :
  let m := Sample.started 4096 in
  let o := pcache_malloc (A := Sample.bump) 1024 m in
  let o' := pcache_free (A := Sample.bump) (value NULL o) (final o) in
  trace (final o') = [EvMalloc Sample.ARENA 1032 (Sample.ARENA + 16);
                      EvStore (Sample.ARENA + 16) 1032;
                      EvFree Sample.ARENA (Sample.ARENA + 16)].
Proof.
  intros m o o'.
  set (ptr := Sample.ARENA + 16).
  set (w := snd (mspace_malloc (Mspace := Sample.bump) (pcache_msp m)
                   (1024 + header_size) (mem m))).
  assert (H0 : 0 <= 1024) by lia.
  assert (H1 : 1024 + header_size <= SIZE_MAX) by (vm_compute; discriminate).
  assert (H2 : mspace_malloc (Mspace := Sample.bump) (pcache_msp m)
                 (1024 + header_size) (mem m) = (ptr, w))
    by (apply answer_of_call; vm_compute; reflexivity).
  assert (H3 : is_block w ptr (1024 + header_size) = true)
    by (vm_compute; reflexivity).
  destruct (pcache_free_after_malloc (A := Sample.bump) 1024 m ptr w H0 H1 H2 H3)
    as (p & m' & m'' & Hrun & Hfree & Htr & _).
  unfold o', o. rewrite Hrun. cbn [value final]. rewrite Hfree. cbn [final].
  rewrite Htr. reflexivity.
Defined.

Lemma pcache_malloc_frame_witness :
  let m := Sample.started 4096 in
  let o := pcache_malloc (A := Sample.bump) 1024 m in
  ram (mem (final o)) (value NULL o) = 170
  /\ pcache_msp (final o) = pcache_msp m.
Proof.
  intros m o.
  set (ptr := Sample.ARENA + 16).
  set (w := snd (mspace_malloc (Mspace := Sample.bump) (pcache_msp m)
                   (1024 + header_size) (mem m))).
  assert (H0 : 0 <= 1024) by lia.
  assert (H1 : 1024 + header_size <= SIZE_MAX) by (vm_compute; discriminate).
  assert (H2 : mspace_malloc (Mspace := Sample.bump) (pcache_msp m)
                 (1024 + header_size) (mem m) = (ptr, w))
    by (apply answer_of_call; vm_compute; reflexivity).
  assert (H3 : is_block w ptr (1024 + header_size) = true)
    by (vm_compute; reflexivity).
  destruct (pcache_malloc_frame (A := Sample.bump) 1024 m ptr w H0 H1 H2 H3)
    as (m' & Hrun & Hram & _ & Hmsp).
  unfold o. rewrite Hrun. cbn [value final]. split; [|exact Hmsp].
  rewrite Hram by (vm_compute; intros [_ Hlt]; discriminate Hlt).
  vm_compute. reflexivity.
Defined.

Lemma pcache_malloc_zero_size_and_free_witness :
  let m := Sample.started 4096 in
  let o := pcache_malloc_zero (A := Sample.bump) 1024 m in
  value 0 (pcache_memsize (value NULL o) (final o)) = 1024 + header_size
  /\ crashed (pcache_free (A := Sample.bump) (value NULL o) (final o)) = false.
Proof.
  intros m o.
  set (ptr := Sample.ARENA + 16).
  set (w := snd (mspace_calloc (Mspace := Sample.bump) (pcache_msp m)
                   (1024 + header_size) 1 (mem m))).
  assert (H0 : 0 <= 1024) by lia.
  assert (H1 : 1024 + header_size <= SIZE_MAX) by (vm_compute; discriminate).
  assert (H2 : mspace_calloc (Mspace := Sample.bump) (pcache_msp m)
                 (1024 + header_size) 1 (mem m) = (ptr, w))
    by (apply answer_of_call; vm_compute; reflexivity).
  assert (H3 : is_block w ptr (1024 + header_size) = true)
    by (vm_compute; reflexivity).
  destruct (pcache_malloc_zero_size_and_free (A := Sample.bump) 1024 m ptr w
              H0 H1 H2 H3)
    as (p & m' & m1 & m2 & Hrun & Hsize & _ & Hfree & _).
  unfold o. rewrite Hrun. cbn [value final]. rewrite Hsize, Hfree. cbn [value crashed].
  split; reflexivity.
Defined.

Lemma allocation_failure_unnoticed_witness :
  let m := Sample.after_allocs 3 1024 (Sample.started 4096) in
  crashed (pcache_malloc (A := Sample.bump) 1024 m) = true
  /\ crashed (pcache_malloc_zero (A := Sample.bump) 1024 m) = true.
Proof.
  intros m.
  set (w := snd (mspace_malloc (Mspace := Sample.bump) (pcache_msp m)
                   (to_size_t (1024 + header_size)) (mem m))).
  set (w0 := snd (mspace_calloc (Mspace := Sample.bump) (pcache_msp m)
                    (to_size_t (1024 + header_size)) 1 (mem m))).
  assert (H1 : mspace_malloc (Mspace := Sample.bump) (pcache_msp m)
                 (to_size_t (1024 + header_size)) (mem m) = (NULL, w))
    by (apply answer_of_call; vm_compute; reflexivity).
  assert (H2 : mspace_calloc (Mspace := Sample.bump) (pcache_msp m)
                 (to_size_t (1024 + header_size)) 1 (mem m) = (NULL, w0))
    by (apply answer_of_call; vm_compute; reflexivity).
  destruct (allocation_failure_unnoticed (A := Sample.bump) 1024 m w w0 H1 H2)
    as (Hm & _ & Hz & _).
  split; [apply Hm | apply Hz]; vm_compute; reflexivity.
Defined.

Module HandleRuns.
Import Handle.

Lemma exitAPI_reports_witness :
  let h := Toy.opened 0 false false [] in
  exitAPI (E := Toy.engine) SQLITE_ROW None h = (true, h)
  /\ fst (exitAPI (E := Toy.engine) SQLITE_ERROR (Some "SELECT 1"%string) h) = false
  /\ List.length (notified (snd (exitAPI (E := Toy.engine) SQLITE_ERROR
                                   (Some "SELECT 1"%string) h))) = 1%nat.
Proof.
  intros h.
  destruct (HandleFacts.exitAPI_reports (E := Toy.engine) SQLITE_ROW None h)
    as [Hok _].
  destruct (HandleFacts.exitAPI_reports (E := Toy.engine) SQLITE_ERROR
              (Some "SELECT 1"%string) h) as [_ Herr].
  split; [apply Hok; reflexivity|].
  destruct (Herr eq_refl) as (e & -> & _). split; reflexivity.
Defined.

Lemma ignorable_window_witness :
  let h := Toy.opened 0 false false [] in
  let h1 := snd (markErrorAsIgnorable (E := Toy.engine) SQLITE_ERROR h) in
  let h2 := snd (exitAPI (E := Toy.engine) SQLITE_ERROR None h1) in
  let h3 := snd (markErrorAsUnignorable (E := Toy.engine) h2) in
  let h4 := snd (exitAPI (E := Toy.engine) SQLITE_ERROR None h3) in
  m_ignorableCodes h3 = []
  /\ map level (notified h4) = [LevelIgnore; LevelError].
Proof.
  intros h h1 h2 h3 h4.
  assert (Hc : isError SQLITE_ERROR = true) by reflexivity.
  destruct (HandleFacts.ignorable_window (E := Toy.engine) SQLITE_ERROR None h Hc)
    as (Hl & e1 & e2 & Hn & L1 & L2).
  split; [exact Hl|].
  unfold h4, h3, h2, h1. rewrite Hn. change (notified h) with (@nil error).
  cbn [app map]. rewrite L1, L2. reflexivity.
Defined.

Lemma transaction_end_resets_level_witness :
  let h := Toy.opened 3 true false [] in
  m_nestedLevel (snd (rollbackTransaction (E := Toy.engine) h)) = 0
  /\ m_nestedLevel (snd (commitOrRollbackTransaction (E := Toy.engine) h)) = 0.
Proof.
  intros h.
  destruct (HandleFacts.transaction_end_resets_level (E := Toy.engine) h)
    as (Hr & _ & committed & h1 & rest & _ & _ & Hc & _).
  split; [exact Hr | exact Hc].
Defined.

Lemma nested_commit_balanced_witness :
  let h := Toy.opened 2 true false [] in
  let began := beginNestedTransaction (E := Toy.engine) h in
  let ended := commitOrRollbackNestedTransaction (E := Toy.engine) (snd began) in
  m_nestedLevel (snd began) = 3
  /\ m_nestedLevel (snd ended) = 2
  /\ fst ended = true
  /\ journal (snd ended) = [Executed "SAVEPOINT WCDBSavepoint_3" true;
                            Executed "RELEASE WCDBSavepoint_3" true].
Proof.
  intros h began ended.
  assert (H1 : m_nestedLevel h = 2) by reflexivity.
  assert (H2 : 0 <= 2 < INT_MAX) by (vm_compute; split; [discriminate | reflexivity]).
  assert (H3 : m_lazyNestedTransaction h = false) by reflexivity.
  assert (H4 : sqlite3_get_autocommit (Engine := Toy.engine) (db h) = 0) by reflexivity.
  destruct (HandleFacts.nested_commit_balanced (E := Toy.engine) h 2 H1 H2 H3 H4)
    as (Hb & He & _).
  split; [exact Hb|]. split; [exact He|]. split; vm_compute; reflexivity.
Defined.

Lemma nested_rollback_balanced_witness :
  let h := Toy.opened 8 true false [] in
  let began := beginNestedTransaction (E := Toy.engine) h in
  let ended := rollbackNestedTransaction (E := Toy.engine) (snd began) in
  m_nestedLevel (snd ended) = 8
  /\ journal (snd ended) = [Executed "SAVEPOINT WCDBSavepoint_9" true;
                            Executed "ROLLBACK TO WCDBSavepoint_9" true].
Proof.
  intros h began ended.
  assert (H1 : m_nestedLevel h = 8) by reflexivity.
  assert (H2 : 0 <= 8 < INT_MAX) by (vm_compute; split; [discriminate | reflexivity]).
  assert (H3 : m_lazyNestedTransaction h = false) by reflexivity.
  assert (H4 : sqlite3_get_autocommit (Engine := Toy.engine) (db h) = 0) by reflexivity.
  destruct (HandleFacts.nested_rollback_balanced (E := Toy.engine) h 8 H1 H2 H3 H4)
    as (He & _).
  split; [exact He|]. vm_compute. reflexivity.
Defined.

(** A release that fails is followed by a rollback to the same savepoint. *)
Example failed_release_rolls_back :
  let h := Toy.opened 8 true false [] in
  let began := beginNestedTransaction (E := Toy.engine) h in
  let ended := commitOrRollbackNestedTransaction (E := Toy.engine) (snd began) in
  fst ended = false
  /\ m_nestedLevel (snd ended) = 8
  /\ journal (snd ended) = [Executed "SAVEPOINT WCDBSavepoint_9" true;
                            Executed "RELEASE WCDBSavepoint_9" false;
                            Executed "ROLLBACK TO WCDBSavepoint_9" true].
Proof. cbv zeta. split; [|split]; vm_compute; reflexivity. Qed.

Lemma lazy_nested_commit_is_outer_witness :
  let h := Toy.opened 0 true true [] in
  let ended := commitOrRollbackNestedTransaction (E := Toy.engine)
                 (snd (beginNestedTransaction (E := Toy.engine) h)) in
  beginNestedTransaction (E := Toy.engine) h = (true, h)
  /\ journal (snd ended) = [Executed "COMMIT" true]
  /\ sqlite3_get_autocommit (Engine := Toy.engine) (db (snd ended)) = 1.
Proof.
  intros h ended.
  assert (H1 : m_lazyNestedTransaction h = true) by reflexivity.
  assert (H2 : sqlite3_get_autocommit (Engine := Toy.engine) (db h) = 0) by reflexivity.
  assert (H3 : m_nestedLevel h = 0) by reflexivity.
  destruct (HandleFacts.lazy_nested_commit_is_outer (E := Toy.engine) h H1 H2 H3)
    as (Hb & _).
  split; [exact Hb|]. split; vm_compute; reflexivity.
Defined.

Lemma getSavepointName_injective_witness :
  getSavepointName 1 = "WCDBSavepoint_1"%string
  /\ getSavepointName 1 <> getSavepointName 10
  /\ 7 = 7.
Proof.
  split; [reflexivity|]. split.
  - intros Heq. apply HandleFacts.getSavepointName_injective in Heq. discriminate Heq.
  - apply (HandleFacts.getSavepointName_injective 7 7). reflexivity.
Defined.

Lemma nested_end_level_witness :
  let h := Toy.opened 0 true false [] in
  m_nestedLevel (snd (commitOrRollbackNestedTransaction (E := Toy.engine) h)) = 0
  /\ m_nestedLevel (snd (rollbackNestedTransaction (E := Toy.engine) h)) = 0.
Proof.
  intros h.
  assert (H1 : 0 <= m_nestedLevel h <= INT_MAX) by (vm_compute; split; discriminate).
  pose proof (HandleFacts.nested_end_level (E := Toy.engine) h H1) as H.
  cbv zeta in H. destruct H as (Hc & Hr & _).
  change (m_nestedLevel h) with 0 in Hc, Hr. split; lia.
Defined.

Lemma statement_round_trip_witness :
  let h := Toy.opened 0 false false [(1, Toy.idle); (2, Toy.holding "SELECT 1")] in
  let borrowed := getStatement (E := Toy.engine) h in
  fst borrowed = 3
  /\ m_handleStatements (snd (returnStatement (E := Toy.engine) (fst borrowed)
                                (snd borrowed)))
     = m_handleStatements h.
Proof.
  intros h borrowed.
  assert (H1 : node_address (Engine := Toy.engine) (addresses (E := Toy.engine) h) <> 0)
    by (vm_compute; discriminate).
  assert (H2 : ~ In (node_address (Engine := Toy.engine) (addresses (E := Toy.engine) h))
                    (addresses (E := Toy.engine) h)).
  { vm_compute. intros [H | [H | []]]; discriminate H. }
  pose proof (HandleFacts.statement_round_trip (E := Toy.engine) h H1 H2) as H.
  cbv zeta in H. destruct H as (Hp & _ & Hback & _).
  split; [exact Hp | exact Hback].
Defined.

Lemma returnStatement_selective_witness :
  let h := Toy.opened 0 false false
             [(1, Toy.idle); (2, Toy.holding "SELECT 1"); (3, Toy.idle)] in
  returnStatement (E := Toy.engine) 0 h = (tt, h)
  /\ m_handleStatements (snd (returnStatement (E := Toy.engine) 2 h))
     = [(1, Toy.idle); (3, Toy.idle)].
Proof.
  intros h.
  assert (Hnd : NoDup (addresses (E := Toy.engine) h)).
  { vm_compute. repeat constructor.
    - intros [H | [H | []]]; discriminate H.
    - intros [H | []]; discriminate H.
    - intros []. }
  destruct (HandleFacts.returnStatement_selective (E := Toy.engine) 0 h Hnd)
    as [Hnull _].
  destruct (HandleFacts.returnStatement_selective (E := Toy.engine) 2 h Hnd)
    as [_ Hin].
  split; [apply Hnull; now left|].
  destruct Hin as (Hl & _).
  - discriminate.
  - vm_compute. right. left. reflexivity.
  - rewrite Hl. reflexivity.
Defined.

Lemma tableExists_result_witness :
  let h := Toy.opened 0 false false [(1, Toy.holding "SELECT 1")] in
  fst (tableExists (E := Toy.engine) "main" "missing" h) = (true, false)
  /\ fst (tableExists (E := Toy.engine) "main" "t" h) = (true, true)
  /\ addresses (E := Toy.engine) (snd (tableExists (E := Toy.engine) "main" "t" h))
     = [1]
  /\ m_handleStatements (snd (tableExists (E := Toy.engine) "main" "t" h))
     = [(1, Toy.idle)].
Proof.
  intros h.
  assert (H1 : node_address (Engine := Toy.engine) (addresses (E := Toy.engine) h) <> 0)
    by (vm_compute; discriminate).
  assert (H2 : ~ In (node_address (Engine := Toy.engine) (addresses (E := Toy.engine) h))
                    (addresses (E := Toy.engine) h)).
  { vm_compute. intros [H | []]; discriminate H. }
  pose proof (HandleFacts.tableExists_result (E := Toy.engine) "main" "missing" h H1 H2)
    as Hm.
  pose proof (HandleFacts.tableExists_result (E := Toy.engine) "main" "t" h H1 H2)
    as Ht.
  cbv zeta in Hm, Ht.
  destruct Hm as (_ & Hm & _). destruct Ht as (_ & Ht & _ & _ & Ha & _).
  split; [rewrite Hm; reflexivity|]. split; [rewrite Ht; reflexivity|].
  split; [exact Ha|]. vm_compute. reflexivity.
Defined.

Lemma getValues_balanced_witness :
  let h := Toy.opened 0 false false [(1, Toy.holding "SELECT 1")] in
  exists h',
    getColumns (E := Toy.engine) 10 "main" "t" h
    = Some (true, ["id"; "name"]%string, h')
    /\ m_handleStatements h' = [(1, Toy.holding "SELECT 1")]
    /\ journal h' = [Prepared (PragmaTableInfo "main" "t") true; Finalized 2].
Proof.
  intros h.
  assert (H1 : node_address (Engine := Toy.engine) (addresses (E := Toy.engine) h) <> 0)
    by (vm_compute; discriminate).
  assert (H2 : ~ In (node_address (Engine := Toy.engine) (addresses (E := Toy.engine) h))
                    (addresses (E := Toy.engine) h)).
  { vm_compute. intros [H | []]; discriminate H. }
  assert (Hrun : exists h',
             getValues (E := Toy.engine) 10 (PragmaTableInfo "main" "t") 1 h
             = Some (true, ["id"; "name"]%string, h')).
  { eexists. vm_compute. reflexivity. }
  destruct Hrun as (h' & Hrun). exists h'. split; [exact Hrun|].
  pose proof (HandleFacts.getValues_balanced (E := Toy.engine) 10 _ 1 h true _ h'
                H1 H2 Hrun) as Hb.
  cbv zeta in Hb. destruct Hb as (_ & _ & _ & Hl & _ & _ & Hj).
  split; [exact Hl |]. rewrite Hj. reflexivity.
Defined.

(** A step that fails after a row was read leaves no value behind; the
    statement is finalized and given back all the same. *)
Example failed_step_discards_values :
  let h := Toy.opened 0 false false [(1, Toy.holding "SELECT 1")] in
  exists h',
    getColumns (E := Toy.engine) 10 "main" "broken" h = Some (false, [], h')
    /\ m_handleStatements h' = [(1, Toy.holding "SELECT 1")]
    /\ journal h' = [Prepared (PragmaTableInfo "main" "broken") true; Finalized 2].
Proof. cbv zeta. eexists. split; [vm_compute; reflexivity|]. split; reflexivity. Qed.

(** Too few rounds give no result. *)
Example too_little_fuel :
  getColumns (E := Toy.engine) 3 "main" "t" (Toy.opened 0 false false []) = None.
Proof. vm_compute. reflexivity. Qed.

Lemma step_consumes (s : Toy.cursor) (h : handle Toy.connection Toy.cursor)
    (ok : bool) (s' : Toy.cursor) (r : reach Toy.connection) :
  Toy.step s h = (ok, s', r) -> ok = true -> Toy.done s' = false ->
  (Toy.rows_left s' < Toy.rows_left s)%nat.
Proof.
  unfold Toy.step, Toy.done, Toy.rows_left, Toy.advance. intros Hstep Hok Hdone.
  subst ok.
  destruct (Toy.text s) as [sql|]; [|discriminate Hstep].
  destruct (Toy.pending s) as [|r0 rest];
    repeat match type of Hstep with
           | (if ?c then _ else _) = _ => destruct c
           end;
    try discriminate Hstep;
    injection Hstep as <- _; cbn in Hdone |- *; try discriminate Hdone;
    apply Nat.lt_succ_diag_r.
Qed.

Lemma getValues_returns_witness :
  exists n out,
    forall fuel, (n <= fuel)%nat ->
                 getValues (E := Toy.engine) fuel (PragmaTableInfo "main" "t") 1
                   (Toy.opened 0 false false []) = Some out.
Proof.
  exact (HandleFacts.getValues_returns (E := Toy.engine) Toy.rows_left
           (PragmaTableInfo "main" "t") 1 (Toy.opened 0 false false [])
           step_consumes).
Defined.

Lemma nested_outermost_is_plain_witness :
  let h := Toy.opened 0 false true [] in
  let began := beginNestedTransaction (E := Toy.engine) h in
  let ended := commitOrRollbackNestedTransaction (E := Toy.engine) (snd began) in
  began = beginTransaction (E := Toy.engine) h
  /\ m_nestedLevel (snd began) = 0
  /\ journal (snd ended) = [Executed "BEGIN IMMEDIATE" true; Executed "COMMIT" true].
Proof.
  intros h began ended.
  assert (H1 : sqlite3_get_autocommit (Engine := Toy.engine) (db h) <> 0)
    by (vm_compute; discriminate).
  assert (H2 : m_nestedLevel h = 0) by reflexivity.
  destruct (HandleFacts.nested_outermost_is_plain (E := Toy.engine) h H1 H2)
    as (Hb & _ & Hl & _).
  split; [exact Hb|]. split; [exact Hl|]. vm_compute. reflexivity.
Defined.

End HandleRuns.
